(** * UFL: the expression type registry, the index model and form preprocessing

    A shallow embedding of
      - [ufl/core/ufl_type.py]   (the [ufl_type] class decorator),
      - [ufl/indexing.py]        ([as_index], [as_index_tuple], [extract_indices], [MultiIndex]),
      - [ufl/tensors.py]         ([ListVector], [ListMatrix]),
      - [ufl/algorithms/compute_form_data.py]
                                 ([_auto_select_degree], [_compute_element_mapping],
                                  [_compute_num_sub_domains], coefficient reduction),
    followed by the properties established about them.

    The sources are Python 2 (implicit relative imports, [max] applied to
    [None]): ordering comparisons involving [None] do not raise, [None]
    compares below every number. *)

From stdpp Require Import gmap strings list sorting.
From Stdlib Require Import ZArith Permutation Sorted Lia.

Local Open Scope string_scope.
Local Open Scope Z_scope.
Local Open Scope list_scope.

(** ** Python runtime: exceptions, values, class objects *)

Module Py.

(** The exceptions the modelled code raises.  [ufl_assert] and [ufl_error]
    (module [output] / [ufl.assertions]) raise the UFL exception with the
    message they are given. *)
Inductive exn :=
  | TypeError (msg : string)
  | AttributeError (attr : string)
  | AssertionError
  | IndexError
  | UFLException (msg : string).

Inductive outcome (A : Type) :=
  | Return (a : A)
  | Raise (e : exn).
Arguments Return {A} a.
Arguments Raise {A} e.

Definition is_return {A} (o : outcome A) : bool :=
  match o with Return _ => true | Raise _ => false end.

Definition obind {A B} (o : outcome A) (k : A → outcome B) : outcome B :=
  match o with Return a => k a | Raise e => Raise e end.

(** [ufl_assert(condition, message)] *)
Definition ufl_assert (condition : bool) (message : string) : outcome unit :=
  if condition then Return tt else Raise (UFLException message).

(** Identity of a class object. *)
Definition cid := nat.

(** The values stored in class attributes. *)
#[warnings="-register-all"]
Inductive pyval :=
  | VNone
  | VBool (b : bool)
  | VInt (n : Z)
  | VStr (s : string)
  | VTuple (items : list pyval)
  | VClass (c : cid)
  | VCallable (label : string)
  | VObject (label : string).

(** Truth value of an object in a condition. *)
Definition truthy (v : pyval) : bool :=
  match v with
  | VNone => false
  | VBool b => b
  | VInt n => negb (Z.eqb n 0)
  | VStr s => negb (String.eqb s "")
  | VTuple items => match items with [] => false | _ => true end
  | VClass _ | VCallable _ | VObject _ => true
  end.

Definition is_None (v : pyval) : bool :=
  match v with VNone => true | _ => false end.

(** [v != 0] *)
Definition ne_zero (v : pyval) : bool :=
  match v with
  | VInt n => negb (Z.eqb n 0)
  | VBool b => b
  | _ => true
  end.

(** [callable(v)] *)
Definition callable (v : pyval) : bool :=
  match v with VClass _ | VCallable _ => true | _ => false end.

Definition of_option_bool (o : option bool) : pyval :=
  match o with None => VNone | Some b => VBool b end.

Definition of_option_int (o : option Z) : pyval :=
  match o with None => VNone | Some n => VInt n end.

Definition truthy_opt_str (o : option string) : bool :=
  match o with None => false | Some s => negb (String.eqb s "") end.

(** A class object: its [__name__], the linearisation of its proper bases
    ([cls.mro()] without its first entry, which is the class itself) and its
    own namespace [__dict__]. *)
Record pyclass := PyClass {
  __name__ : string;
  __bases_mro__ : list cid;
  __dict__ : gmap string pyval
}.

Definition class_of (h : gmap cid pyclass) (c : cid) : pyclass :=
  default (PyClass "" [] ∅) (h !! c).

(** [cls.mro()] *)
Definition mro (h : gmap cid pyclass) (c : cid) : list cid :=
  c :: __bases_mro__ (class_of h c).

Fixpoint lookup_along (h : gmap cid pyclass) (name : string) (cs : list cid)
  : option pyval :=
  match cs with
  | [] => None
  | c :: cs' =>
      match __dict__ (class_of h c) !! name with
      | Some v => Some v
      | None => lookup_along h name cs'
      end
  end.

(** [getattr(cls, name)]: the first namespace along the MRO that binds
    [name]; [None] stands for the [AttributeError]. *)
Definition getattr (h : gmap cid pyclass) (c : cid) (name : string) : option pyval :=
  lookup_along h name (mro h c).

Definition hasattr (h : gmap cid pyclass) (c : cid) (name : string) : bool :=
  match getattr h c name with Some _ => true | None => false end.

(** [setattr(cls, name, v)] writes the class's own namespace. *)
Definition setattr (h : gmap cid pyclass) (c : cid) (name : string) (v : pyval)
  : gmap cid pyclass :=
  let k := class_of h c in
  <[c := PyClass (__name__ k) (__bases_mro__ k) (<[name := v]> (__dict__ k))]> h.

(** [issubclass(c, base)] *)
Definition issubclass (h : gmap cid pyclass) (c base : cid) : bool :=
  bool_decide (base ∈ mro h c).

(** [name in cls.__dict__] *)
Definition in_dict (h : gmap cid pyclass) (c : cid) (name : string) : bool :=
  match __dict__ (class_of h c) !! name with Some _ => true | None => false end.

End Py.
Export Py.

(** ** [ufl/core/ufl_type.py] *)

(** The function [camel2underscore] is imported from [ufl.common]. *)
Class Common := { camel2underscore : string → string }.

Module UflType.

(** The root class [Expr] and the class-level registry it carries, together
    with the class objects of the process. *)
Definition object : cid := 0%nat.
Definition Expr : cid := 1%nat.

Record state := State {
  heap : gmap cid pyclass;
  _ufl_all_classes_ : list cid;
  _ufl_all_handler_names_ : gset string;
  _ufl_num_typecodes_ : nat;
  _ufl_language_operators_ : gmap string pyval;
  _ufl_obj_init_counts_ : list Z;
  _ufl_obj_del_counts_ : list Z;
  _ufl_required_methods_ : list string;
  _ufl_required_properties_ : list string
}.

(** The keyword arguments of [ufl_type]. *)
Record traits := Traits {
  is_abstract : bool;
  is_terminal : option bool;
  is_scalar : bool;
  is_shaping : bool;
  num_ops : option Z;
  wraps_type : option pyval;
  unop : option string;
  binop : option string;
  rbinop : option string
}.

(** [ufl_type()] with every argument at its default. *)
Definition default_traits : traits :=
  Traits false None false false None None None None None.

(** Stateful computations that may raise; the state reached at a [raise] is
    kept, as the mutations made before it are. *)
Definition M (A : Type) : Type := state → state * outcome A.

Definition ret {A} (a : A) : M A := λ s, (s, Return a).
Definition raise {A} (e : exn) : M A := λ s, (s, Raise e).
Definition bind {A B} (m : M A) (k : A → M B) : M B :=
  λ s, match m s with
       | (s', Return a) => k a s'
       | (s', Raise e) => (s', Raise e)
       end.
Definition gets {A} (f : state → A) : M A := λ s, (s, Return (f s)).
Definition modify (f : state → state) : M unit := λ s, (f s, Return tt).
Definition lift {A} (o : outcome A) : M A := λ s, (s, o).

(** The postcondition [Q] holds of the state and outcome of running [m]
    from [s]. *)
Definition wp {A} (m : M A) (s : state) (Q : state → outcome A → Prop) : Prop :=
  Q (m s).1 (m s).2.

Notation "'let*' x ':=' m 'in' k" := (bind m (λ x, k))
  (at level 10, x name, m at level 100, k at level 200, only parsing).
Notation "'do' m 'then' k" := (bind m (λ _, k))
  (at level 10, m at level 100, k at level 200, only parsing).

Definition with_heap (f : gmap cid pyclass → gmap cid pyclass) (s : state) : state :=
  State (f (heap s)) (_ufl_all_classes_ s) (_ufl_all_handler_names_ s)
        (_ufl_num_typecodes_ s) (_ufl_language_operators_ s)
        (_ufl_obj_init_counts_ s) (_ufl_obj_del_counts_ s)
        (_ufl_required_methods_ s) (_ufl_required_properties_ s).

(** [cls.name = v] *)
Definition set_attr (c : cid) (name : string) (v : pyval) : M unit :=
  modify (with_heap (λ h, setattr h c name v)).

(** [cls.name] for an attribute the class is known to have. *)
Definition attr (s : state) (c : cid) (name : string) : pyval :=
  default VNone (getattr (heap s) c name).

(** [Expr._ufl_all_classes_.append(cls)] *)
Definition append_class (c : cid) : M unit :=
  modify (λ s, State (heap s) (_ufl_all_classes_ s ++ [c]) (_ufl_all_handler_names_ s)
        (_ufl_num_typecodes_ s) (_ufl_language_operators_ s)
        (_ufl_obj_init_counts_ s) (_ufl_obj_del_counts_ s)
        (_ufl_required_methods_ s) (_ufl_required_properties_ s)).

(** [Expr._ufl_all_handler_names_.add(name)] *)
Definition add_handler_name (name : string) : M unit :=
  modify (λ s, State (heap s) (_ufl_all_classes_ s) ({[name]} ∪ _ufl_all_handler_names_ s)
        (_ufl_num_typecodes_ s) (_ufl_language_operators_ s)
        (_ufl_obj_init_counts_ s) (_ufl_obj_del_counts_ s)
        (_ufl_required_methods_ s) (_ufl_required_properties_ s)).

(** [Expr._ufl_num_typecodes_ += 1] *)
Definition incr_num_typecodes : M unit :=
  modify (λ s, State (heap s) (_ufl_all_classes_ s) (_ufl_all_handler_names_ s)
        (S (_ufl_num_typecodes_ s)) (_ufl_language_operators_ s)
        (_ufl_obj_init_counts_ s) (_ufl_obj_del_counts_ s)
        (_ufl_required_methods_ s) (_ufl_required_properties_ s)).

(** [Expr._ufl_language_operators_[name] = f] *)
Definition set_language_operator (name : string) (f : pyval) : M unit :=
  modify (λ s, State (heap s) (_ufl_all_classes_ s) (_ufl_all_handler_names_ s)
        (_ufl_num_typecodes_ s) (<[name := f]> (_ufl_language_operators_ s))
        (_ufl_obj_init_counts_ s) (_ufl_obj_del_counts_ s)
        (_ufl_required_methods_ s) (_ufl_required_properties_ s)).

(** [Expr._ufl_obj_init_counts_.append(0); Expr._ufl_obj_del_counts_.append(0)] *)
Definition append_obj_counts : M unit :=
  modify (λ s, State (heap s) (_ufl_all_classes_ s) (_ufl_all_handler_names_ s)
        (_ufl_num_typecodes_ s) (_ufl_language_operators_ s)
        (_ufl_obj_init_counts_ s ++ [0]) (_ufl_obj_del_counts_ s ++ [0])
        (_ufl_required_methods_ s) (_ufl_required_properties_ s)).

(** [assert condition] *)
Definition py_assert (condition : bool) : M unit :=
  if condition then ret tt else raise AssertionError.

(** [get_base_attr(cls, name)]: the first non-[None] attribute of the given
    name among the classes of [cls.mro()]. *)
Fixpoint get_base_attr_loop (h : gmap cid pyclass) (name : string) (bases : list cid)
  : pyval :=
  match bases with
  | [] => VNone
  | base :: rest =>
      match getattr h base name with
      | Some attr => if is_None attr then get_base_attr_loop h name rest else attr
      | None => get_base_attr_loop h name rest
      end
  end.

Definition get_base_attr (h : gmap cid pyclass) (cls : cid) (name : string) : pyval :=
  get_base_attr_loop h name (mro h cls).

(** The loop over [cls.mro()] that stops at [Expr]. *)
Fixpoint check_bases (h : gmap cid pyclass) (bases : list cid) : outcome unit :=
  match bases with
  | [] => Return tt
  | base :: rest =>
      if bool_decide (base = Expr) then Return tt
      else if negb (issubclass h base Expr) then
        match getattr h base "_ufl_is_abstract_" with
        | None => Raise (AttributeError "_ufl_is_abstract_")
        | Some a =>
            if truthy a
            then Raise (TypeError "Base class is not an abstract subclass of Expr.")
            else check_bases h rest
        end
      else check_bases h rest
  end.

(** The [__slots__] check; [cls.mro()[1:-1]] are the proper bases without
    [object]. *)
Definition check_slots (h : gmap cid pyclass) (cls : cid) : outcome unit :=
  if negb (in_dict h cls "_ufl_noslots_") then
    if negb (in_dict h cls "__slots__")
    then Raise (TypeError "Class is missing the __slots__ attribute and is not marked with _ufl_noslots_.")
    else if forallb (λ base, in_dict h base "__slots__") (removelast (tail (mro h cls)))
    then Return tt
    else Raise (TypeError "Class has a base class with __slots__ missing.")
  else Return tt.

Definition terminal_unspecified : string :=
  "Class has not specified the is_terminal trait. Did you forget to inherit from Terminal or Operator?".

Section Decorator.
Context `{Common}.

Definition _ufl_type_decorator_ (t : traits) (cls : cid) : M cid :=
  do set_attr cls "_ufl_is_abstract_" (VBool (is_abstract t)) then
  let* h := gets heap in
  do lift (check_bases h (mro h cls)) then
  do lift (check_slots h cls) then
  do set_attr cls "_ufl_is_shaping_" (VBool (is_shaping t)) then
  do set_attr cls "_ufl_class_" (VClass cls) then
  do append_class cls then
  let handler_name := camel2underscore (__name__ (class_of h cls)) in
  do set_attr cls "_ufl_handler_name_" (VStr handler_name) then
  do add_handler_name handler_name then
  let* n := gets _ufl_num_typecodes_ in
  do set_attr cls "_ufl_typecode_" (VInt (Z.of_nat n)) then
  do incr_num_typecodes then
  let* h := gets heap in
  let auto_is_terminal := get_base_attr h cls "_ufl_is_terminal_" in
  let* auto_is_terminal :=
    if is_None (of_option_bool (is_terminal t)) && is_None auto_is_terminal
    then raise (TypeError terminal_unspecified)
    else ret (of_option_bool (is_terminal t)) in
  do set_attr cls "_ufl_is_terminal_" auto_is_terminal then
  let* s := gets id in
  let auto_num_ops := of_option_int (num_ops t) in
  let auto_num_ops :=
    if is_None auto_num_ops then
      if truthy (attr s cls "_ufl_is_terminal_") then VInt 0
      else if truthy_opt_str (unop t) then VInt 1
      else if truthy_opt_str (binop t) || truthy_opt_str (rbinop t) then VInt 2
      else auto_num_ops
    else auto_num_ops in
  let auto_num_ops :=
    if is_None auto_num_ops then get_base_attr (heap s) cls "_ufl_num_ops_"
    else auto_num_ops in
  do set_attr cls "_ufl_num_ops_" auto_num_ops then
  let* s := gets id in
  do (if negb (is_abstract t) && hasattr (heap s) cls "_ufl_function_"
      then set_language_operator
             (match attr s cls "_ufl_handler_name_" with VStr n => n | _ => "" end)
             (attr s cls "_ufl_function_")
      else ret tt) then
  do append_obj_counts then
  let* s := gets id in
  do py_assert (bool_decide (_ufl_num_typecodes_ s = size (_ufl_all_handler_names_ s))) then
  do py_assert (bool_decide (_ufl_num_typecodes_ s = length (_ufl_all_classes_ s))) then
  do py_assert (bool_decide (_ufl_num_typecodes_ s = length (_ufl_obj_init_counts_ s))) then
  do py_assert (bool_decide (_ufl_num_typecodes_ s = length (_ufl_obj_del_counts_ s))) then
  do (if negb (is_abstract t) && is_None (attr s cls "_ufl_num_ops_")
      then raise (TypeError "Class has not specified num_ops.")
      else ret tt) then
  do (if truthy (attr s cls "_ufl_is_terminal_") && ne_zero (attr s cls "_ufl_num_ops_")
      then raise (TypeError "Class has num_ops > 0 but is terminal.")
      else ret tt) then
  ret cls.

(** The second decorator defined inside [ufl_type]. *)
Fixpoint check_required_methods (h : gmap cid pyclass) (cls : cid) (attrs : list string)
  : outcome unit :=
  match attrs with
  | [] => Return tt
  | a :: rest =>
      match getattr h cls a with
      | None => Raise (TypeError "Class has no required method.")
      | Some v =>
          if negb (callable v)
          then Raise (TypeError "Required method of class is not callable.")
          else check_required_methods h cls rest
      end
  end.

Fixpoint check_required_properties (h : gmap cid pyclass) (cls : cid) (attrs : list string)
  : outcome unit :=
  match attrs with
  | [] => Return tt
  | a :: rest =>
      match getattr h cls a with
      | None => Raise (TypeError "Class has no required property.")
      | Some v =>
          if callable v
          then Raise (TypeError "Required property of class is a callable method.")
          else check_required_properties h cls rest
      end
  end.

Definition set_opt_attr (c : cid) (name : option string) (v : pyval) : M unit :=
  match name with
  | Some n => if truthy_opt_str name then set_attr c n v else ret tt
  | None => ret tt
  end.

Definition uflcore__ufl_type_decorator_ (t : traits) (cls : cid) : M cid :=
  do set_attr cls "_ufl_is_scalar_" (VBool (is_scalar t)) then
  let* h := gets heap in
  do (if is_scalar t then
        do set_attr cls "ufl_shape" (VTuple []) then
        do set_attr cls "ufl_free_indices" (VTuple []) then
        set_attr cls "ufl_index_dimensions" (VTuple [])
      else if truthy (get_base_attr h cls "_ufl_is_scalar_")
      then raise (TypeError "Non-scalar class is has a scalar base class.")
      else ret tt) then
  let* s := gets id in
  do (if negb (is_abstract t)
      then lift (check_required_methods (heap s) cls (_ufl_required_methods_ s))
      else ret tt) then
  do (if negb (is_abstract t)
      then lift (check_required_properties (heap s) cls (_ufl_required_properties_ s))
      else ret tt) then
  do (match wraps_type t with
      | None => ret tt
      | Some (VClass w) =>
          set_attr Expr ("_ufl_as_" ++ __name__ (class_of (heap s) w) ++ "_")%string
                   (VCallable "_ufl_as_type_")
      | Some _ => raise (TypeError "Expecting a type for the wraps_type argument.")
      end) then
  do set_opt_attr Expr (unop t) (VCallable "_ufl_expr_unop_") then
  do set_opt_attr Expr (binop t) (VCallable "_ufl_expr_binop_") then
  do set_opt_attr Expr (rbinop t) (VCallable "_ufl_expr_rbinop_") then
  ret cls.

(** [ufl_type(...)] ends with [return _ufl_type_decorator_]: the decorator
    applied to a class is the first of the two functions. *)
Definition ufl_type (t : traits) : cid → M cid := _ufl_type_decorator_ t.

(** Modelled from the spec: the class body of [Expr] ([ufl/expr.py]) is not
    among the sources.  The registry starts empty and typecodes are
    zero-based; the heap holds the class objects the [class] statements
    create, and the two tuples of required attribute names are whatever
    [Expr] declares. *)
Definition initial (h : gmap cid pyclass)
    (required_methods required_properties : list string) : state :=
  State h [] ∅ 0 ∅ [] [] required_methods required_properties.

(** A module body: one decorated class definition after the other.  Each
    step records the state before, the decorated class, the state after and
    what the decorator did; a registration that raises leaves the state it
    had reached. *)
Record step := Step {
  before : state;
  decl : traits * cid;
  after : state;
  result : outcome cid
}.

Fixpoint register_all (decls : list (traits * cid)) (s : state) : list step :=
  match decls with
  | [] => []
  | d :: rest =>
      let r := ufl_type d.1 d.2 s in
      Step s d r.1 r.2 :: register_all rest r.1
  end.

(** The handler name [ufl_type] derives for a class. *)
Definition handler_name_of (s : state) (cls : cid) : string :=
  camel2underscore (__name__ (class_of (heap s) cls)).

(** The four consistency assertions of the decorator. *)
Definition counts_agree (s : state) : Prop :=
  _ufl_num_typecodes_ s = size (_ufl_all_handler_names_ s) ∧
  _ufl_num_typecodes_ s = length (_ufl_all_classes_ s) ∧
  _ufl_num_typecodes_ s = length (_ufl_obj_init_counts_ s) ∧
  _ufl_num_typecodes_ s = length (_ufl_obj_del_counts_ s).

(** What one application of the decorator does to the registry. *)
Definition registry_untouched (s s' : state) : Prop :=
  _ufl_all_classes_ s' = _ufl_all_classes_ s ∧
  _ufl_all_handler_names_ s' = _ufl_all_handler_names_ s ∧
  _ufl_num_typecodes_ s' = _ufl_num_typecodes_ s ∧
  _ufl_obj_init_counts_ s' = _ufl_obj_init_counts_ s ∧
  _ufl_obj_del_counts_ s' = _ufl_obj_del_counts_ s.

Definition typecode_assigned (cls : cid) (s s' : state) : Prop :=
  _ufl_all_classes_ s' = _ufl_all_classes_ s ++ [cls] ∧
  _ufl_all_handler_names_ s' = {[handler_name_of s cls]} ∪ _ufl_all_handler_names_ s ∧
  _ufl_num_typecodes_ s' = S (_ufl_num_typecodes_ s) ∧
  getattr (heap s') cls "_ufl_typecode_" = Some (VInt (Z.of_nat (_ufl_num_typecodes_ s))).

Definition counters_appended (s s' : state) : Prop :=
  _ufl_obj_init_counts_ s' = _ufl_obj_init_counts_ s ++ [0] ∧
  _ufl_obj_del_counts_ s' = _ufl_obj_del_counts_ s ++ [0].

Definition counters_untouched (s s' : state) : Prop :=
  _ufl_obj_init_counts_ s' = _ufl_obj_init_counts_ s ∧
  _ufl_obj_del_counts_ s' = _ufl_obj_del_counts_ s.

Definition decorator_effect (t : traits) (cls : cid) (s s' : state) (o : outcome cid) : Prop :=
  (registry_untouched s s' ∧ is_return o = false) ∨
  (typecode_assigned cls s s' ∧ counters_untouched s s' ∧ is_return o = false) ∨
  (typecode_assigned cls s s' ∧ counters_appended s s' ∧
   getattr (heap s') cls "_ufl_is_terminal_" = Some (of_option_bool (is_terminal t)) ∧
   ((o = Return cls ∧ counts_agree s') ∨
    (o = Raise AssertionError ∧ ¬ counts_agree s') ∨
    (∃ msg, o = Raise (TypeError msg) ∧ counts_agree s'))).

(** [ufl_type] with its [is_scalar] argument replaced. *)
Definition with_is_scalar (b : bool) (t : traits) : traits :=
  Traits (is_abstract t) (is_terminal t) b (is_shaping t) (num_ops t)
         (wraps_type t) (unop t) (binop t) (rbinop t).

End Decorator.

(** The states of a running process: the initial one, those that follow a
    registration, and those that follow any other change to class objects
    (new [class] statements, attribute assignments). *)
Inductive reachable `{Common} : state → Prop :=
  | reachable_initial h rm rp : reachable (initial h rm rp)
  | reachable_ufl_type s t cls : reachable s → reachable (ufl_type t cls s).1
  | reachable_heap s f : reachable s → reachable (with_heap f s).

End UflType.

(** Modelled from the spec: [camel2underscore] is defined in [ufl.common],
    which is not among the sources; the handler name is the CamelCase class
    name converted to underscore-separated lower case. *)
Module CommonModel.

Definition is_upper (c : Ascii.ascii) : bool :=
  (65 <=? Ascii.nat_of_ascii c)%nat && (Ascii.nat_of_ascii c <=? 90)%nat.

Definition is_lower (c : Ascii.ascii) : bool :=
  (97 <=? Ascii.nat_of_ascii c)%nat && (Ascii.nat_of_ascii c <=? 122)%nat.

Definition to_lower (c : Ascii.ascii) : Ascii.ascii :=
  if is_upper c then Ascii.ascii_of_nat (Ascii.nat_of_ascii c + 32) else c.

Fixpoint convert (lastlower : bool) (name : string) : string :=
  match name with
  | EmptyString => EmptyString
  | String c rest =>
      let tail := String (to_lower c) (convert (is_lower c) rest) in
      if is_upper c && lastlower then String (Ascii.ascii_of_nat 95) tail else tail
  end.

Definition common : Common := {| camel2underscore := convert false |}.

End CommonModel.

(** A small class hierarchy used to run the decorator: [Terminal] under
    [Expr], two unrelated classes both named [FacetNormal] (defined in
    different modules), a scalar class and a subclass of it, and a class
    whose body sets [_ufl_is_scalar_] with a subclass of its own. *)
Module World.
Import UflType.

Definition Terminal : cid := 2%nat.
Definition FacetNormal : cid := 3%nat.
Definition OtherFacetNormal : cid := 4%nat.
Definition ScalarValue : cid := 5%nat.
Definition VectorValue : cid := 6%nat.
Definition MarkedScalar : cid := 7%nat.
Definition UnmarkedChild : cid := 8%nat.

Definition slots : gmap string pyval := {[ "__slots__" := VTuple [] ]}.

Definition classes : gmap cid pyclass :=
  list_to_map
    [ (object, PyClass "object" [] ∅);
      (Expr, PyClass "Expr" [object] slots);
      (Terminal, PyClass "Terminal" [Expr; object] slots);
      (FacetNormal, PyClass "FacetNormal" [Terminal; Expr; object] slots);
      (OtherFacetNormal, PyClass "FacetNormal" [Terminal; Expr; object] slots);
      (ScalarValue, PyClass "ScalarValue" [Terminal; Expr; object] slots);
      (VectorValue, PyClass "VectorValue" [ScalarValue; Terminal; Expr; object] slots);
      (MarkedScalar, PyClass "MarkedScalar" [Terminal; Expr; object]
                       (<["_ufl_is_scalar_" := VBool true]> slots));
      (UnmarkedChild, PyClass "UnmarkedChild" [MarkedScalar; Terminal; Expr; object] slots) ].

Definition start : state := initial classes [] [].

(** [@ufl_type(is_abstract=True, is_terminal=True)] *)
Definition abstract_terminal : traits :=
  Traits true (Some true) false false None None None None None.

(** [@ufl_type(is_scalar=True)] *)
Definition scalar : traits := with_is_scalar true default_traits.

Definition run (t : traits) (cls : cid) (s : state) : state * outcome cid :=
  @ufl_type CommonModel.common t cls s.

(** After [Terminal] has been registered. *)
Definition with_Terminal : state := (run abstract_terminal Terminal start).1.

(** After [Terminal] and the first [FacetNormal]. *)
Definition with_FacetNormal : state := (run default_traits FacetNormal with_Terminal).1.

(** After [Terminal] and [ScalarValue]. *)
Definition with_ScalarValue : state := (run scalar ScalarValue with_Terminal).1.

(** After [Terminal] and [MarkedScalar]. *)
Definition with_MarkedScalar : state := (run default_traits MarkedScalar with_Terminal).1.

Definition second_step : step :=
  Step with_Terminal (default_traits, FacetNormal)
       (run default_traits FacetNormal with_Terminal).1
       (run default_traits FacetNormal with_Terminal).2.

End World.

(** ** [ufl/indexing.py] *)

Module Indexing.

(** An [Index] object.  The class defines neither [__eq__] nor [__hash__]:
    two indices are the same dictionary key exactly when they are the same
    object, so the object's identity is part of the model. *)
Record Index := MkIndex {
  index_id : nat;
  _name : option string;
  _count : Z
}.

Record FixedIndex := MkFixedIndex { _value : Z }.

#[global] Instance Index_eq_dec : EqDecision Index.
Proof. solve_decision. Defined.

#[global] Instance Index_countable : Countable Index.
Proof.
  refine (inj_countable' (λ i, (index_id i, _name i, _count i))
                         (λ t, MkIndex t.1.1 t.1.2 t.2) _).
  by intros [].
Defined.

#[global] Instance FixedIndex_eq_dec : EqDecision FixedIndex.
Proof. solve_decision. Defined.

(** The objects an index tuple is made of; [Axis] is the one instance of
    [AxisType] the module creates. *)
Inductive index_obj :=
  | AnIndex (i : Index)
  | AFixedIndex (f : FixedIndex)
  | Axis.

#[global] Instance index_obj_eq_dec : EqDecision index_obj.
Proof. solve_decision. Defined.

(** What a user may write between the brackets. *)
Inductive user_item :=
  | UIndex (i : Index)
  | UFixedIndex (f : FixedIndex)
  | UInt (n : Z)
  | USlice (start stop step : option Z)
  | UEllipsis
  | UAxis
  | UOther (repr : string).

Inductive user_indices :=
  | Single (i : user_item)
  | Tuple (items : list user_item).

Definition is_Ellipsis (i : user_item) : bool :=
  match i with UEllipsis => true | _ => false end.

Definition as_index (i : user_item) : outcome index_obj :=
  match i with
  | UIndex x => Return (AnIndex x)
  | UFixedIndex f => Return (AFixedIndex f)
  | UInt n => Return (AFixedIndex (MkFixedIndex n))
  | USlice start stop step =>
      obind (ufl_assert (bool_decide (start = None) && bool_decide (stop = None)
                         && bool_decide (step = None))
                        "Partial slices not implemented, only [:]")
            (λ _, Return Axis)
  | UEllipsis | UAxis | UOther _ =>
      Raise (UFLException "Can convert this object to index")
  end.

(** The loop of [as_index_tuple] over the entries, with its three local
    variables. *)
Fixpoint as_index_tuple_loop (indices : list user_item)
    (pre post : list index_obj) (found : bool)
  : outcome (list index_obj * list index_obj) :=
  match indices with
  | [] => Return (pre, post)
  | idx :: rest =>
      if found then
        if is_Ellipsis idx then as_index_tuple_loop rest pre post true
        else obind (as_index idx) (λ i, as_index_tuple_loop rest (pre ++ [i]) post found)
      else
        obind (ufl_assert (negb (is_Ellipsis idx)) "Found duplicate ellipsis.") (λ _,
        obind (as_index idx) (λ i, as_index_tuple_loop rest pre (post ++ [i]) found))
  end.

(** [[Axis] * n]: no entry when [n] is not positive. *)
Definition axes (n : Z) : list index_obj := replicate (Z.to_nat n) Axis.

(** [if not isinstance(indices, tuple): indices = (indices,)] *)
Definition as_tuple (indices : user_indices) : list user_item :=
  match indices with Tuple items => items | Single i => [i] end.

Definition as_index_tuple (indices : user_indices) (rank : Z)
  : outcome (list index_obj) :=
  let indices := as_tuple indices in
  obind (as_index_tuple_loop indices [] [] false) (λ '(pre, post),
  Return (pre ++ axes (rank - Z.of_nat (length pre) - Z.of_nat (length post)) ++ post)).

Record MultiIndex := MkMultiIndex { _indices : list index_obj }.

(** [MultiIndex.__init__] *)
Definition MultiIndex_init (indices : user_indices) (rank : Z) : outcome MultiIndex :=
  obind (as_index_tuple indices rank) (λ t, Return (MkMultiIndex t)).

(** The argument of [extract_indices]: any object; inside a tuple, an entry
    is an [Index], a [FixedIndex], the [Axis] object, some other instance of
    [AxisType], or something else. *)
Inductive entry :=
  | Proper (i : index_obj)
  | OtherAxisInstance
  | Improper.

#[global] Instance entry_eq_dec : EqDecision entry.
Proof. solve_decision. Defined.

Inductive argument :=
  | ATuple (entries : list entry)
  | NotATuple.

Definition is_proper (e : entry) : bool :=
  match e with Proper _ | OtherAxisInstance => true | Improper => false end.

(** [index_count[i] += 1] for every [Index] of the tuple, on a
    [defaultdict(int)]. *)
Definition count_index (index_count : gmap Index nat) (e : entry) : gmap Index nat :=
  match e with
  | Proper (AnIndex i) => <[i := S (default 0%nat (index_count !! i))]> index_count
  | _ => index_count
  end.

(** How often an [Index] object occurs in an index tuple. *)
Definition occurrences (i : Index) (indices : list index_obj) : nat :=
  length (filter (λ x, x = AnIndex i) indices).

Definition too_many : string := "Too many index repetitions".

(** [enumerate(indices)] *)
Definition enumerate {A} (l : list A) : list (nat * A) := zip (seq 0 (length l)) l.

Definition extract_indices (indices : argument)
  : outcome (list (nat * FixedIndex) * list Index * list Index * nat) :=
  match indices with
  | NotATuple => Raise (UFLException "Expecting index tuple.")
  | ATuple indices =>
      obind (ufl_assert (forallb is_proper indices) "Expecting proper UFL objects.") (λ _,
      let fixed_indices :=
        omap (λ p, match p.2 with Proper (AFixedIndex f) => Some (p.1, f) | _ => None end)
             (enumerate indices) in
      let num_unassigned_indices :=
        length (filter (λ e, e = Proper Axis) indices) in
      let index_count := fold_left count_index indices ∅ in
      let unique_indices := (map_to_list index_count).*1 in
      obind (ufl_assert (forallb (λ p, (p.2 <=? 2)%nat) (map_to_list index_count)) too_many) (λ _,
      let free_indices :=
        filter (λ i, index_count !! i = Some 1%nat) unique_indices in
      let repeated_indices :=
        filter (λ i, index_count !! i = Some 2%nat) unique_indices in
      obind (ufl_assert
               (bool_decide (length fixed_indices + length free_indices
                             + 2 * length repeated_indices + num_unassigned_indices
                             = length indices)%nat)
               "Logic breach in extract_indices.") (λ _,
      Return (fixed_indices, free_indices, repeated_indices, num_unassigned_indices))))
  end.

(** [Index.__init__] on a new object of identity [id], threading the class
    attribute [Index._globalcount]. *)
Definition Index_init (id : nat) (name : option string) (count : option Z)
    (_globalcount : Z) : Index * Z :=
  match count with
  | None => (MkIndex id name _globalcount, _globalcount + 1)
  | Some count =>
      (MkIndex id name count,
       if count >=? _globalcount then count + 1 else _globalcount)
  end.

(** One construction after the other: the indices made, in order, and the
    counter afterwards. *)
Fixpoint Index_init_all (requests : list (nat * option string * option Z))
    (_globalcount : Z) : list Index * Z :=
  match requests with
  | [] => ([], _globalcount)
  | (id, name, count) :: rest =>
      let '(i, g) := Index_init id name count _globalcount in
      let '(made, g') := Index_init_all rest g in
      (i :: made, g')
  end.

End Indexing.

(** ** [ufl/tensors.py] *)

Module Tensors.
Import Indexing.

(** The two methods of [UFLObject] that the list literals call on their
    entries. *)
Class UFLObject (E : Type) := {
  rank : E → Z;
  free_indices : E → list Index
}.

(** A positional argument that is a list, or is not. *)
Inductive arg (A : Type) :=
  | IsList (items : list A)
  | NotList.
Arguments IsList {A} items.
Arguments NotList {A}.

Definition different_free_indices : string :=
  "Can't handle list of expressions with different free indices.".

(** [len(eset ^ set(e.free_indices())) == 0] *)
Definition same_free_indices `{UFLObject E} (eset : gset Index) (e : E) : bool :=
  let other : gset Index := list_to_set (free_indices e) in
  bool_decide (size ((eset ∖ other) ∪ (other ∖ eset)) = 0%nat).

Record ListVector (E : Type) := MkListVector {
  lv_free_indices : list Index;
  lv_expressions : list E
}.
Arguments MkListVector {E}.

(** [ListVector.__init__] *)
Definition ListVector_init `{UFLObject E} (expressions : arg E) : outcome (ListVector E) :=
  match expressions with
  | NotList => Raise (UFLException "Expecting list of expressions.")
  | IsList expressions =>
      obind (ufl_assert (forallb (λ e, bool_decide (rank e = 0)) expressions)
                        "Expecting scalar valued expressions.") (λ _,
      match expressions with
      | [] => Raise IndexError
      | first :: _ =>
          let eset : gset Index := list_to_set (free_indices first) in
          obind (ufl_assert (forallb (same_free_indices eset) expressions)
                            different_free_indices) (λ _,
          Return (MkListVector (elements eset) expressions))
      end)
  end.

Record ListMatrix (E : Type) := MkListMatrix {
  lm_free_indices : list Index;
  lm_expressions : list (list E)
}.
Arguments MkListMatrix {E}.

Definition is_list {A} (a : arg A) : bool :=
  match a with IsList _ => true | NotList => false end.

Definition items_of {A} (a : arg A) : list A :=
  match a with IsList l => l | NotList => [] end.

(** [ListMatrix.__init__] *)
Definition ListMatrix_init `{UFLObject E} (expressions : arg (arg E))
  : outcome (ListMatrix E) :=
  match expressions with
  | NotList => Raise (UFLException "Expecting list.")
  | IsList rows =>
      obind (ufl_assert (forallb is_list rows) "Expecting list of lists of expressions.") (λ _,
      let expressions := map items_of rows in
      match expressions with
      | [] => Raise IndexError
      | row0 :: _ =>
          let c := length row0 in
          obind (ufl_assert (forallb (λ row, bool_decide (length row = c)) expressions)
                            "Inconsistent row size.") (λ _,
          obind (ufl_assert (forallb (λ e, bool_decide (rank e = 0)) (concat expressions))
                            "Expecting scalar valued expressions.") (λ _,
          match row0 with
          | [] => Raise IndexError
          | first :: _ =>
              let eset : gset Index := list_to_set (free_indices first) in
              obind (ufl_assert (forallb (same_free_indices eset) (concat expressions))
                                different_free_indices) (λ _,
              Return (MkListMatrix (elements eset) expressions))
          end))
      end)
  end.

(** What [Tensor], [Vector] and [Matrix] are handed as [expressions]: an
    expression object, or something that is none (a list, say). *)
Inductive operand (E : Type) :=
  | Expression (e : E)
  | NotAnExpression.
Arguments Expression {E} e.
Arguments NotAnExpression {E}.

Record Tensor (E : Type) := MkTensor {
  t_expressions : E;
  t_indices : list user_item;
  t_free_indices : list Index
}.
Arguments MkTensor {E}.
Arguments t_expressions {E}.
Arguments t_indices {E}.
Arguments t_free_indices {E}.

Definition index_mismatch : string := "Index mismatch.".

(** The [Index] objects among the entries of a sequence. *)
Definition indices_of (indices : list user_item) : list Index :=
  omap (λ u, match u with UIndex i => Some i | _ => None end) indices.

(** [Tensor.__init__] *)
Definition Tensor_init `{UFLObject E} (expressions : operand E)
    (indices : list user_item) : outcome (Tensor E) :=
  match expressions with
  | NotAnExpression => Raise (UFLException "Expecting ufl expression.")
  | Expression expressions =>
      obind (ufl_assert (bool_decide (rank expressions = 0))
                        "Expecting scalar valued expressions.") (λ _,
      obind (ufl_assert (forallb (λ i, match i with UIndex _ => true | _ => false end)
                                 indices)
                        "Expecting Index instances in indices list.") (λ _,
      let eset : gset Index := list_to_set (free_indices expressions) in
      let iset : gset Index := list_to_set (indices_of indices) in
      obind (ufl_assert (bool_decide (size (iset ∖ eset) = 0%nat)) index_mismatch) (λ _,
      Return (MkTensor expressions indices (elements (eset ∖ iset))))))
  end.

(** [Tensor.rank] *)
Definition Tensor_rank {E} (t : Tensor E) : nat := length (t_indices t).

(** The objects [Vector] and [Matrix] return. *)
Inductive tensor_value (E : Type) :=
  | AListVector (v : ListVector E)
  | AListMatrix (m : ListMatrix E)
  | ATensor (t : Tensor E).
Arguments AListVector {E} v.
Arguments AListMatrix {E} m.
Arguments ATensor {E} t.

(** The first argument of [Vector] and [Matrix]: a list (of the entries
    [A]), an expression, or something else. *)
Inductive given (E A : Type) :=
  | GivenList (items : list A)
  | GivenExpression (e : E)
  | GivenOther.
Arguments GivenList {E A} items.
Arguments GivenExpression {E A} e.
Arguments GivenOther {E A}.

Definition as_list {E A} (g : given E A) : arg A :=
  match g with GivenList items => IsList items | _ => NotList end.

Definition as_operand {E A} (g : given E A) : operand E :=
  match g with GivenExpression e => Expression e | _ => NotAnExpression end.

(** [Vector(expressions, index=None)] *)
Definition Vector `{UFLObject E} (expressions : given E E) (index : option user_item)
  : outcome (tensor_value E) :=
  match index with
  | None => obind (ListVector_init (as_list expressions)) (λ v, Return (AListVector v))
  | Some index => obind (Tensor_init (as_operand expressions) [index]) (λ t, Return (ATensor t))
  end.

(** [Matrix(expressions, indices=None)] *)
Definition Matrix `{UFLObject E} (expressions : given E (arg E))
    (indices : option (list user_item)) : outcome (tensor_value E) :=
  match indices with
  | None => obind (ListMatrix_init (as_list expressions)) (λ m, Return (AListMatrix m))
  | Some indices => obind (Tensor_init (as_operand expressions) indices) (λ t, Return (ATensor t))
  end.

(** [rank()] of what [Vector] and [Matrix] return. *)
Definition value_rank {E} (v : tensor_value E) : nat :=
  match v with
  | AListVector _ => 1
  | AListMatrix _ => 2
  | ATensor t => Tensor_rank t
  end.

(** [free_indices()] of what [Vector] and [Matrix] return. *)
Definition value_free_indices {E} (v : tensor_value E) : list Index :=
  match v with
  | AListVector v => lv_free_indices E v
  | AListMatrix m => lm_free_indices E m
  | ATensor t => t_free_indices t
  end.

(** The free-index sets of the entries of a list literal disagree. *)
Definition inconsistent_free_indices `{UFLObject E} (entries : list E) : Prop :=
  ∃ e1 e2, e1 ∈ entries ∧ e2 ∈ entries ∧
    (list_to_set (free_indices e1) : gset Index) ≠ list_to_set (free_indices e2).

(** Expressions reduced to what the list literals observe of them: the
    rank and the tuple of free indices. *)
Definition observed : Type := Z * list Index.

Definition observed_object : UFLObject observed :=
  {| rank := fst; free_indices := snd |}.

(** Two index objects. *)
Definition i0 : Index := MkIndex 0 None 0.
Definition i1 : Index := MkIndex 1 None 1.

End Tensors.

(** ** [ufl/algorithms/compute_form_data.py] *)

Module ComputeFormData.

(** Python 2's [max] of two values that may be [None]: [None] is below
    every integer. *)
Definition max2 (a b : option Z) : option Z :=
  match a, b with
  | None, _ => b
  | _, None => a
  | Some x, Some y => Some (Z.max x y)
  end.

(** [max] of a non-empty list. *)
Definition py_max (first : option Z) (rest : list (option Z)) : option Z :=
  fold_left max2 rest first.

(** [sorted(xs, key=key)]: a stable sort. *)
Fixpoint insert_by {A} (key : A → Z) (x : A) (l : list A) : list A :=
  match l with
  | [] => [x]
  | y :: l' => if key x <=? key y then x :: l else y :: insert_by key x l'
  end.

Definition sorted {A} (key : A → Z) (xs : list A) : list A :=
  foldr (insert_by key) [] xs.

(** The order [sorted] arranges a list in. *)
Definition key_le {A} (key : A → Z) (a b : A) : Prop := key a ≤ key b.

(** Iterating over a Python [set] visits every member once, in an order
    the language does not specify. *)
Class SetOrder (A : Type) `{Countable A} := {
  iterate : gset A → list A;
  iterate_elements : ∀ X, iterate X ≡ₚ elements X
}.

(** The methods of an element object used here. *)
Class FiniteElementBase (Element Domain : Type) := {
  family : Element → option string;
  domain : Element → option Domain;
  degree : Element → option Z;
  reconstruct : Element → Domain → Z → Element
}.

Definition missing_domain : string :=
  "Cannot replace unknown element domain without unique common domain in form.".

Section Pipeline.
Context {Element Domain Expr Argument Coefficient Class ReplaceMap : Type}.
Context `{Countable Element} `{Countable Coefficient}.
Context `{!FiniteElementBase Element Domain}.

Definition _auto_select_degree (elements : list Element) : Z :=
  let degrees := map degree elements in
  let common_degree :=
    match degrees with
    | [] => py_max None []
    | d :: ds => py_max d ds
    end in
  let common_degree :=
    match common_degree with None => 1 | Some d => d end in
  Z.max 1 common_degree.

Record Integral := MkIntegral { integrand : Expr }.

Record Form := MkForm {
  integrals : list Integral;
  arguments : list Argument;
  coefficients : list Coefficient;
  domains : list Domain
}.

Record IntegralData := MkIntegralData {
  integral_type : string;
  subdomain_id : string + Z;
  itg_integrals : list Integral;
  integral_coefficients : gset Coefficient;
  enabled_coefficients : list bool
}.

(** The functions and methods imported from the rest of the library. *)
Class Collaborators := {
  arg_element : Argument → Element;
  coef_element : Coefficient → Element;
  count : Coefficient → Z;
  geometric_dimension : Domain → Z;
  extract_sub_elements : list Element → list Element;
  extract_coefficients : Expr → list Coefficient;
  extract_classes : Expr → list Class;
  is_GeometricFacetQuantity : Class → bool;
  unique_tuple : list Element → list Element;
  expand_derivatives : Form → Form;
  propagate_restrictions : Form → Form;
  build_integral_data : list Integral → list Domain → list IntegralData;
  build_coefficient_replace_map :
    list Coefficient → gmap Element Element → list Coefficient * ReplaceMap;
  reconstruct_form_from_integral_data : list IntegralData → Form;
  compute_form_arities : Form → list (list nat)
}.

Context `{!Collaborators} `{!SetOrder Coefficient}.

(** The elements of the form's arguments and coefficients, sub-elements
    included. *)
Definition form_elements (form : Form) : list Element :=
  extract_sub_elements (map arg_element (arguments form) ++ map coef_element (coefficients form)).

(** The body of the loop of [_compute_element_mapping]. *)
Definition map_element (form : Form) (common_degree : Z) (element : Element)
  : outcome Element :=
  obind (match domain element with
         | Some d => Return (d, false)
         | None =>
             match domains form with
             | [d] => Return (d, true)
             | _ => Raise (UFLException missing_domain)
             end
         end) (λ '(dom, reconstruct_it),
  let '(deg, reconstruct_it) :=
    match degree element with
    | Some d => (d, reconstruct_it)
    | None => (common_degree, true)
    end in
  Return (if reconstruct_it then reconstruct element dom deg else element)).

Fixpoint element_mapping_loop (form : Form) (common_degree : Z)
    (elements : list Element) (element_mapping : gmap Element Element)
  : outcome (gmap Element Element) :=
  match elements with
  | [] => Return element_mapping
  | element :: rest =>
      obind (map_element form common_degree element) (λ new,
      element_mapping_loop form common_degree rest (<[element := new]> element_mapping))
  end.

Definition _compute_element_mapping (form : Form) : outcome (gmap Element Element) :=
  let elements := form_elements form in
  let common_degree := _auto_select_degree elements in
  element_mapping_loop form common_degree elements ∅.

Definition _compute_num_sub_domains (integral_data : list IntegralData) : gmap string Z :=
  fold_left
    (λ num_sub_domains itg_data,
       let it := integral_type itg_data in
       let new := match subdomain_id itg_data with
                  | inl _ => 0
                  | inr si => si + 1
                  end in
       let prev := num_sub_domains !! it in
       <[it := match prev with None => new | Some p => Z.max p new end]> num_sub_domains)
    integral_data ∅.

Record FormData := MkFormData {
  original_form : Form;
  rank : nat;
  fd_geometric_dimension : Z;
  element_replace_map : gmap Element Element;
  integral_data : list IntegralData;
  reduced_coefficients : list Coefficient;
  num_coefficients : nat;
  original_coefficient_positions : list nat;
  function_replace_map : ReplaceMap;
  argument_elements : list Element;
  coefficient_elements : list Element;
  fd_elements : list Element;
  unique_elements : list Element;
  sub_elements : list Element;
  unique_sub_elements : list Element;
  num_sub_domains : gmap string Z;
  preprocessed_form : Form
}.

Definition _check_elements (unique_elements unique_sub_elements : list Element)
  : outcome unit :=
  if forallb (λ e, bool_decide (is_Some (domain e))) (unique_elements ++ unique_sub_elements)
  then if forallb (λ e, bool_decide (is_Some (family e))) (unique_elements ++ unique_sub_elements)
       then Return tt
       else Raise (UFLException "Found element with undefined familty")
  else Raise (UFLException "Found element with undefined domain").

Definition contains_facet (it : string) : bool :=
  match String.index 0 "facet" it with Some _ => true | None => false end.

Definition _check_facet_geometry (integral_data : list IntegralData) : outcome unit :=
  if forallb (λ itg_data,
        forallb (λ itg,
          contains_facet (integral_type itg_data)
          || forallb (λ c, negb (is_GeometricFacetQuantity c)) (extract_classes (integrand itg)))
        (itg_integrals itg_data)) integral_data
  then Return tt
  else Raise (UFLException "Integral of this type cannot contain a facet quantity.").

Definition _check_form_arity (preprocessed_form : Form) : outcome unit :=
  ufl_assert (bool_decide (length (compute_form_arities preprocessed_form) = 1%nat))
             "All terms in form must have same rank.".

(** The coefficients referenced by the integrals of one group. *)
Definition group_coefficients (itg_data : IntegralData) : gset Coefficient :=
  fold_left (λ itg_coeffs itg, itg_coeffs ∪ list_to_set (extract_coefficients (integrand itg)))
            (itg_integrals itg_data) ∅.

Definition set_integral_coefficients (itg_data : IntegralData) : IntegralData :=
  MkIntegralData (integral_type itg_data) (subdomain_id itg_data) (itg_integrals itg_data)
                 (group_coefficients itg_data) (enabled_coefficients itg_data).

Definition set_enabled_coefficients (reduced : list Coefficient) (itg_data : IntegralData)
  : IntegralData :=
  MkIntegralData (integral_type itg_data) (subdomain_id itg_data) (itg_integrals itg_data)
                 (integral_coefficients itg_data)
                 (map (λ coeff, bool_decide (coeff ∈ integral_coefficients itg_data)) reduced).

(** The coefficients of the original form that some integral uses:
    the union over the groups, sorted by [count()]. *)
Definition reduce_coefficients (integral_data : list IntegralData) : list Coefficient :=
  let reduced_coefficients_set :=
    fold_left (λ acc itg_data, acc ∪ integral_coefficients itg_data) integral_data ∅ in
  sorted count (iterate reduced_coefficients_set).

Definition compute_form_data (form : Form) : outcome FormData :=
  let rank := length (arguments form) in
  let gdims : gset Z := list_to_set (map geometric_dimension (domains form)) in
  match elements gdims with
  | [gdim] =>
      obind (_compute_element_mapping form) (λ element_replace_map,
      let preprocessed_form := expand_derivatives form in
      let preprocessed_form := propagate_restrictions preprocessed_form in
      let integral_data := build_integral_data (integrals preprocessed_form) (domains form) in
      let integral_data := map set_integral_coefficients integral_data in
      let reduced_coefficients := reduce_coefficients integral_data in
      let num_coefficients := length reduced_coefficients in
      let original_coefficient_positions :=
        omap (λ p, if bool_decide (p.2 ∈ reduced_coefficients) then Some p.1 else None)
             (Indexing.enumerate (coefficients form)) in
      let integral_data := map (set_enabled_coefficients reduced_coefficients) integral_data in
      let '(renumbered_coefficients, function_replace_map) :=
        build_coefficient_replace_map reduced_coefficients element_replace_map in
      let argument_elements := map arg_element (arguments form) in
      let coefficient_elements := map coef_element renumbered_coefficients in
      let all_elements := argument_elements ++ coefficient_elements in
      let unique_elements := unique_tuple all_elements in
      let sub_elements := extract_sub_elements all_elements in
      let unique_sub_elements := unique_tuple sub_elements in
      let num_sub_domains := _compute_num_sub_domains integral_data in
      obind (_check_elements unique_elements unique_sub_elements) (λ _,
      obind (_check_facet_geometry integral_data) (λ _,
      let preprocessed_form := reconstruct_form_from_integral_data integral_data in
      obind (_check_form_arity preprocessed_form) (λ _,
      Return (MkFormData form rank gdim element_replace_map integral_data
                reduced_coefficients num_coefficients original_coefficient_positions
                function_replace_map argument_elements coefficient_elements all_elements
                unique_elements sub_elements unique_sub_elements num_sub_domains
                preprocessed_form)))))
  | _ => Raise (UFLException "Expecting all integrals in a form to share geometric dimension.")
  end.

(** The subdomain ids of the groups of one integral type, in order. *)
Definition subdomain_ids (it : string) (integral_data : list IntegralData)
  : list (string + Z) :=
  map subdomain_id (filter (λ itg_data, integral_type itg_data = it) integral_data).

(** A coefficient occurs in the integrand of some integral of some group. *)
Definition referenced (integral_data : list IntegralData) (c : Coefficient) : Prop :=
  ∃ itg_data itg, itg_data ∈ integral_data ∧ itg ∈ itg_integrals itg_data ∧
                  c ∈ extract_coefficients (integrand itg).

(** The integral groups at the point where the coefficients are reduced. *)
Definition grouped_integrals (form : Form) : list IntegralData :=
  map set_integral_coefficients
      (build_integral_data (integrals (propagate_restrictions (expand_derivatives form)))
                           (domains form)).

End Pipeline.

End ComputeFormData.

(** Concrete forms to run the pipeline on.  A domain is a number, an
    element a pair of an optional domain and an optional degree, a
    coefficient a pair of its count and a name; an integrand is represented
    by the integral type and subdomain id of its integral and the
    coefficients it mentions.  Derivative expansion and restriction
    propagation leave such forms as they are, and every integral makes a
    group of its own. *)
Module FormWorld.
Import ComputeFormData.

Definition Domain : Type := nat.
Definition Element : Type := option Domain * option Z.
Definition Coefficient : Type := Z * string.
Definition Expr : Type := string * (string + Z) * list Coefficient.

#[global] Instance element_base : FiniteElementBase Element Domain :=
  {| family := λ _, Some "Lagrange";
     domain := fst;
     degree := snd;
     reconstruct := λ _ d n, (Some d, Some n) |}.

Definition group_of (itg : @Integral Expr) : @IntegralData Expr Coefficient _ _ :=
  MkIntegralData (integrand itg).1.1 (integrand itg).1.2 [itg] ∅ [].

#[global] Instance collaborators
  : @Collaborators Element Domain Expr Element Coefficient bool unit _ _ _ _ :=
  {| arg_element := id;
     coef_element := λ _, (Some 0%nat, Some 1);
     count := fst;
     geometric_dimension := λ _, 2;
     extract_sub_elements := id;
     extract_coefficients := snd;
     extract_classes := λ _, [];
     is_GeometricFacetQuantity := id;
     unique_tuple := id;
     expand_derivatives := id;
     propagate_restrictions := id;
     build_integral_data := λ itgs _, map group_of itgs;
     build_coefficient_replace_map := λ cs _, (cs, tt);
     reconstruct_form_from_integral_data :=
       λ data, MkForm (concat (map itg_integrals data)) [] [] [];
     compute_form_arities := λ _, [[]] |}.

(** Two ways of iterating over a set of coefficients. *)
Definition ascending : SetOrder Coefficient :=
  {| iterate := elements;
     iterate_elements := λ X, Permutation_refl (elements X) |}.

Definition descending : SetOrder Coefficient :=
  {| iterate := λ X, reverse (elements X);
     iterate_elements := λ X, reverse_Permutation (elements X) |}.

Definition form_of (arguments : list Element) (domains : list Domain)
  : @Form Domain Expr Element Coefficient :=
  MkForm [] arguments [] domains.

(** An argument whose element has neither domain nor degree, next to a
    cubic one, on one domain. *)
Definition incomplete_form := form_of [(None, None); (Some 0%nat, Some 3)] [0%nat].

(** Two domains, every element complete. *)
Definition two_domains_complete :=
  form_of [(Some 0%nat, Some 1); (Some 1%nat, Some 2)] [0%nat; 1%nat].

(** Two domains, one element without domain. *)
Definition two_domains_incomplete :=
  form_of [(Some 0%nat, Some 1); (None, Some 2)] [0%nat; 1%nat].

Definition f : Coefficient := (0, "f").
Definition g : Coefficient := (1, "g").
Definition k : Coefficient := (2, "k").

(** Three integrals: a cell integral mentioning [k] and [f], exterior facet
    integrals over subdomains 3 and 1 mentioning [g] and [k]. *)
Definition the_integrals : list (@Integral Expr) :=
  [ MkIntegral ("cell", inl "otherwise", [k; f]);
    MkIntegral ("exterior_facet", inr 3, [g]);
    MkIntegral ("exterior_facet", inr 1, [k]) ].

Definition groups : list (@IntegralData Expr Coefficient _ _) :=
  map group_of the_integrals.

(** A form with these integrals whose coefficients are [f], [g] and a
    further [h] no integrand mentions. *)
Definition h : Coefficient := (3, "h").

Definition the_form : @Form Domain Expr Element Coefficient :=
  MkForm the_integrals [(Some 0%nat, Some 1)] [f; g; h; k] [0%nat].

End FormWorld.

(** ** Further example data and notions *)

(** Further class objects to run the decorator on: a class whose body
    defines no [__slots__], and the registry as a registration that stopped
    at the [is_terminal] check leaves it. *)
Module Sloppy.
Import UflType World.

Definition NoSlots : cid := 9%nat.

Definition classes : gmap cid pyclass :=
  <[NoSlots := PyClass "NoSlots" [Terminal; Expr; object] ∅]> World.classes.

Definition start : state := initial classes [] [].

(** [@ufl_type()] on [Terminal], which names no [is_terminal] and inherits
    none. *)
Definition half_registered : state := (run default_traits Terminal World.start).1.

End Sloppy.

(** A class gives no value for an attribute: it lacks it, or has it set to
    [None]. *)
Definition no_value (h : gmap cid pyclass) (name : string) (base : cid) : Prop :=
  getattr h base name = None ∨ getattr h base name = Some VNone.

(** The index objects among the entries of the argument of
    [extract_indices]. *)
Definition index_objects (entries : list Indexing.entry) : list Indexing.index_obj :=
  omap (λ e, match e with Indexing.Proper i => Some i | _ => None end) entries.

(** [isinstance(e, Index)] and [isinstance(e, FixedIndex)] on an entry. *)
Definition is_Index (e : Indexing.entry) : bool :=
  match e with Indexing.Proper (Indexing.AnIndex _) => true | _ => false end.

Definition is_FixedIndex (e : Indexing.entry) : bool :=
  match e with Indexing.Proper (Indexing.AFixedIndex _) => true | _ => false end.

(** The sum of the counts of an index dictionary's items. *)
Definition total (l : list (Indexing.Index * nat)) : nat := sum_list (l.*2).

(** * Properties *)

(** ** The registry *)

Section RegistryFacts.
Import UflType.
Context `{Common}.

(** *** Attribute access on class objects *)

Lemma mro_setattr h c name v c' : mro (setattr h c name v) c' = mro h c'.
Proof.
  unfold mro, setattr, class_of. destruct (decide (c = c')) as [->|Hne].
  - by rewrite lookup_insert_eq.
  - by rewrite lookup_insert_ne.
Qed.

Lemma name_setattr h c name v c' :
  __name__ (class_of (setattr h c name v) c') = __name__ (class_of h c').
Proof.
  unfold setattr, class_of. destruct (decide (c = c')) as [->|Hne].
  - by rewrite lookup_insert_eq.
  - by rewrite lookup_insert_ne.
Qed.

Lemma dict_setattr h c name v c' name' :
  __dict__ (class_of (setattr h c name v) c') !! name' =
  if decide (c = c' ∧ name = name') then Some v else __dict__ (class_of h c') !! name'.
Proof.
  unfold setattr, class_of. destruct (decide (c = c')) as [->|Hne].
  - rewrite lookup_insert_eq. simpl. destruct (decide (name = name')) as [->|Hn].
    + rewrite lookup_insert_eq. by rewrite decide_True.
    + rewrite lookup_insert_ne by done. rewrite decide_False; [done | intros [? ?]; congruence].
  - rewrite lookup_insert_ne by done. rewrite decide_False; [done | intros [? ?]; congruence].
Qed.

Lemma getattr_setattr_eq h c name v : getattr (setattr h c name v) c name = Some v.
Proof.
  unfold getattr. rewrite mro_setattr. unfold mro. simpl.
  rewrite dict_setattr. by rewrite decide_True.
Qed.

Lemma lookup_along_setattr_ne h c name v name' cs :
  name ≠ name' → lookup_along (setattr h c name v) name' cs = lookup_along h name' cs.
Proof.
  intros Hne. induction cs as [|b cs IH]; [done|]. simpl.
  rewrite dict_setattr. rewrite decide_False by (intros [? ?]; congruence). by rewrite IH.
Qed.

Lemma getattr_setattr_ne h c name v c' name' :
  name ≠ name' → getattr (setattr h c name v) c' name' = getattr h c' name'.
Proof.
  intros Hne. unfold getattr. rewrite mro_setattr. by apply lookup_along_setattr_ne.
Qed.

(** *** A weakest-precondition reading of the decorator's monad *)

Lemma wp_modify {B} f (k : unit → M B) s Q :
  wp (k tt) (f s) Q → wp (bind (modify f) k) s Q.
Proof. done. Qed.

Lemma wp_gets {A B} (f : state → A) (k : A → M B) s Q :
  wp (k (f s)) s Q → wp (bind (gets f) k) s Q.
Proof. done. Qed.

Lemma wp_lift {A B} (o : outcome A) (k : A → M B) s Q :
  match o with Return a => wp (k a) s Q | Raise e => Q s (Raise e) end →
  wp (bind (lift o) k) s Q.
Proof. unfold wp, bind, lift. by destruct o. Qed.

Lemma wp_raise {A B} e (k : A → M B) s Q :
  Q s (Raise e) → wp (bind (raise e) k) s Q.
Proof. done. Qed.

Lemma wp_ret_bind {A B} (a : A) (k : A → M B) s Q :
  wp (k a) s Q → wp (bind (ret a) k) s Q.
Proof. done. Qed.

Lemma wp_assert {B} (b : bool) (k : unit → M B) s Q :
  (if b then wp (k tt) s Q else Q s (Raise AssertionError)) →
  wp (bind (py_assert b) k) s Q.
Proof. unfold wp, bind, py_assert. by destruct b. Qed.

Lemma wp_ret {A} (a : A) s Q : Q s (Return a) → wp (ret a) s Q.
Proof. done. Qed.

Ltac norm_state :=
  cbv beta delta [with_heap];
  cbn beta iota delta [heap _ufl_all_classes_ _ufl_all_handler_names_
    _ufl_num_typecodes_ _ufl_language_operators_ _ufl_obj_init_counts_
    _ufl_obj_del_counts_ _ufl_required_methods_ _ufl_required_properties_ id].

Ltac wp_update := apply wp_modify; norm_state.
Ltac wp_read := apply wp_gets; norm_state.

Lemma decorator_effect_holds t cls s :
  wp (_ufl_type_decorator_ t cls) s (decorator_effect t cls s).
Proof.
  destruct s as [h cl hn n lo ic dc rm rp].
  unfold _ufl_type_decorator_.
  wp_update. wp_read. apply wp_lift.
  destruct (check_bases _ _); [|by left].
  apply wp_lift. destruct (check_slots _ _); [|by left].
  do 3 wp_update. cbv zeta.
  do 2 wp_update. wp_read. do 2 wp_update. wp_read.
  assert (Hassigned : ∀ h' lo' ic' dc',
    getattr h' cls "_ufl_typecode_" = Some (VInt (Z.of_nat n)) →
    typecode_assigned cls (State h cl hn n lo ic dc rm rp)
      (State h' (cl ++ [cls])
         ({[camel2underscore (__name__ (class_of
             (setattr h cls "_ufl_is_abstract_" (VBool (is_abstract t))) cls))]} ∪ hn)
         (S n) lo' ic' dc' rm rp)).
  { intros h' lo' ic' dc' Hh'. unfold typecode_assigned, handler_name_of. simpl.
    by rewrite name_setattr. }
  match goal with |- wp (bind (if ?c then _ else _) _) _ _ => destruct c end.
  { apply wp_raise. right; left. split_and!; [|done..].
    apply Hassigned, getattr_setattr_eq. }
  apply wp_ret_bind. wp_update. wp_read.
  match goal with |- wp (bind (set_attr _ _ ?v) _) _ _ => generalize v; intros ops end.
  wp_update. wp_read.
  match goal with |- wp (bind (if ?c then set_language_operator ?k ?f else _) _) _ _ =>
    generalize c k f; intros has_function key fn
  end.
  match goal with |- wp _ (State ?h _ _ _ _ _ _ _ _) _ => set (h7 := h) end.
  assert (Htc : getattr h7 cls "_ufl_typecode_" = Some (VInt (Z.of_nat n))).
  { subst h7. repeat (rewrite getattr_setattr_ne by done). apply getattr_setattr_eq. }
  assert (Hterm : getattr h7 cls "_ufl_is_terminal_"
                  = Some (of_option_bool (is_terminal t))).
  { subst h7. rewrite getattr_setattr_ne by done. apply getattr_setattr_eq. }
  clearbody h7.
  assert (Hfinal : ∀ lo' o s',
    s' = State h7 (cl ++ [cls])
           ({[camel2underscore (__name__ (class_of
             (setattr h cls "_ufl_is_abstract_" (VBool (is_abstract t))) cls))]} ∪ hn)
           (S n) lo' (ic ++ [0]) (dc ++ [0]) rm rp →
    (o = Return cls ∧ counts_agree s') ∨
    (o = Raise AssertionError ∧ ¬ counts_agree s') ∨
    (∃ msg, o = Raise (TypeError msg) ∧ counts_agree s') →
    decorator_effect t cls (State h cl hn n lo ic dc rm rp) s' o).
  { intros lo' o s' -> Ho. right; right. split_and!; [by apply Hassigned|done..]. }
  assert (Hrest : ∀ lo',
    wp (bind append_obj_counts (λ _,
      let* s := gets id in
      do py_assert (bool_decide (_ufl_num_typecodes_ s = size (_ufl_all_handler_names_ s))) then
      do py_assert (bool_decide (_ufl_num_typecodes_ s = length (_ufl_all_classes_ s))) then
      do py_assert (bool_decide (_ufl_num_typecodes_ s = length (_ufl_obj_init_counts_ s))) then
      do py_assert (bool_decide (_ufl_num_typecodes_ s = length (_ufl_obj_del_counts_ s))) then
      do (if negb (is_abstract t) && is_None (attr s cls "_ufl_num_ops_")
          then raise (TypeError "Class has not specified num_ops.")
          else ret tt) then
      do (if truthy (attr s cls "_ufl_is_terminal_") && ne_zero (attr s cls "_ufl_num_ops_")
          then raise (TypeError "Class has num_ops > 0 but is terminal.")
          else ret tt) then
      ret cls))
      (State h7 (cl ++ [cls])
           ({[camel2underscore (__name__ (class_of
             (setattr h cls "_ufl_is_abstract_" (VBool (is_abstract t))) cls))]} ∪ hn)
           (S n) lo' ic dc rm rp)
      (decorator_effect t cls (State h cl hn n lo ic dc rm rp))).
  { intros lo'. wp_update. wp_read.
    do 4 (apply wp_assert; case_bool_decide;
      [|eapply Hfinal; [done|]; right; left; split; [done|];
        unfold counts_agree; simpl; tauto]).
    do 2 (match goal with |- wp (bind (if ?c then _ else _) _) _ _ => destruct c end;
      [apply wp_raise; eapply Hfinal; [done|]; right; right; eexists; split; [done|];
       by unfold counts_agree
      |apply wp_ret_bind]).
    apply wp_ret. eapply Hfinal; [done|]. left. split; [done|]. by unfold counts_agree. }
  destruct has_function.
  - wp_update. apply Hrest.
  - apply wp_ret_bind. apply Hrest.
Qed.

(** The effect of [ufl_type(...)(cls)] on a state. *)
Lemma ufl_type_effect t cls s :
  decorator_effect t cls s (ufl_type t cls s).1 (ufl_type t cls s).2.
Proof. apply decorator_effect_holds. Qed.

Lemma not_return_raises {A} (o : outcome A) : is_return o = false → ∃ e, o = Raise e.
Proof. destruct o; [done | by eexists]. Qed.

(** Typecodes and recorded classes stay in step, whatever happens. *)
Lemma effect_preserves_dense t cls s s' o :
  decorator_effect t cls s s' o →
  _ufl_num_typecodes_ s = length (_ufl_all_classes_ s) →
  _ufl_num_typecodes_ s' = length (_ufl_all_classes_ s').
Proof.
  intros [[(Hc & _ & Hn & _) _] | [[(Hc & _ & Hn & _) _] | [(Hc & _ & Hn & _) _]]] Hs;
    rewrite Hc, Hn, ?length_app; simpl; lia.
Qed.

Lemma effect_return t cls s s' o :
  decorator_effect t cls s s' o → is_return o = true →
  o = Return cls ∧ typecode_assigned cls s s' ∧ counts_agree s'.
Proof.
  intros [[_ Ho] | [(_ & _ & Ho) | (Ha & _ & _ & Ho)]] Hr; [congruence..|].
  destruct Ho as [[-> Hc] | [[-> _] | (msg & -> & _)]]; done.
Qed.

Lemma effect_cases t cls s s' o :
  decorator_effect t cls s s' o →
  (registry_untouched s s' ∧ is_return o = false) ∨ typecode_assigned cls s s'.
Proof. intros [? | [(? & _) | (? & _)]]; auto. Qed.

Lemma register_all_trace decls : ∀ s i st,
  _ufl_num_typecodes_ s = length (_ufl_all_classes_ s) →
  register_all decls s !! i = Some st →
  _ufl_num_typecodes_ (before st) = length (_ufl_all_classes_ (before st)) ∧
  decorator_effect (decl st).1 (decl st).2 (before st) (after st) (result st) ∧
  ((∀ j st', (j < i)%nat → register_all decls s !! j = Some st' →
             is_return (result st') = true) →
   _ufl_num_typecodes_ (before st) = (_ufl_num_typecodes_ s + i)%nat).
Proof.
  induction decls as [|[t cls] decls IH]; intros s i st Hs Hi; [done|].
  destruct i as [|i]; simpl in Hi.
  - injection Hi as <-. simpl. split_and!; [done | apply ufl_type_effect | lia].
  - pose proof (ufl_type_effect t cls s) as He.
    destruct (IH _ _ _ (effect_preserves_dense _ _ _ _ _ He Hs) Hi) as (H1 & H2 & H3).
    split_and!; [done..|]. intros Hall.
    rewrite H3.
    + assert (Hr : is_return (ufl_type t cls s).2 = true)
        by (apply (Hall 0%nat (Step s (t, cls) (ufl_type t cls s).1 (ufl_type t cls s).2));
            [lia | done]).
      destruct (effect_return _ _ _ _ _ He Hr) as (_ & (_ & _ & -> & _) & _). lia.
    + intros j st' Hj Hst'. apply (Hall (S j)); [lia | done].
Qed.

(** Handler names never outnumber typecodes. *)
Lemma reachable_names_bounded s :
  reachable s → (size (_ufl_all_handler_names_ s) ≤ _ufl_num_typecodes_ s)%nat.
Proof.
  induction 1 as [h rm rp | s t cls Hs IH | s f Hs IH]; simpl; [done | | done].
  destruct (effect_cases _ _ _ _ _ (ufl_type_effect t cls s))
    as [[(_ & -> & -> & _) _] | (_ & -> & -> & _)]; [done|].
  rewrite size_union_alt, size_singleton.
  match goal with |- (1 + size (?Y ∖ ?X) ≤ _)%nat =>
    assert (Hsub : Y ∖ X ⊆ Y) by (by intros x [? _]%elem_of_difference);
    apply subseteq_size in Hsub end.
  lia.
Qed.

Lemma get_base_attr_loop_setattr_ne h c name v name' bases :
  name ≠ name' →
  get_base_attr_loop (setattr h c name v) name' bases = get_base_attr_loop h name' bases.
Proof.
  intros Hne. induction bases as [|b bases IH]; [done|]. simpl.
  rewrite getattr_setattr_ne by done. by rewrite IH.
Qed.

Lemma get_base_attr_setattr_ne h c name v cls name' :
  name ≠ name' →
  get_base_attr (setattr h c name v) cls name' = get_base_attr h cls name'.
Proof.
  intros Hne. unfold get_base_attr. rewrite mro_setattr.
  by apply get_base_attr_loop_setattr_ne.
Qed.

(** X1.  Once the checks on the base classes and on [__slots__] have passed, the
    decorator raises the "has not specified the is_terminal trait" error
    exactly when [is_terminal] is not given and no class of the MRO has a
    [_ufl_is_terminal_] other than [None]. *)
Lemma terminal_unspecified_exactly t cls s :
  check_bases (setattr (heap s) cls "_ufl_is_abstract_" (VBool (is_abstract t)))
              (mro (heap s) cls) = Return tt →
  check_slots (setattr (heap s) cls "_ufl_is_abstract_" (VBool (is_abstract t))) cls
    = Return tt →
  (ufl_type t cls s).2 = Raise (TypeError terminal_unspecified)
  ↔ is_terminal t = None ∧ get_base_attr (heap s) cls "_ufl_is_terminal_" = VNone.
Proof.
  intros Hbases Hslots.
  change ((ufl_type t cls s).2 = Raise (TypeError terminal_unspecified)
          ↔ is_terminal t = None ∧ get_base_attr (heap s) cls "_ufl_is_terminal_" = VNone)
    with (wp (_ufl_type_decorator_ t cls) s
            (λ _ o, o = Raise (TypeError terminal_unspecified)
                    ↔ is_terminal t = None
                      ∧ get_base_attr (heap s) cls "_ufl_is_terminal_" = VNone)).
  destruct s as [h cl hn n lo ic dc rm rp]. cbn [heap] in Hbases, Hslots |- *.
  unfold _ufl_type_decorator_.
  wp_update. wp_read. apply wp_lift. rewrite mro_setattr, Hbases.
  apply wp_lift. rewrite Hslots.
  do 3 wp_update. cbv zeta.
  do 2 wp_update. wp_read. do 2 wp_update. wp_read.
  repeat (rewrite get_base_attr_setattr_ne by done).
  destruct (is_terminal t) as [b|] eqn:Ht; simpl.
  2: destruct (get_base_attr h cls "_ufl_is_terminal_") eqn:Hg; simpl.
  2: { apply wp_raise. done. }
  all: apply wp_ret_bind; wp_update; wp_read.
  all: match goal with |- wp (bind (set_attr _ _ ?v) _) _ _ => generalize v; intros ops end.
  all: wp_update; wp_read.
  all: match goal with |- wp (bind (if ?c then set_language_operator ?k ?f else _) _) _ _ =>
      generalize c k f; intros has_function key fn end.
  all: destruct has_function; [wp_update | apply wp_ret_bind].
  all: wp_update; wp_read.
  all: apply wp_assert; case_bool_decide; [|split; [done | by intros [? ?]]].
  all: apply wp_assert; case_bool_decide; [|split; [done | by intros [? ?]]].
  all: apply wp_assert; case_bool_decide; [|split; [done | by intros [? ?]]].
  all: apply wp_assert; case_bool_decide; [|split; [done | by intros [? ?]]].
  all: match goal with |- wp (bind (if ?c then _ else _) _) _ _ => destruct c end;
    [apply wp_raise; split; [done | by intros [? ?]] | apply wp_ret_bind].
  all: match goal with |- wp (bind (if ?c then _ else _) _) _ _ => destruct c end;
    [apply wp_raise; split; [done | by intros [? ?]] | apply wp_ret_bind].
  all: apply wp_ret; split; [done | by intros [? ?]].
Qed.
End RegistryFacts.

Section RegistryTheorems.
Import UflType.
Context `{Common}.

(** C7.  In every sequence of registrations started from the empty
    registry, a registration either stops at a structural check with the
    registry untouched, or records the class at the end of
    [_ufl_all_classes_] and gives it the next typecode, which is its index in
    that list; when the decorator returns, the numbers of typecodes, classes,
    handler names and instance-count slots are equal; and as long as every
    registration so far returned, the [i]-th one is given typecode [i]. *)
Theorem typecodes_consecutive_from_zero h rm rp decls i st :
  register_all decls (initial h rm rp) !! i = Some st →
  _ufl_num_typecodes_ (before st) = length (_ufl_all_classes_ (before st)) ∧
  ((registry_untouched (before st) (after st) ∧ is_return (result st) = false) ∨
   typecode_assigned (decl st).2 (before st) (after st)) ∧
  (is_return (result st) = true →
   result st = Return (decl st).2 ∧
   typecode_assigned (decl st).2 (before st) (after st) ∧
   counts_agree (after st)) ∧
  ((∀ j st', (j < i)%nat → register_all decls (initial h rm rp) !! j = Some st' →
             is_return (result st') = true) →
   _ufl_num_typecodes_ (before st) = i).
Proof.
  intros Hi.
  destruct (register_all_trace decls (initial h rm rp) i st eq_refl Hi) as (H1 & H2 & H3).
  split_and!; [done | by eapply effect_cases | by eapply effect_return |].
  intros Hall. by rewrite (H3 Hall).
Qed.

(** C3.  In a reachable state, registering a class whose derived handler
    name is already in [_ufl_all_handler_names_] raises; when the
    registration gets as far as appending the instance-count slots, what it
    raises is the [AssertionError] of the consistency check. *)
Theorem colliding_handler_name_fails s t cls :
  reachable s →
  handler_name_of s cls ∈ _ufl_all_handler_names_ s →
  ∃ e, (ufl_type t cls s).2 = Raise e ∧
       (counters_appended s (ufl_type t cls s).1 → e = AssertionError).
Proof.
  intros Hs Hin. pose proof (reachable_names_bounded s Hs) as Hle.
  assert (Hno : typecode_assigned cls s (ufl_type t cls s).1 →
                ¬ counts_agree (ufl_type t cls s).1).
  { intros (_ & Hn & Hc & _) (Ha & _). rewrite Hn, Hc in Ha.
    rewrite (subseteq_union_1_L {[handler_name_of s cls]}) in Ha
      by (by apply singleton_subseteq_l).
    lia. }
  assert (Hlen : ∀ l l' : list Z, l' = l → l' = l ++ [0] → False).
  { intros l l' -> Hl. apply (f_equal length) in Hl. rewrite length_app in Hl.
    simpl in Hl. lia. }
  destruct (ufl_type_effect t cls s)
    as [[(_ & _ & _ & Hi & _) Ho] | [(_ & [Hi _] & Ho) | (Ha & _ & _ & Ho)]].
  - destruct (not_return_raises _ Ho) as [e He]. exists e. split; [done|].
    intros [Hi' _]. destruct (Hlen _ _ Hi Hi').
  - destruct (not_return_raises _ Ho) as [e He]. exists e. split; [done|].
    intros [Hi' _]. destruct (Hlen _ _ Hi Hi').
  - destruct Ho as [[_ Hc] | [[-> _] | (msg & _ & Hc)]].
    + destruct (Hno Ha Hc).
    + by eexists.
    + destruct (Hno Ha Hc).
Qed.

(** C1 (what the code does).  When [is_terminal] is not given and the
    decorator returns, the class's own [_ufl_is_terminal_] is [None]: the
    value found among the base classes is not the one stored. *)
Theorem unset_is_terminal_stored_as_None s t cls :
  is_terminal t = None →
  is_return (ufl_type t cls s).2 = true →
  getattr (heap (ufl_type t cls s).1) cls "_ufl_is_terminal_" = Some VNone.
Proof.
  intros Ht Hr.
  destruct (ufl_type_effect t cls s) as [[_ Ho] | [(_ & _ & Ho) | (_ & _ & Hterm & _)]];
    [congruence.. |].
  by rewrite Hterm, Ht.
Qed.

Lemma ufl_type_ignores_is_scalar b t cls s :
  ufl_type (with_is_scalar b t) cls s = ufl_type t cls s.
Proof. reflexivity. Qed.

End RegistryTheorems.

Section RegistryExamples.
Import UflType World.

Lemma typecodes_consecutive_from_zero_witness :
  _ufl_num_typecodes_ (before second_step) = length (_ufl_all_classes_ (before second_step)) ∧
  ((registry_untouched (before second_step) (after second_step)
    ∧ is_return (result second_step) = false) ∨
   @typecode_assigned CommonModel.common (decl second_step).2
     (before second_step) (after second_step)) ∧
  (is_return (result second_step) = true →
   result second_step = Return (decl second_step).2 ∧
   @typecode_assigned CommonModel.common (decl second_step).2
     (before second_step) (after second_step) ∧
   counts_agree (after second_step)) ∧
  ((∀ j st', (j < 1)%nat →
      @register_all CommonModel.common
        [(abstract_terminal, Terminal); (default_traits, FacetNormal)] start !! j = Some st' →
      is_return (result st') = true) →
   _ufl_num_typecodes_ (before second_step) = 1%nat).
Proof.
  apply (@typecodes_consecutive_from_zero CommonModel.common classes [] []
           [(abstract_terminal, Terminal); (default_traits, FacetNormal)] 1 second_step).
  reflexivity.
Defined.

(** The second registration of the example returns and is given typecode 1. *)
Example second_step_typecode :
  result second_step = Return FacetNormal ∧
  getattr (heap (after second_step)) FacetNormal "_ufl_typecode_" = Some (VInt 1) ∧
  _ufl_all_classes_ (after second_step) = [Terminal; FacetNormal].
Proof. by vm_compute. Qed.

Lemma colliding_handler_name_fails_witness :
  ∃ e, (run default_traits OtherFacetNormal with_FacetNormal).2 = Raise e ∧
       (counters_appended with_FacetNormal
          (run default_traits OtherFacetNormal with_FacetNormal).1 →
        e = AssertionError).
Proof.
  apply (@colliding_handler_name_fails CommonModel.common).
  - apply reachable_ufl_type, reachable_ufl_type, reachable_initial.
  - apply (bool_decide_unpack _). vm_compute. exact I.
Defined.

(** The collision is reported by the consistency assertion, after the class
    has been given a typecode and recorded. *)
Example colliding_handler_name_example :
  (run default_traits OtherFacetNormal with_FacetNormal).2 = Raise AssertionError ∧
  _ufl_all_classes_ (run default_traits OtherFacetNormal with_FacetNormal).1
    = [Terminal; FacetNormal; OtherFacetNormal] ∧
  getattr (heap (run default_traits OtherFacetNormal with_FacetNormal).1)
          OtherFacetNormal "_ufl_typecode_" = Some (VInt 2).
Proof. by vm_compute. Qed.

Lemma unset_is_terminal_stored_as_None_witness :
  get_base_attr (heap with_Terminal) FacetNormal "_ufl_is_terminal_" = VBool true ∧
  (run default_traits FacetNormal with_Terminal).2 = Return FacetNormal ∧
  getattr (heap (run default_traits FacetNormal with_Terminal).1)
          FacetNormal "_ufl_is_terminal_" = Some VNone.
Proof.
  split; [by vm_compute|]. split; [by vm_compute|].
  apply (@unset_is_terminal_stored_as_None CommonModel.common);
    [reflexivity | by vm_compute].
Defined.

(** C2 (what the code does).  The decorator that [ufl_type] returns never
    looks at [is_scalar]: a class registered with [is_scalar=True] gets none
    of [ufl_shape], [ufl_free_indices], [ufl_index_dimensions] and no
    [_ufl_is_scalar_] mark; a class registered with [is_scalar=False] under
    it, or under a class whose body sets [_ufl_is_scalar_ = True], is
    registered without error. *)
Theorem is_scalar_has_no_effect :
  (∀ (C : Common) b t cls s,
     @ufl_type C (with_is_scalar b t) cls s = @ufl_type C t cls s) ∧
  ((run scalar ScalarValue with_Terminal).2 = Return ScalarValue ∧
   hasattr (heap with_ScalarValue) ScalarValue "ufl_shape" = false ∧
   hasattr (heap with_ScalarValue) ScalarValue "ufl_free_indices" = false ∧
   hasattr (heap with_ScalarValue) ScalarValue "ufl_index_dimensions" = false ∧
   hasattr (heap with_ScalarValue) ScalarValue "_ufl_is_scalar_" = false) ∧
  (run default_traits VectorValue with_ScalarValue).2 = Return VectorValue ∧
  (get_base_attr (heap with_MarkedScalar) UnmarkedChild "_ufl_is_scalar_" = VBool true ∧
   (run default_traits UnmarkedChild with_MarkedScalar).2 = Return UnmarkedChild).
Proof. split; [reflexivity|]. by vm_compute. Qed.

(** The second decorator, were it applied, would attach the empty tuples;
    its check for a scalar base class reads the [_ufl_is_scalar_] it has
    just written on the class itself, so it does not fire either. *)
Example uflcore_decorator_on_scalar :
  (uflcore__ufl_type_decorator_ scalar ScalarValue with_ScalarValue).2 = Return ScalarValue ∧
  getattr (heap (uflcore__ufl_type_decorator_ scalar ScalarValue with_ScalarValue).1)
          ScalarValue "ufl_shape" = Some (VTuple []) ∧
  (uflcore__ufl_type_decorator_ default_traits UnmarkedChild with_MarkedScalar).2
    = Return UnmarkedChild.
Proof. by vm_compute. Qed.

End RegistryExamples.

(** ** The index model *)

Section IndexingFacts.
Import Indexing.

Lemma as_index_tuple_loop_not_found items : ∀ pre post pre' post',
  as_index_tuple_loop items pre post false = Return (pre', post') →
  pre' = pre ∧
  ∃ converted, Forall2 (λ u i, as_index u = Return i) items converted ∧
               post' = post ++ converted.
Proof.
  induction items as [|u items IH]; intros pre post pre' post'; simpl.
  - intros [= <- <-]. split; [done|]. exists []. by rewrite app_nil_r.
  - destruct (is_Ellipsis u); simpl; [done|].
    destruct (as_index u) as [i|e] eqn:Hu; simpl; [|done].
    intros Hrest. destruct (IH _ _ _ _ Hrest) as (-> & conv & Hconv & ->).
    split; [done|]. exists (i :: conv). split; [by apply Forall2_cons|].
    by rewrite <- app_assoc.
Qed.

Lemma as_index_tuple_loop_returns items : ∀ pre post,
  Forall (λ u, is_return (as_index u) = true) items →
  ∃ r, as_index_tuple_loop items pre post false = Return r.
Proof.
  induction items as [|u items IH]; intros pre post Hall; simpl; [by eexists|].
  inversion Hall as [|? ? Hu Hrest]; subst.
  destruct (as_index u) as [i|e] eqn:Hi; [|done].
  assert (is_Ellipsis u = false) as -> by (by destruct u).
  simpl. by apply IH.
Qed.

(** An ellipsis anywhere in the index tuple is rejected. *)
Lemma as_index_tuple_loop_ellipsis items : ∀ pre post,
  UEllipsis ∈ items → ∃ e, as_index_tuple_loop items pre post false = Raise e.
Proof.
  induction items as [|u items IH]; intros pre post Hin; [by apply elem_of_nil in Hin|].
  apply elem_of_cons in Hin as [<- | Hin]; simpl; [by eexists|].
  destruct (is_Ellipsis u); simpl; [by eexists|].
  destruct (as_index u); simpl; [by apply IH | by eexists].
Qed.

Lemma length_axes n : (length (axes n) : nat) = Z.to_nat n.
Proof. apply length_replicate. Qed.

(** C8 (amended).  When a [MultiIndex] is constructed from an index tuple
    with no more entries than the rank, its stored tuple has exactly [rank]
    entries: the user's entries converted by [as_index], in their order, and
    [Axis] in each of the remaining [rank - n] positions. *)
Theorem multiindex_length_is_rank indices rank m :
  MultiIndex_init indices rank = Return m →
  Z.of_nat (length (as_tuple indices)) ≤ rank →
  Z.of_nat (length (_indices m)) = rank ∧
  ∃ converted,
    Forall2 (λ u i, as_index u = Return i) (as_tuple indices) converted ∧
    ∃ pre post,
      converted = pre ++ post ∧
      _indices m = pre ++ replicate (Z.to_nat (rank - Z.of_nat (length converted))) Axis ++ post.
Proof.
  unfold MultiIndex_init, as_index_tuple. intros Hm Hlen.
  destruct (as_index_tuple_loop _ _ _ _) as [[pre post]|e] eqn:Hloop; [|done].
  simpl in Hm. injection Hm as <-. simpl.
  destruct (as_index_tuple_loop_not_found _ _ _ _ _ Hloop) as (-> & conv & Hconv & ->).
  simpl. pose proof (Forall2_length _ _ _ Hconv) as Hn.
  split.
  - rewrite length_app, length_axes. simpl. lia.
  - exists conv. split; [done|]. exists [], conv. split; [done|]. simpl.
    unfold axes. do 2 f_equal. lia.
Qed.

End IndexingFacts.

Section ExtractIndicesFacts.
Import Indexing.

Lemma forallb_false {A} (f : A → bool) l :
  forallb f l = false ↔ ∃ x, x ∈ l ∧ f x = false.
Proof.
  induction l as [|a l IH]; simpl.
  - split; [done | intros (x & Hx & _); by apply elem_of_nil in Hx].
  - rewrite andb_false_iff, IH. split.
    + intros [Ha | (x & Hx & Hf)]; [exists a | exists x]; split; auto; by constructor.
    + intros (x & Hx & Hf). apply elem_of_cons in Hx as [-> | Hx]; eauto.
Qed.

Lemma forallb_true {A} (f : A → bool) l :
  forallb f l = true ↔ ∀ x, x ∈ l → f x = true.
Proof.
  rewrite forallb_forall. split; intros Hf x Hx; apply Hf; by apply list_elem_of_In.
Qed.

Lemma occurrences_cons i x l :
  occurrences i (x :: l) =
  if decide (x = AnIndex i) then S (occurrences i l) else occurrences i l.
Proof. unfold occurrences. rewrite filter_cons. by destruct (decide _). Qed.

(** After the counting loop, [index_count[i]] is the number of occurrences
    of [i] on top of what the dictionary held. *)
Lemma index_count_occurrences l : ∀ (m : gmap Index nat) i,
  default 0%nat (fold_left count_index (map Proper l) m !! i)
  = (default 0%nat (m !! i) + occurrences i l)%nat.
Proof.
  induction l as [|x l IH]; intros m i; simpl.
  - unfold occurrences. simpl. lia.
  - rewrite IH, occurrences_cons.
    destruct (decide (x = AnIndex i)) as [->|Hne]; simpl.
    + rewrite lookup_insert_eq. simpl. lia.
    + destruct x as [j| |]; simpl; [|done..].
      rewrite lookup_insert_ne by congruence. done.
Qed.

Lemma too_many_values l :
  forallb (λ p : Index * nat, (p.2 <=? 2)%nat)
          (map_to_list (fold_left count_index (map Proper l) ∅)) = false
  ↔ ∃ i, (2 < occurrences i l)%nat.
Proof.
  rewrite forallb_false. split.
  - intros ([i n] & Hin & Hn). apply elem_of_map_to_list in Hin. simpl in Hn.
    apply Nat.leb_gt in Hn. exists i.
    pose proof (index_count_occurrences l ∅ i) as Hc.
    rewrite Hin, lookup_empty in Hc. simpl in Hc. lia.
  - intros [i Hi]. pose proof (index_count_occurrences l ∅ i) as Hc.
    rewrite lookup_empty in Hc. simpl in Hc.
    destruct (fold_left count_index (map Proper l) ∅ !! i) as [n|] eqn:Hn;
      simpl in Hc; [|lia].
    exists (i, n). split; [by apply elem_of_map_to_list|].
    simpl. apply Nat.leb_gt. lia.
Qed.

Lemma proper_entries l : forallb is_proper (map Proper l) = true.
Proof. induction l; simpl; auto. Qed.

(** On a tuple of index objects, [extract_indices] fails with "Too many
    index repetitions" exactly when some [Index] occurs more than twice. *)
Lemma extract_indices_too_many l :
  extract_indices (ATuple (map Proper l)) = Raise (UFLException too_many)
  ↔ ∃ i, (2 < occurrences i l)%nat.
Proof.
  rewrite <- too_many_values. unfold extract_indices.
  rewrite proper_entries. simpl.
  destruct (forallb _ (map_to_list _)); simpl.
  - split; [|done]. case_bool_decide; simpl; [done|]. intros [=].
  - done.
Qed.

End ExtractIndicesFacts.

Section TensorFacts.
Import Indexing Tensors.
Context `{UFLObject E}.

Lemma same_free_indices_spec (eset : gset Index) (e : E) :
  same_free_indices eset e = true ↔ eset = list_to_set (free_indices e).
Proof.
  unfold same_free_indices. rewrite bool_decide_eq_true, size_empty_iff.
  split.
  - intros Hd. apply set_eq. intros x. split; intros Hx.
    + destruct (decide (x ∈ (list_to_set (free_indices e) : gset Index))) as [|Hn]; [done|].
      exfalso. apply (not_elem_of_empty (C:=gset Index) x). rewrite <- Hd.
      apply elem_of_union. left. by apply elem_of_difference.
    + destruct (decide (x ∈ eset)) as [|Hn]; [done|].
      exfalso. apply (not_elem_of_empty (C:=gset Index) x). rewrite <- Hd.
      apply elem_of_union. right. by apply elem_of_difference.
  - intros ->. intros x. split; [|by intros ?%not_elem_of_empty].
    intros [[? ?]%elem_of_difference | [? ?]%elem_of_difference]%elem_of_union; done.
Qed.

(** Comparing every entry with the first one detects any disagreement. *)
Lemma differs_from_first (first : E) (entries : list E) :
  first ∈ entries →
  forallb (same_free_indices (list_to_set (free_indices first))) entries = false
  ↔ inconsistent_free_indices entries.
Proof.
  intros Hfirst. rewrite forallb_false. split.
  - intros (e & He & Hs). exists first, e. split_and!; [done..|].
    intros Heq. apply same_free_indices_spec in Heq. congruence.
  - intros (e1 & e2 & H1 & H2 & Hne).
    destruct (same_free_indices (list_to_set (free_indices first)) e1) eqn:Hs1;
      [|by exists e1].
    destruct (same_free_indices (list_to_set (free_indices first)) e2) eqn:Hs2;
      [|by exists e2].
    apply same_free_indices_spec in Hs1, Hs2. congruence.
Qed.

Lemma scalar_entries (entries : list E) :
  Forall (λ e, rank e = 0) entries →
  forallb (λ e, bool_decide (rank e = 0)) entries = true.
Proof.
  intros Hall. apply forallb_true. intros e He.
  apply bool_decide_eq_true. by eapply Forall_forall in Hall; [|apply He].
Qed.

Lemma ListVector_different_free_indices (expressions : list E) :
  Forall (λ e, rank e = 0) expressions →
  ListVector_init (IsList expressions) = Raise (UFLException different_free_indices)
  ↔ inconsistent_free_indices expressions.
Proof.
  intros Hscalar. unfold ListVector_init. rewrite scalar_entries by done. simpl.
  destruct expressions as [|first rest].
  - split; [done|]. intros (e1 & _ & He1 & _). by apply elem_of_nil in He1.
  - rewrite <- (differs_from_first first) by constructor.
    destruct (forallb _ (first :: rest)); simpl; [split; done | done].
Qed.

Lemma concat_of_empty_rows (rows : list (list E)) :
  Forall (λ row, length row = 0%nat) rows → concat rows = [].
Proof.
  induction 1 as [|row rows Hrow _ IH]; [done|]. simpl.
  apply nil_length_inv in Hrow. by rewrite Hrow, IH.
Qed.

Lemma ListMatrix_different_free_indices (rows : list (list E)) :
  (∀ r1 r2, r1 ∈ rows → r2 ∈ rows → length r1 = length r2) →
  Forall (λ e, rank e = 0) (concat rows) →
  ListMatrix_init (IsList (map IsList rows)) = Raise (UFLException different_free_indices)
  ↔ inconsistent_free_indices (concat rows).
Proof.
  intros Hrect Hscalar. unfold ListMatrix_init.
  assert (Hlists : forallb is_list (map IsList rows) = true)
    by (apply forallb_true; intros x (r & -> & _)%list_elem_of_fmap; done).
  rewrite Hlists. simpl.
  assert (Hitems : map items_of (map IsList rows) = rows).
  { rewrite map_map. simpl. apply map_id. }
  rewrite Hitems. destruct rows as [|row0 rows'] eqn:Hrows.
  - split; [done|]. intros (e1 & _ & He1 & _). by apply elem_of_nil in He1.
  - rewrite <- Hrows in *.
    assert (Hsize : forallb (λ row, bool_decide (length row = length row0)) rows = true).
    { apply forallb_true. intros r Hr. apply bool_decide_eq_true.
      apply Hrect; [done|]. rewrite Hrows. constructor. }
    rewrite Hsize, scalar_entries by done. simpl.
    destruct row0 as [|first row0'].
    + rewrite concat_of_empty_rows.
      * split; [done|]. intros (e1 & _ & He1 & _). by apply elem_of_nil in He1.
      * apply Forall_forall. intros r Hr.
        apply (Hrect r []); [done|]. rewrite Hrows. constructor.
    + rewrite <- (differs_from_first first).
      * destruct (forallb _ (concat rows)); simpl; [split; done | done].
      * rewrite Hrows. simpl. constructor.
Qed.

End TensorFacts.

Section IndexingTheorems.
Import Indexing Tensors.

(** Construction succeeds on every index tuple whose entries [as_index]
    accepts. *)
Lemma MultiIndex_init_returns indices rank :
  Forall (λ u, is_return (as_index u) = true) (as_tuple indices) →
  ∃ m, MultiIndex_init indices rank = Return m.
Proof.
  intros Hall. unfold MultiIndex_init, as_index_tuple.
  destruct (as_index_tuple_loop_returns _ [] [] Hall) as [[pre post] ->].
  by eexists.
Qed.

(** An ellipsis in the index tuple makes the construction fail, also when
    it is the only one. *)
Lemma ellipsis_rejected indices rank :
  UEllipsis ∈ as_tuple indices → ∃ e, MultiIndex_init indices rank = Raise e.
Proof.
  intros Hin. unfold MultiIndex_init, as_index_tuple.
  destruct (as_index_tuple_loop_ellipsis _ [] [] Hin) as [e ->]. by eexists.
Qed.

Example single_ellipsis_rejected :
  MultiIndex_init (Tuple [UInt 0; UEllipsis]) 3
  = Raise (UFLException "Found duplicate ellipsis.").
Proof. reflexivity. Qed.

Example short_tuple_padded :
  MultiIndex_init (Tuple [UInt 0; USlice None None None]) 4
  = Return (MkMultiIndex [Axis; Axis; AFixedIndex (MkFixedIndex 0); Axis]).
Proof. reflexivity. Qed.

(** C8 fails as stated: three indices given for a tensor of rank 2 are all
    stored. *)
Lemma multiindex_longer_than_rank :
  ∃ m, MultiIndex_init (Tuple [UInt 0; UInt 1; UInt 2]) 2 = Return m ∧
       Z.of_nat (length (_indices m)) ≠ 2.
Proof. eexists. split; [reflexivity|]. simpl. lia. Qed.

Lemma multiindex_length_is_rank_witness :
  Z.of_nat (length [Axis; Axis; AFixedIndex (MkFixedIndex 0); Axis]) = 4 ∧
  ∃ converted,
    Forall2 (λ u i, as_index u = Return i) [UInt 0; USlice None None None] converted ∧
    ∃ pre post,
      converted = pre ++ post ∧
      [Axis; Axis; AFixedIndex (MkFixedIndex 0); Axis]
      = pre ++ replicate (Z.to_nat (4 - Z.of_nat (length converted))) Axis ++ post.
Proof.
  apply (multiindex_length_is_rank (Tuple [UInt 0; USlice None None None]) 4
           (MkMultiIndex [Axis; Axis; AFixedIndex (MkFixedIndex 0); Axis])).
  - reflexivity.
  - simpl. lia.
Defined.

(** C9.  On an index tuple, [extract_indices] fails with "Too many index
    repetitions" exactly when some [Index] occurs in it more than twice; on
    a list of scalar-valued expressions [ListVector], and on equally long
    rows of scalar-valued expressions [ListMatrix], fail with "Can't handle
    list of expressions with different free indices." exactly when the
    free-index sets of the entries disagree. *)
Theorem malformed_index_errors `{UFLObject E} :
  (∀ indices : list index_obj,
     extract_indices (ATuple (map Proper indices)) = Raise (UFLException too_many)
     ↔ ∃ i, (2 < occurrences i indices)%nat) ∧
  (∀ expressions : list E,
     Forall (λ e, rank e = 0) expressions →
     ListVector_init (IsList expressions) = Raise (UFLException different_free_indices)
     ↔ inconsistent_free_indices expressions) ∧
  (∀ rows : list (list E),
     (∀ r1 r2, r1 ∈ rows → r2 ∈ rows → length r1 = length r2) →
     Forall (λ e, rank e = 0) (concat rows) →
     ListMatrix_init (IsList (map IsList rows)) = Raise (UFLException different_free_indices)
     ↔ inconsistent_free_indices (concat rows)).
Proof.
  split_and!.
  - apply extract_indices_too_many.
  - apply ListVector_different_free_indices.
  - apply ListMatrix_different_free_indices.
Qed.

End IndexingTheorems.

Section IndexingExamples.
Import Indexing Tensors.

Lemma malformed_index_errors_witness :
  extract_indices (ATuple (map Proper [AnIndex i0; AnIndex i1; AnIndex i0; AnIndex i0]))
    = Raise (UFLException too_many) ∧
  @ListVector_init observed observed_object (IsList [(0, [i0]); (0, [i1])])
    = Raise (UFLException different_free_indices) ∧
  @ListMatrix_init observed observed_object
      (IsList (map IsList [[(0, [i0]); (0, [i0])]; [(0, [i0]); (0, [])]]))
    = Raise (UFLException different_free_indices).
Proof.
  destruct (@malformed_index_errors observed observed_object) as (Ha & Hb & Hc).
  split_and!.
  - apply Ha. exists i0. vm_compute. lia.
  - apply Hb; [by repeat constructor|].
    exists (0, [i0]), (0, [i1]). split_and!; [by repeat constructor..|].
    apply (bool_decide_unpack _). vm_compute. exact I.
  - apply Hc.
    + intros r1 r2 Hr1 Hr2.
      repeat (apply elem_of_cons in Hr1 as [-> | Hr1]); [..|by apply elem_of_nil in Hr1];
      repeat (apply elem_of_cons in Hr2 as [-> | Hr2]); try done;
      by apply elem_of_nil in Hr2.
    + by repeat constructor.
    + exists (0, [i0]), (0, []). split_and!; [by repeat constructor..|].
      apply (bool_decide_unpack _). vm_compute. exact I.
Defined.

(** Two occurrences are accepted: the index is a repeated one. *)
Example twice_is_accepted :
  extract_indices (ATuple (map Proper [AnIndex i0; AFixedIndex (MkFixedIndex 2); Axis; AnIndex i0]))
  = Return ([(1%nat, MkFixedIndex 2)], [], [i0], 1%nat).
Proof. by vm_compute. Qed.

End IndexingExamples.

(** ** Form preprocessing *)

Section DegreeFacts.
Import ComputeFormData.
Context {Element Domain : Type} `{!FiniteElementBase Element Domain}.

(** [max] over values that may be [None] returns the largest integer, or
    [None] when there is none. *)
Lemma py_max_spec rest : ∀ first,
  match py_max first rest with
  | None => first = None ∧ ∀ d, d ∈ rest → d = None
  | Some M =>
      (first = Some M ∨ Some M ∈ rest) ∧
      (∀ d, first = Some d → d ≤ M) ∧
      (∀ d, Some d ∈ rest → d ≤ M)
  end.
Proof.
  unfold py_max. induction rest as [|x rest IH]; intros first; simpl.
  - destruct first as [M|]; [|split; [done | by intros d ?%elem_of_nil]].
    split_and!; [by left | by intros d [= ->] | by intros d ?%elem_of_nil].
  - specialize (IH (max2 first x)).
    destruct (fold_left max2 rest (max2 first x)) as [M|].
    + destruct IH as (Hin & Hfirst & Hrest). split_and!.
      * destruct Hin as [Hm | Hm]; [|right; by constructor].
        destruct first as [a|], x as [b|]; simpl in Hm; simplify_eq;
          [|by left|right; by constructor].
        destruct (Z.max_spec a b) as [[_ ->] | [_ ->]]; [right; by constructor | by left].
      * intros d ->. destruct x as [b|]; simpl in Hfirst.
        -- specialize (Hfirst _ eq_refl). lia.
        -- by apply Hfirst.
      * intros d [<- | Hd]%elem_of_cons; [|by apply Hrest].
        destruct first as [a|]; simpl in Hfirst.
        -- specialize (Hfirst _ eq_refl). lia.
        -- by apply Hfirst.
    + destruct IH as [Hm Hrest]. destruct first as [a|], x as [b|]; simpl in Hm; try done.
      split; [done|]. intros d [-> | Hd]%elem_of_cons; [done | by apply Hrest].
Qed.

(** The degree chosen for elements without one: the largest declared
    degree, but at least 1. *)
Lemma _auto_select_degree_spec (elements : list Element) :
  1 ≤ _auto_select_degree elements ∧
  (∀ e d, e ∈ elements → degree e = Some d → d ≤ _auto_select_degree elements) ∧
  (_auto_select_degree elements = 1 ∨
   ∃ e, e ∈ elements ∧ degree e = Some (_auto_select_degree elements)) ∧
  ((∀ e, e ∈ elements → degree e = None) → _auto_select_degree elements = 1).
Proof.
  unfold _auto_select_degree.
  destruct elements as [|e0 rest]; simpl.
  - split_and!; [lia | by intros e d ?%elem_of_nil | by left | done].
  - pose proof (py_max_spec (map degree rest) (degree e0)) as Hmax.
    destruct (py_max (degree e0) (map degree rest)) as [M|].
    + destruct Hmax as (Hin & Hfirst & Hrest).
      assert (Hle : ∀ e d, e ∈ e0 :: rest → degree e = Some d → d ≤ M).
      { intros e d [-> | He]%elem_of_cons Hd; [by apply Hfirst|].
        apply Hrest. rewrite <- Hd. by apply list_elem_of_fmap_2. }
      assert (Hex : ∃ e, e ∈ e0 :: rest ∧ degree e = Some M).
      { destruct Hin as [Hm | Hm]; [exists e0; split; [constructor | done]|].
        apply list_elem_of_fmap in Hm as (e & Hm & He).
        exists e. split; [by constructor | done]. }
      split_and!.
      * lia.
      * intros e d He Hd. specialize (Hle e d He Hd). lia.
      * destruct (Z.max_spec 1 M) as [[_ ->] | [_ ->]]; [by right | by left].
      * intros Hnone. destruct Hex as (e & He & Hd). rewrite (Hnone e He) in Hd. done.
    + split_and!; [lia | | by left | done].
      destruct Hmax as [H0 Hrest]. intros e d [-> | He]%elem_of_cons Hd; [congruence|].
      assert (Some d = None) as Hcontra; [|done].
      apply Hrest. rewrite <- Hd. by apply list_elem_of_fmap_2.
Qed.

End DegreeFacts.

Section MappingFacts.
Import ComputeFormData.
Context {Element Domain Expr Argument Coefficient Class ReplaceMap : Type}.
Context `{Countable Element} `{Countable Coefficient}.
Context `{!FiniteElementBase Element Domain}.
Context `{!@Collaborators Element Domain Expr Argument Coefficient Class ReplaceMap _ _ _ _}.

Implicit Types form : @Form Domain Expr Argument Coefficient.

(** One element is completed, or its domain is missing and the form does
    not have exactly one. *)
Lemma map_element_cases form common_degree element :
  match map_element form common_degree element with
  | Return new =>
      (∃ dom d, domain element = Some dom ∧ degree element = Some d ∧ new = element) ∨
      (∃ dom, (domain element = Some dom ∨ (domain element = None ∧ domains form = [dom])) ∧
              (domain element = None ∨ degree element = None) ∧
              new = reconstruct element dom
                      (match degree element with Some d => d | None => common_degree end))
  | Raise e =>
      e = UFLException missing_domain ∧ domain element = None ∧
      length (domains form) ≠ 1%nat
  end.
Proof.
  unfold map_element.
  destruct (domain element) as [dom|] eqn:Hdom; simpl.
  - destruct (degree element) as [d|] eqn:Hdeg; simpl.
    + left. by exists dom, d.
    + right. exists dom. split_and!; auto.
  - destruct (domains form) as [|dom [|dom' doms]] eqn:Hdoms; simpl; [done| |done].
    destruct (degree element); simpl; right; exists dom; split_and!; auto.
Qed.

Lemma element_mapping_loop_spec form cd els : ∀ m0,
  match element_mapping_loop form cd els m0 with
  | Return m =>
      ∀ e, (e ∈ els → ∃ new, map_element form cd e = Return new ∧ m !! e = Some new) ∧
           (e ∉ els → m !! e = m0 !! e)
  | Raise x =>
      x = UFLException missing_domain ∧ length (domains form) ≠ 1%nat ∧
      ∃ e, e ∈ els ∧ domain e = None
  end.
Proof.
  induction els as [|x els IH]; intros m0; simpl.
  - intros e. split; [by intros ?%elem_of_nil | done].
  - pose proof (map_element_cases form cd x) as Hx.
    destruct (map_element form cd x) as [nx|ex] eqn:Hmx; simpl.
    + specialize (IH (<[x := nx]> m0)).
      destruct (element_mapping_loop form cd els (<[x := nx]> m0)) as [m|e'].
      * intros e. destruct (IH e) as [Hin Hout]. split.
        -- intros Hel. destruct (decide (e ∈ els)) as [He|He]; [by apply Hin|].
           apply elem_of_cons in Hel as [-> | Hel]; [|done].
           exists nx. split; [done|]. rewrite (Hout He). apply lookup_insert_eq.
        -- intros Hnot. apply not_elem_of_cons in Hnot as [Hne Hnot].
           rewrite (Hout Hnot). by apply lookup_insert_ne.
      * destruct IH as (-> & Hlen & e & He & Hd). split_and!; [done..|].
        exists e. split; [by constructor | done].
    + destruct Hx as (-> & Hd & Hlen). split_and!; [done..|].
      exists x. split; [constructor | done].
Qed.

(** The mapping is computed unless some element lacks a domain and the
    form does not have exactly one. *)
Lemma _compute_element_mapping_outcome form :
  (_compute_element_mapping form = Raise (UFLException missing_domain) ↔
   length (domains form) ≠ 1%nat ∧ ∃ e, e ∈ form_elements form ∧ domain e = None) ∧
  ((∃ m, _compute_element_mapping form = Return m) ∨
   _compute_element_mapping form = Raise (UFLException missing_domain)).
Proof.
  unfold _compute_element_mapping.
  pose proof (element_mapping_loop_spec form (_auto_select_degree (form_elements form))
                (form_elements form) ∅) as Hloop.
  destruct (element_mapping_loop _ _ _ _) as [m|x].
  - split; [|left; by eexists]. split; [done|].
    intros (Hlen & e & He & Hd). destruct (Hloop e) as [Hin _].
    destruct (Hin He) as (new & Hnew & _).
    pose proof (map_element_cases form (_auto_select_degree (form_elements form)) e) as Hc.
    rewrite Hnew in Hc. destruct Hc as [(dom & d & Hdom & _) | (dom & [Hdom | [_ Hdoms]] & _)];
      [congruence.. |].
    rewrite Hdoms in Hlen. done.
  - destruct Hloop as (-> & Hlen & Hex). split; [|by right]. split; [done|]. done.
Qed.

(** C5.  When the element mapping is computed, an element of the form
    (sub-elements included) that declares no degree is mapped to its
    reconstruction with the degree [_auto_select_degree] selects; that degree
    is at least 1, bounds every declared degree of the form's elements, is 1
    or one of the declared degrees, and is 1 when no element declares a
    degree. *)
Theorem missing_degree_is_max_declared form m element :
  _compute_element_mapping form = Return m →
  element ∈ form_elements form →
  degree element = None →
  (∃ dom, m !! element
          = Some (reconstruct element dom (_auto_select_degree (form_elements form))) ∧
          (domain element = Some dom ∨ domains form = [dom])) ∧
  1 ≤ _auto_select_degree (form_elements form) ∧
  (∀ e d, e ∈ form_elements form → degree e = Some d →
          d ≤ _auto_select_degree (form_elements form)) ∧
  (_auto_select_degree (form_elements form) = 1 ∨
   ∃ e, e ∈ form_elements form ∧
        degree e = Some (_auto_select_degree (form_elements form))) ∧
  ((∀ e, e ∈ form_elements form → degree e = None) →
   _auto_select_degree (form_elements form) = 1).
Proof.
  intros Hm Hel Hdeg. split; [|apply _auto_select_degree_spec].
  unfold _compute_element_mapping in Hm.
  pose proof (element_mapping_loop_spec form (_auto_select_degree (form_elements form))
                (form_elements form) ∅) as Hloop.
  rewrite Hm in Hloop. destruct (Hloop element) as [Hin _].
  destruct (Hin Hel) as (new & Hnew & Hlook).
  pose proof (map_element_cases form (_auto_select_degree (form_elements form)) element) as Hc.
  rewrite Hnew, Hdeg in Hc.
  destruct Hc as [(dom & d & _ & Hd & _) | (dom & Hdom & _ & ->)]; [done|].
  exists dom. split; [done|]. destruct Hdom as [? | [_ ?]]; auto.
Qed.

(** C6 (amended).  For a form with two or more domains, the element mapping
    fails with the missing-domain error exactly when some element of the
    form (sub-elements included) has no domain; when every element has one,
    the mapping is computed. *)
Theorem several_domains_fail_on_missing_domain form :
  (2 ≤ length (domains form))%nat →
  (_compute_element_mapping form = Raise (UFLException missing_domain) ↔
   ∃ e, e ∈ form_elements form ∧ domain e = None) ∧
  ((∀ e, e ∈ form_elements form → is_Some (domain e)) →
   ∃ m, _compute_element_mapping form = Return m).
Proof.
  intros Hlen. destruct (_compute_element_mapping_outcome form) as [Hiff Hcases]. split.
  - rewrite Hiff. split; [by intros [_ ?] | intros ?; split; [lia | done]].
  - intros Hall. destruct Hcases as [? | Hr]; [done|].
    apply Hiff in Hr as (_ & e & He & Hd). destruct (Hall e He) as [d Hd']. congruence.
Qed.

End MappingFacts.

Section SortingFacts.
Import ComputeFormData.
Context {A : Type} (key : A → Z).

Lemma insert_by_Permutation x l : insert_by key x l ≡ₚ x :: l.
Proof.
  induction l as [|y l IH]; simpl; [done|].
  destruct (key x <=? key y); [done|]. rewrite IH. apply perm_swap.
Qed.

Lemma sorted_Permutation l : sorted key l ≡ₚ l.
Proof.
  induction l as [|x l IH]; simpl; [done|].
  unfold sorted in *. simpl. by rewrite insert_by_Permutation, IH.
Qed.

Lemma insert_by_HdRel a x l :
  (key_le key) a x → HdRel (key_le key) a l → HdRel (key_le key) a (insert_by key x l).
Proof.
  intros Hax Hal. destruct l as [|y l]; simpl; [by constructor|].
  destruct (key x <=? key y); constructor; [done|]. by inversion Hal.
Qed.

Lemma insert_by_Sorted x l : Sorted (key_le key) l → Sorted (key_le key) (insert_by key x l).
Proof.
  induction 1 as [|y l Hl IH Hhd]; simpl; [by repeat constructor|].
  destruct (key x <=? key y) eqn:Hxy.
  - apply Z.leb_le in Hxy. repeat constructor; done.
  - apply Z.leb_gt in Hxy. constructor; [done|].
    apply insert_by_HdRel; [unfold key_le; lia | done].
Qed.

Lemma sorted_Sorted l : Sorted (key_le key) (sorted key l).
Proof.
  induction l as [|x l IH]; [constructor|]. unfold sorted in *. simpl.
  by apply insert_by_Sorted.
Qed.

(** A list has one sorted arrangement when its members have different
    keys. *)
Lemma Sorted_key_unique l1 : ∀ l2,
  Sorted (key_le key) l1 → Sorted (key_le key) l2 → l1 ≡ₚ l2 →
  (∀ a b, a ∈ l1 → b ∈ l1 → key a = key b → a = b) →
  l1 = l2.
Proof.
  induction l1 as [|a l1 IH]; intros l2 H1 H2 Hp Hinj.
  - by apply Permutation_nil in Hp.
  - destruct l2 as [|b l2]; [by apply Permutation_nil_r in Hp|].
    assert (Htrans : Relations_1.Transitive (key_le key))
      by (unfold key_le; intros x y z; lia).
    apply (Sorted_StronglySorted Htrans) in H1, H2.
    inversion H1 as [|? ? Hs1 Ha]; inversion H2 as [|? ? Hs2 Hb]; subst.
    assert (Hab : a = b).
    { assert (Hbin : b ∈ a :: l1) by (rewrite Hp; constructor).
      assert (Hain : a ∈ b :: l2) by (rewrite <- Hp; constructor).
      apply Hinj; [constructor | done |].
      apply elem_of_cons in Hbin as [-> | Hbin]; [done|].
      apply elem_of_cons in Hain as [-> | Hain]; [done|].
      rewrite Forall_forall in Ha, Hb.
      pose proof (Ha b Hbin). pose proof (Hb a Hain). unfold key_le in *. lia. }
    subst b. f_equal. apply IH.
    + by apply StronglySorted_Sorted.
    + by apply StronglySorted_Sorted.
    + by apply Permutation_cons_inv in Hp.
    + intros x y Hx Hy. apply Hinj; by constructor.
Qed.

End SortingFacts.

Section ReductionFacts.
Import ComputeFormData.
Context {Element Domain Expr Argument Coefficient Class ReplaceMap : Type}.
Context `{Countable Element} `{Countable Coefficient}.
Context `{!FiniteElementBase Element Domain}.
Context `{!@Collaborators Element Domain Expr Argument Coefficient Class ReplaceMap _ _ _ _}.

Implicit Types form : @Form Domain Expr Argument Coefficient.
Implicit Types data : list (@IntegralData Expr Coefficient _ _).

Lemma elem_of_fold_union {B} (f : B → gset Coefficient) l : ∀ X c,
  c ∈ fold_left (λ acc b, acc ∪ f b) l X ↔ c ∈ X ∨ ∃ b, b ∈ l ∧ c ∈ f b.
Proof.
  induction l as [|b l IH]; intros X c; simpl.
  - split; [by left | intros [? | (b & ?%elem_of_nil & _)]; done].
  - rewrite IH, elem_of_union. split.
    + intros [[? | ?] | (b' & Hb' & Hc)]; [by left | right; exists b | right; exists b'];
        split; auto; by constructor.
    + intros [? | (b' & [-> | Hb']%elem_of_cons & Hc)]; [by left; left | by left; right |].
      right. by exists b'.
Qed.

Lemma elem_of_group_coefficients (d : @IntegralData Expr Coefficient _ _) c :
  c ∈ group_coefficients d ↔
  ∃ itg, itg ∈ itg_integrals d ∧ c ∈ extract_coefficients (integrand itg).
Proof.
  unfold group_coefficients.
  rewrite (elem_of_fold_union (λ itg, list_to_set (extract_coefficients (integrand itg)))).
  split.
  - intros [?%not_elem_of_empty | (itg & Hitg & Hc)]; [done|].
    exists itg. split; [done|]. by apply elem_of_list_to_set in Hc.
  - intros (itg & Hitg & Hc). right. exists itg. split; [done|].
    by apply elem_of_list_to_set.
Qed.

(** The set the groups' coefficients are collected in. *)
Lemma elem_of_reduced_set data c :
  c ∈ fold_left (λ acc itg_data, acc ∪ integral_coefficients itg_data)
        (map set_integral_coefficients data) ∅
  ↔ referenced data c.
Proof.
  rewrite (elem_of_fold_union integral_coefficients). unfold referenced. split.
  - intros [?%not_elem_of_empty | (d' & Hd' & Hc)]; [done|].
    apply list_elem_of_fmap in Hd' as (d & -> & Hd). simpl in Hc.
    apply elem_of_group_coefficients in Hc as (itg & Hitg & Hc). by exists d, itg.
  - intros (d & itg & Hd & Hitg & Hc). right.
    exists (set_integral_coefficients d). split; [by apply list_elem_of_fmap_2|].
    simpl. apply elem_of_group_coefficients. by exists itg.
Qed.

Lemma referenced_Permutation data data' c :
  data' ≡ₚ data → referenced data' c ↔ referenced data c.
Proof.
  intros Hp. unfold referenced. split; intros (d & itg & Hd & Hrest);
    exists d, itg; (split; [|done]); [by rewrite <- Hp | by rewrite Hp].
Qed.

Lemma elem_of_reduce_coefficients `{!SetOrder Coefficient} data c :
  c ∈ reduce_coefficients (map set_integral_coefficients data) ↔ referenced data c.
Proof.
  unfold reduce_coefficients.
  rewrite (sorted_Permutation count), iterate_elements, elem_of_elements.
  apply elem_of_reduced_set.
Qed.

(** What [compute_form_data] stores in the fields the claims are about. *)
Lemma compute_form_data_fields `{!SetOrder Coefficient} form fd :
  compute_form_data form = Return fd →
  reduced_coefficients fd = reduce_coefficients (grouped_integrals form) ∧
  integral_data fd
    = map (set_enabled_coefficients (reduced_coefficients fd)) (grouped_integrals form) ∧
  num_sub_domains fd = _compute_num_sub_domains (integral_data fd).
Proof.
  unfold compute_form_data, grouped_integrals.
  destruct (elements _) as [|gdim [|]]; [done| |done].
  destruct (_compute_element_mapping form) as [emap|]; [|done]. simpl.
  destruct (build_coefficient_replace_map _ _) as [renumbered frm].
  destruct (_check_elements _ _); [|done]. simpl.
  destruct (_check_facet_geometry _); [|done]. simpl.
  destruct (_check_form_arity _); [|done]. simpl.
  by intros [= <-].
Qed.

(** C4.  The reduced coefficient list holds exactly the coefficients that
    occur in the integrand of some integral of some group, each once, in
    ascending order of [count()]; whatever order the groups come in and
    whatever order the set is iterated in, the list is the same as long as
    different coefficients have different counts; and this list is what
    [compute_form_data] stores, computed from the integral groups of the form
    after derivative expansion and restriction propagation. *)
Theorem reduced_coefficients_sorted_by_count `{!SetOrder Coefficient} data :
  (∀ c, c ∈ reduce_coefficients (map set_integral_coefficients data) ↔ referenced data c) ∧
  NoDup (reduce_coefficients (map set_integral_coefficients data)) ∧
  Sorted (λ a b, count a ≤ count b)
         (reduce_coefficients (map set_integral_coefficients data)) ∧
  (∀ (order' : SetOrder Coefficient) data',
     data' ≡ₚ data →
     (∀ c1 c2, referenced data c1 → referenced data c2 → count c1 = count c2 → c1 = c2) →
     @reduce_coefficients _ _ _ _ _ _ _ _ _ _ _ _ order' (map set_integral_coefficients data')
     = reduce_coefficients (map set_integral_coefficients data)) ∧
  (∀ form fd,
     compute_form_data form = Return fd →
     reduced_coefficients fd = reduce_coefficients (grouped_integrals form) ∧
     ((∀ c, referenced (build_integral_data
                          (integrals (propagate_restrictions (expand_derivatives form)))
                          (domains form)) c → c ∈ coefficients form) →
      ∀ c, c ∈ reduced_coefficients fd ↔
           c ∈ coefficients form ∧
           referenced (build_integral_data
                         (integrals (propagate_restrictions (expand_derivatives form)))
                         (domains form)) c)).
Proof.
  split_and!.
  - intros c. apply elem_of_reduce_coefficients.
  - unfold reduce_coefficients. rewrite (sorted_Permutation count), iterate_elements.
    apply NoDup_elements.
  - apply (sorted_Sorted count).
  - intros order' data' Hp Hinj. apply (Sorted_key_unique count).
    + apply sorted_Sorted.
    + apply sorted_Sorted.
    + unfold reduce_coefficients.
      rewrite !(sorted_Permutation count), !iterate_elements.
      match goal with |- elements ?X ≡ₚ elements ?Y => assert (X = Y) as -> end; [|done].
      apply set_eq. intros c. rewrite !elem_of_reduced_set.
      by apply referenced_Permutation.
    + intros c1 c2 Hc1 Hc2.
      apply (@elem_of_reduce_coefficients order') in Hc1, Hc2.
      apply Hinj; by apply (referenced_Permutation data data').
  - intros form fd Hfd. destruct (compute_form_data_fields form fd Hfd) as (Hr & _).
    split; [done|]. intros Hsub c. rewrite Hr. unfold grouped_integrals.
    rewrite elem_of_reduce_coefficients. split; [|by intros [_ ?]].
    intros Hc. split; [by apply Hsub | done].
Qed.

End ReductionFacts.

Section SubdomainFacts.
Import ComputeFormData.
Context {Expr Coefficient : Type} `{Countable Coefficient}.

Implicit Types data : list (@IntegralData Expr Coefficient _ _).

(** The value a group adds for its integral type, and the running maximum
    the loop keeps. *)
Lemma num_sub_domains_fold data : ∀ (acc : gmap string Z) it,
  fold_left
    (λ num_sub_domains itg_data,
       <[integral_type itg_data :=
           match num_sub_domains !! integral_type itg_data with
           | None => match subdomain_id itg_data with inl _ => 0 | inr si => si + 1 end
           | Some p => Z.max p (match subdomain_id itg_data with inl _ => 0 | inr si => si + 1 end)
           end]> num_sub_domains)
    data acc !! it
  = fold_left
      (λ o si, Some (match o with
                     | None => match si with inl _ => 0 | inr n => n + 1 end
                     | Some p => Z.max p (match si with inl _ => 0 | inr n => n + 1 end)
                     end))
      (subdomain_ids it data) (acc !! it).
Proof.
  induction data as [|d data IH]; intros acc it; [done|].
  simpl. rewrite IH. unfold subdomain_ids. rewrite filter_cons.
  destruct (decide (integral_type d = it)) as [<-|Hne]; simpl.
  - by rewrite lookup_insert_eq.
  - by rewrite lookup_insert_ne.
Qed.

Lemma running_max_spec (ids : list (string + Z)) : ∀ o,
  match fold_left
          (λ o si, Some (match o with
                         | None => match si with inl _ => 0 | inr n => n + 1 end
                         | Some p => Z.max p (match si with inl _ => 0 | inr n => n + 1 end)
                         end)) ids o with
  | None => o = None ∧ ids = []
  | Some M =>
      (o = Some M ∨ (∃ s, inl s ∈ ids ∧ M = 0) ∨ (∃ n, inr n ∈ ids ∧ M = n + 1)) ∧
      (∀ p, o = Some p → p ≤ M) ∧
      ((∃ s, inl s ∈ ids) → 0 ≤ M) ∧
      (∀ n, inr n ∈ ids → n + 1 ≤ M)
  end.
Proof.
  induction ids as [|si ids IH]; intros o; simpl.
  - destruct o as [M|]; [|done]. split_and!.
    + by left.
    + by intros p [= ->].
    + by intros (s & ?%elem_of_nil).
    + by intros n ?%elem_of_nil.
  - match goal with |- context [fold_left _ ids (Some ?v)] =>
      specialize (IH (Some v)); destruct (fold_left _ ids (Some v)) as [M|] end;
      [|by destruct IH].
    destruct IH as (Hin & Hp & Hs & Hn). specialize (Hp _ eq_refl). split_and!.
    + destruct Hin as [[= <-] | [(s & Hs' & ->) | (n & Hn' & ->)]].
      * destruct o as [p|], si as [s|n].
        -- destruct (Z.max_spec p 0) as [[_ ->] | [_ ->]];
             [right; left; exists s; split; [constructor | done] | by left].
        -- destruct (Z.max_spec p (n + 1)) as [[_ ->] | [_ ->]];
             [right; right; exists n; split; [constructor | done] | by left].
        -- right; left. exists s. split; [constructor | done].
        -- right; right. exists n. split; [constructor | done].
      * right; left. exists s. split; [by constructor | done].
      * right; right. exists n. split; [by constructor | done].
    + intros p ->. lia.
    + intros (s & [<- | Hs']%elem_of_cons); [destruct o; lia | apply Hs; by exists s].
    + intros n [<- | Hn']%elem_of_cons; [destruct o; lia | by apply Hn].
Qed.

End SubdomainFacts.

Section SubdomainTheorem.
Import ComputeFormData.
Context {Element Domain Expr Argument Coefficient Class ReplaceMap : Type}.
Context `{Countable Element} `{Countable Coefficient}.
Context `{!FiniteElementBase Element Domain}.
Context `{!@Collaborators Element Domain Expr Argument Coefficient Class ReplaceMap _ _ _ _}.
Context `{!SetOrder Coefficient}.

Implicit Types data : list (@IntegralData Expr Coefficient _ _).

(** C10.  For every list of integral groups and every integral type: no
    entry when no group has the type; 0 when every group of the type carries
    a string id; otherwise, with [m] the largest integer id of the type,
    [1 + m] when no group of the type carries a string and [max 0 (1 + m)]
    when one does, which is [1 + m] whenever [m] is not below -1.  The
    dictionary [compute_form_data] stores is the one computed from the
    groups it stores. *)
Theorem num_sub_domains_is_one_plus_max_id data it :
  (subdomain_ids it data = [] → _compute_num_sub_domains data !! it = None) ∧
  (subdomain_ids it data ≠ [] → (∀ n, inr n ∉ subdomain_ids it data) →
   _compute_num_sub_domains data !! it = Some 0) ∧
  (∀ m, inr m ∈ subdomain_ids it data →
        (∀ n, inr n ∈ subdomain_ids it data → n ≤ m) →
        ((∀ s, inl s ∉ subdomain_ids it data) →
         _compute_num_sub_domains data !! it = Some (1 + m)) ∧
        ((∃ s, inl s ∈ subdomain_ids it data) →
         _compute_num_sub_domains data !! it = Some (Z.max 0 (1 + m))) ∧
        (-1 ≤ m → _compute_num_sub_domains data !! it = Some (1 + m))) ∧
  (∀ form fd, compute_form_data form = Return fd →
              num_sub_domains fd = _compute_num_sub_domains (integral_data fd)).
Proof.
  assert (Hstored : ∀ form fd, compute_form_data form = Return fd →
            num_sub_domains fd = _compute_num_sub_domains (integral_data fd))
    by (intros form fd Hfd; by destruct (compute_form_data_fields form fd Hfd) as (_ & _ & ?)).
  unfold _compute_num_sub_domains. rewrite num_sub_domains_fold, lookup_empty.
  pose proof (running_max_spec (subdomain_ids it data) None) as Hmax.
  destruct (fold_left _ (subdomain_ids it data) None) as [M|].
  - destruct Hmax as (Hin & _ & Hs & Hn).
    destruct Hin as [[=] | Hin]. split_and!.
    + intros Hnil. rewrite Hnil in Hin.
      destruct Hin as [(s & ?%elem_of_nil & _) | (n & ?%elem_of_nil & _)]; done.
    + intros _ Hstr. destruct Hin as [(s & _ & ->) | (n & Hn' & _)]; [done|].
      destruct (Hstr n Hn').
    + intros m Hm Hle. specialize (Hn m Hm).
      assert (Hcases : M = 0 ∧ (∃ s, inl s ∈ subdomain_ids it data) ∨ M = 1 + m).
      { destruct Hin as [(s & Hs' & ->) | (n & Hn' & ->)]; [left; eauto|].
        right. specialize (Hle n Hn'). lia. }
      split_and!.
      * intros Hno. destruct Hcases as [[_ (s & Hs')] | ->]; [destruct (Hno s Hs') | done].
      * intros Hex. specialize (Hs Hex). f_equal. lia.
      * intros Hm1. f_equal. lia.
    + exact Hstored.
  - destruct Hmax as [_ Hnil]. split_and!; [done | done | | exact Hstored].
    intros m Hm. rewrite Hnil in Hm. by apply elem_of_nil in Hm.
Qed.

End SubdomainTheorem.

Section FormExamples.
Import ComputeFormData FormWorld.

(** The element without degree is completed with degree 3, the largest one
    declared in the form. *)
Example incomplete_form_mapping :
  _compute_element_mapping incomplete_form
  = Return (<[(None, None) := (Some 0%nat, Some 3)]>
            (<[(Some 0%nat, Some 3) := (Some 0%nat, Some 3)]> ∅)).
Proof. by vm_compute. Qed.

Lemma missing_degree_is_max_declared_witness :
  (∃ dom, (<[(None, None) := (Some 0%nat, Some 3)]>
           (<[(Some 0%nat, Some 3) := (Some 0%nat, Some 3)]> ∅) : gmap Element Element)
            !! ((None, None) : Element)
          = Some (reconstruct ((None, None) : Element) dom
                    (_auto_select_degree (form_elements incomplete_form))) ∧
          (domain ((None, None) : Element) = Some dom ∨ domains incomplete_form = [dom])) ∧
  1 ≤ _auto_select_degree (form_elements incomplete_form) ∧
  (∀ e d, e ∈ form_elements incomplete_form → degree e = Some d →
          d ≤ _auto_select_degree (form_elements incomplete_form)) ∧
  (_auto_select_degree (form_elements incomplete_form) = 1 ∨
   ∃ e, e ∈ form_elements incomplete_form ∧
        degree e = Some (_auto_select_degree (form_elements incomplete_form))) ∧
  ((∀ e, e ∈ form_elements incomplete_form → degree e = None) →
   _auto_select_degree (form_elements incomplete_form) = 1).
Proof.
  apply (missing_degree_is_max_declared incomplete_form).
  - by vm_compute.
  - constructor.
  - reflexivity.
Defined.

(** No element declares a degree: the default is 1. *)
Example no_degree_declared :
  _auto_select_degree [((None, None) : Element); (Some 0%nat, None)] = 1 ∧
  _auto_select_degree ([] : list Element) = 1 ∧
  _auto_select_degree [((None, Some 0) : Element); (None, Some (-2))] = 1.
Proof. by vm_compute. Qed.

(** C6 fails as stated: a form with two distinct domains all of whose
    elements have a domain is mapped without error. *)
Lemma two_domains_mapped_without_error :
  domains two_domains_complete = [0%nat; 1%nat] ∧
  ∃ m, _compute_element_mapping two_domains_complete = Return m.
Proof. split; [done|]. eexists. by vm_compute. Qed.

Lemma several_domains_fail_on_missing_domain_witness :
  (_compute_element_mapping two_domains_incomplete = Raise (UFLException missing_domain) ↔
   ∃ e, e ∈ form_elements two_domains_incomplete ∧ domain e = None) ∧
  ((∀ e, e ∈ form_elements two_domains_incomplete → is_Some (domain e)) →
   ∃ m, _compute_element_mapping two_domains_incomplete = Return m).
Proof.
  apply (several_domains_fail_on_missing_domain two_domains_incomplete).
  simpl. lia.
Defined.

Example two_domains_incomplete_fails :
  _compute_element_mapping two_domains_incomplete = Raise (UFLException missing_domain).
Proof. by vm_compute. Qed.

(** The pipeline on the example form: [h], which no integrand mentions, is
    dropped, the others come in the order of their counts; the exterior
    facet integrals over subdomains 3 and 1 give the count 4, the cell
    integral over everything the count 0. *)
Example the_form_data :
  ∃ fd, @compute_form_data _ _ _ _ _ _ _ _ _ _ _ _ _ ascending the_form = Return fd ∧
        reduced_coefficients fd = [f; g; k] ∧
        original_coefficient_positions fd = [0%nat; 1%nat; 3%nat] ∧
        num_sub_domains fd !! "exterior_facet" = Some 4 ∧
        num_sub_domains fd !! "cell" = Some 0 ∧
        num_sub_domains fd !! "interior_facet" = None.
Proof. eexists. split; [by vm_compute|]. by vm_compute. Qed.

(** The same list whichever way the set is iterated and the groups are
    ordered. *)
Example reduced_in_any_order :
  @reduce_coefficients _ _ _ _ _ _ _ _ _ _ _ _ descending
     (map set_integral_coefficients (reverse groups))
  = @reduce_coefficients _ _ _ _ _ _ _ _ _ _ _ _ ascending
     (map set_integral_coefficients groups).
Proof. by vm_compute. Qed.

End FormExamples.

(** * Further properties *)

(** ** The registry *)

Section RegistryInvariants.
Import UflType.
Context `{Common}.

Lemma reachable_counts s :
  reachable s →
  _ufl_num_typecodes_ s = length (_ufl_all_classes_ s) ∧
  (size (_ufl_all_handler_names_ s) ≤ _ufl_num_typecodes_ s)%nat ∧
  length (_ufl_obj_init_counts_ s) = length (_ufl_obj_del_counts_ s) ∧
  (length (_ufl_obj_init_counts_ s) ≤ _ufl_num_typecodes_ s)%nat.
Proof.
  induction 1 as [h rm rp | s t cls Hs IH | s f Hs IH]; simpl; [done | | done].
  destruct IH as (Hc & Hn & Hid & Hi).
  pose proof (reachable_names_bounded _ (reachable_ufl_type s t cls Hs)) as Hn'.
  destruct (ufl_type_effect t cls s)
    as [[(Hcl & _ & Hnum & Hinit & Hdel) _]
       | [((Hcl & _ & Hnum & _) & [Hinit Hdel] & _)
         | ((Hcl & _ & Hnum & _) & [Hinit Hdel] & _)]];
    rewrite Hcl, Hnum, Hinit, Hdel, ?length_app; simpl; split_and!; lia.
Qed.

(** X2.  Whatever registrations were attempted and however they ended, the
    typecodes are as many as the recorded classes, the two instance-count
    lists are equally long, and neither they nor the handler names outnumber
    the typecodes. *)
Theorem reachable_registry_invariant s :
  reachable s →
  _ufl_num_typecodes_ s = length (_ufl_all_classes_ s) ∧
  (size (_ufl_all_handler_names_ s) ≤ _ufl_num_typecodes_ s)%nat ∧
  length (_ufl_obj_init_counts_ s) = length (_ufl_obj_del_counts_ s) ∧
  (length (_ufl_obj_init_counts_ s) ≤ _ufl_num_typecodes_ s)%nat.
Proof. apply reachable_counts. Qed.


End RegistryInvariants.


Section RegistryChecks.
Import UflType.
Context `{Common}.

Ltac norm_state :=
  cbv beta delta [with_heap];
  cbn beta iota delta [heap _ufl_all_classes_ _ufl_all_handler_names_
    _ufl_num_typecodes_ _ufl_language_operators_ _ufl_obj_init_counts_
    _ufl_obj_del_counts_ _ufl_required_methods_ _ufl_required_properties_ id].
Ltac wp_update := apply wp_modify; norm_state.
Ltac wp_read := apply wp_gets; norm_state.

Lemma in_dict_setattr_ne h c name v c' name' :
  name ≠ name' → in_dict (setattr h c name v) c' name' = in_dict h c' name'.
Proof.
  intros Hne. unfold in_dict. rewrite dict_setattr.
  rewrite decide_False by (intros [? ?]; congruence). done.
Qed.

(** X4.  A class that has no [__slots__] of its own, or a base class other than
    [object] without them, and is not marked [_ufl_noslots_], is not
    registered: the decorator raises and leaves the registry as it was. *)
Theorem class_without_slots_is_not_registered t cls s :
  in_dict (heap s) cls "_ufl_noslots_" = false →
  in_dict (heap s) cls "__slots__" = false ∨
  (∃ base, base ∈ removelast (__bases_mro__ (class_of (heap s) cls)) ∧
           in_dict (heap s) base "__slots__" = false) →
  is_return (ufl_type t cls s).2 = false ∧
  registry_untouched s (ufl_type t cls s).1.
Proof.
  intros Hno Hslots.
  change (wp (_ufl_type_decorator_ t cls) s
            (λ s' o, is_return o = false ∧ registry_untouched s s')).
  destruct s as [h cl hn n lo ic dc rm rp]. cbn [heap] in Hno, Hslots.
  unfold _ufl_type_decorator_. wp_update. wp_read. apply wp_lift.
  destruct (check_bases _ _); [|done].
  apply wp_lift.
  assert (Hfail : ∃ e, check_slots (setattr h cls "_ufl_is_abstract_" (VBool (is_abstract t))) cls
                       = Raise e).
  { unfold check_slots. rewrite mro_setattr, !in_dict_setattr_ne by done.
    rewrite Hno. unfold mro. simpl.
    destruct (in_dict h cls "__slots__") eqn:Hown; simpl; [|by eexists].
    destruct Hslots as [? | (base & Hbase & Hb)]; [done|].
    destruct (forallb _ _) eqn:Hall; [|by eexists].
    rewrite forallb_true in Hall. specialize (Hall base Hbase).
    rewrite in_dict_setattr_ne in Hall by done. congruence. }
  destruct Hfail as [e ->]. done.
Qed.

(** X5.  What a registration that returns has stored as [_ufl_num_ops_]: 0 for a
    class registered with [is_terminal=True], something other than [None] for
    a class that is not abstract, and an explicitly given [num_ops] as it
    is. *)
Theorem registered_num_ops t cls s :
  is_return (ufl_type t cls s).2 = true →
  (is_terminal t = Some true →
   getattr (heap (ufl_type t cls s).1) cls "_ufl_num_ops_" = Some (VInt 0)) ∧
  (is_abstract t = false →
   ∃ v, getattr (heap (ufl_type t cls s).1) cls "_ufl_num_ops_" = Some v ∧ v ≠ VNone) ∧
  (∀ n, num_ops t = Some n →
        getattr (heap (ufl_type t cls s).1) cls "_ufl_num_ops_" = Some (VInt n)) ∧
  (num_ops t = None → is_terminal t ≠ Some true → truthy_opt_str (unop t) = true →
   getattr (heap (ufl_type t cls s).1) cls "_ufl_num_ops_" = Some (VInt 1)).
Proof.
  change (wp (_ufl_type_decorator_ t cls) s
            (λ s' o, is_return o = true →
               (is_terminal t = Some true →
                getattr (heap s') cls "_ufl_num_ops_" = Some (VInt 0)) ∧
               (is_abstract t = false →
                ∃ v, getattr (heap s') cls "_ufl_num_ops_" = Some v ∧ v ≠ VNone) ∧
               (∀ n, num_ops t = Some n →
                     getattr (heap s') cls "_ufl_num_ops_" = Some (VInt n)) ∧
               (num_ops t = None → is_terminal t ≠ Some true →
                truthy_opt_str (unop t) = true →
                getattr (heap s') cls "_ufl_num_ops_" = Some (VInt 1)))).
  destruct s as [h cl hn n lo ic dc rm rp].
  unfold _ufl_type_decorator_. wp_update. wp_read. apply wp_lift.
  destruct (check_bases _ _); [|done].
  apply wp_lift. destruct (check_slots _ _); [|done].
  do 3 wp_update. cbv zeta.
  do 2 wp_update. wp_read. do 2 wp_update. wp_read.
  match goal with |- wp (bind (if ?c then _ else _) _) _ _ => destruct c end;
    [by apply wp_raise|].
  apply wp_ret_bind. wp_update. wp_read.
  unfold attr at 1. norm_state. rewrite getattr_setattr_eq. cbn [default].
  match goal with |- wp (bind (set_attr _ _ ?v) _) _ _ => set (ops := v) end.
  assert (Hops :
    (is_terminal t = Some true → ne_zero ops = false → ops = VInt 0) ∧
    (∀ n, num_ops t = Some n → ops = VInt n) ∧
    (num_ops t = None → is_terminal t ≠ Some true → truthy_opt_str (unop t) = true →
     ops = VInt 1)).
  { subst ops. unfold attr. norm_state. rewrite ?getattr_setattr_eq. cbn [default].
    destruct (num_ops t) as [k|]; simpl.
    - split_and!; [|by intros ? [= ->] | done].
      intros _ Hz. apply negb_false_iff, Z.eqb_eq in Hz. by rewrite Hz.
    - split_and!; [by intros Ht _; rewrite Ht | done |].
      intros _ Hterm ->. by destruct (is_terminal t) as [[]|]. }
  clearbody ops.
  wp_update. wp_read.
  match goal with |- wp (bind (if ?c then set_language_operator ?k ?f else _) _) _ _ =>
    generalize c k f; intros has_function key fn end.
  assert (Hrest : ∀ h7,
    getattr h7 cls "_ufl_num_ops_" = Some ops →
    getattr h7 cls "_ufl_is_terminal_" = Some (of_option_bool (is_terminal t)) →
    is_return (Return (A:=cid) cls) = true →
    (negb (is_abstract t) && is_None ops = false) →
    (truthy (of_option_bool (is_terminal t)) && ne_zero ops = false) →
    (is_terminal t = Some true → getattr h7 cls "_ufl_num_ops_" = Some (VInt 0)) ∧
    (is_abstract t = false → ∃ v, getattr h7 cls "_ufl_num_ops_" = Some v ∧ v ≠ VNone) ∧
    (∀ n, num_ops t = Some n → getattr h7 cls "_ufl_num_ops_" = Some (VInt n)) ∧
    (num_ops t = None → is_terminal t ≠ Some true → truthy_opt_str (unop t) = true →
     getattr h7 cls "_ufl_num_ops_" = Some (VInt 1))).
  { intros h7 Hg Hterm _ Hc1 Hc2. destruct Hops as (Ho1 & Ho2 & Ho3).
    rewrite Hg. split_and!.
    - intros Ht. rewrite Ht in Hc2. simpl in Hc2. by rewrite Ho1.
    - intros Ha. rewrite Ha in Hc1. simpl in Hc1. exists ops. split; [done|].
      by destruct ops.
    - intros k Hk. by rewrite (Ho2 k Hk).
    - intros ? ? ?. by rewrite Ho3. }
  match goal with |- wp _ (State ?h0 _ _ _ _ _ _ _ _) _ => set (h7 := h0) end.
  assert (Hg : getattr h7 cls "_ufl_num_ops_" = Some ops)
    by (subst h7; apply getattr_setattr_eq).
  assert (Hterm : getattr h7 cls "_ufl_is_terminal_" = Some (of_option_bool (is_terminal t)))
    by (subst h7; rewrite getattr_setattr_ne by done; apply getattr_setattr_eq).
  clearbody h7.
  destruct has_function; [wp_update | apply wp_ret_bind].
  all: wp_update; wp_read.
  all: apply wp_assert; case_bool_decide; [|done].
  all: apply wp_assert; case_bool_decide; [|done].
  all: apply wp_assert; case_bool_decide; [|done].
  all: apply wp_assert; case_bool_decide; [|done].
  all: unfold attr; cbn [heap]; rewrite Hg, Hterm; unfold default, id.
  all: case_eq (negb (is_abstract t) && is_None ops); intros Hc1; [by apply wp_raise|].
  all: apply wp_ret_bind.
  all: case_eq (truthy (of_option_bool (is_terminal t)) && ne_zero ops); intros Hc2;
    [by apply wp_raise|].
  all: apply wp_ret_bind; apply wp_ret; norm_state; intros Hr.
  all: by apply Hrest.
Qed.

End RegistryChecks.

Section BaseAttr.
Import UflType.

Lemma get_base_attr_loop_None h name bases :
  get_base_attr_loop h name bases = VNone ↔ ∀ base, base ∈ bases → no_value h name base.
Proof.
  induction bases as [|b bases IH]; simpl.
  - split; [by intros _ ? ?%elem_of_nil | done].
  - destruct (getattr h b name) as [v|] eqn:Hb.
    + destruct (is_None v) eqn:Hv.
      * destruct v; try done. rewrite IH. split.
        -- intros Hall base [-> | Hin]%elem_of_cons; [by right | by apply Hall].
        -- intros Hall base Hin. apply Hall. by constructor.
      * split; [by intros -> |]. intros Hall.
        destruct (Hall b) as [Hn | Hn]; [constructor | |]; rewrite Hb in Hn; [done|].
        injection Hn as ->. done.
    + rewrite IH. split.
      * intros Hall base [-> | Hin]%elem_of_cons; [by left | by apply Hall].
      * intros Hall base Hin. apply Hall. by constructor.
Qed.

Lemma get_base_attr_loop_value h name bases v :
  v ≠ VNone →
  get_base_attr_loop h name bases = v ↔
  ∃ l1 base l2, bases = l1 ++ base :: l2 ∧ getattr h base name = Some v ∧
                ∀ b, b ∈ l1 → no_value h name b.
Proof.
  intros Hv. induction bases as [|b bases IH]; simpl.
  - split; [by intros <- |]. intros (l1 & base & l2 & Heq & _). by destruct l1.
  - assert (Hskip : no_value h name b →
      (get_base_attr_loop h name bases = v ↔
       ∃ l1 base l2, b :: bases = l1 ++ base :: l2 ∧ getattr h base name = Some v ∧
                     ∀ b', b' ∈ l1 → no_value h name b')).
    { intros Hb. rewrite IH. split.
      - intros (l1 & base & l2 & -> & Hg & Hall). exists (b :: l1), base, l2.
        split_and!; [done..|]. intros b' [-> | Hin]%elem_of_cons; auto.
      - intros (l1 & base & l2 & Heq & Hg & Hall). destruct l1 as [|b' l1].
        + injection Heq as <- _. destruct Hb as [Hb | Hb]; rewrite Hg in Hb; congruence.
        + injection Heq as <- ->. exists l1, base, l2. split_and!; [done..|].
          intros b' Hin. apply Hall. by constructor. }
    destruct (getattr h b name) as [w|] eqn:Hb; [|apply Hskip; by left].
    destruct (is_None w) eqn:Hw.
    + destruct w; try done. apply Hskip. by right.
    + split.
      * intros ->. exists [], b, bases. split_and!; [done..|]. by intros ? ?%elem_of_nil.
      * intros (l1 & base & l2 & Heq & Hg & Hall). destruct l1 as [|b' l1].
        -- injection Heq as <- _. congruence.
        -- injection Heq as <- _.
           destruct (Hall b) as [Hn | Hn]; [constructor | |]; rewrite Hb in Hn; [done|].
           injection Hn as ->. done.
Qed.

(** X6.  [get_base_attr] returns [None] exactly when every class of the MRO
    lacks the attribute or has it set to [None]; otherwise it returns the
    value that the first class of the MRO with a value other than [None]
    has: in particular the class's own value when that is not [None]. *)
Theorem get_base_attr_first_non_None h cls name :
  (get_base_attr h cls name = VNone ↔ ∀ base, base ∈ mro h cls → no_value h name base) ∧
  (∀ v, v ≠ VNone →
     get_base_attr h cls name = v ↔
     ∃ l1 base l2, mro h cls = l1 ++ base :: l2 ∧ getattr h base name = Some v ∧
                   ∀ b, b ∈ l1 → no_value h name b) ∧
  (∀ v, getattr h cls name = Some v → v ≠ VNone → get_base_attr h cls name = v).
Proof.
  unfold get_base_attr. split_and!.
  - apply get_base_attr_loop_None.
  - intros v Hv. by apply get_base_attr_loop_value.
  - intros v Hg Hv. apply get_base_attr_loop_value; [done|].
    exists [], cls, (__bases_mro__ (class_of h cls)). split_and!; [done..|].
    by intros ? ?%elem_of_nil.
Qed.

End BaseAttr.

Section SecondDecorator.
Import UflType.
Context `{Common}.

Ltac norm_state :=
  cbv beta delta [with_heap];
  cbn beta iota delta [heap _ufl_all_classes_ _ufl_all_handler_names_
    _ufl_num_typecodes_ _ufl_language_operators_ _ufl_obj_init_counts_
    _ufl_obj_del_counts_ _ufl_required_methods_ _ufl_required_properties_ id].
Ltac wp_update := apply wp_modify; norm_state.
Ltac wp_read := apply wp_gets; norm_state.

Lemma wp_bind_assoc {A B C} (m : M A) (f : A → M B) (k : B → M C) s Q :
  wp (bind m (λ x, bind (f x) k)) s Q → wp (bind (bind m f) k) s Q.
Proof. unfold wp, bind. by destruct (m s) as [s' [a|e]]. Qed.

Lemma check_required_methods_errors h cls attrs e :
  check_required_methods h cls attrs = Raise e →
  e = TypeError "Class has no required method." ∨
  e = TypeError "Required method of class is not callable.".
Proof.
  induction attrs as [|a attrs IH]; simpl; [done|].
  destruct (getattr h cls a) as [v|]; [|intros [= <-]; by left].
  destruct (negb (callable v)); [intros [= <-]; by right | done].
Qed.

Lemma check_required_properties_errors h cls attrs e :
  check_required_properties h cls attrs = Raise e →
  e = TypeError "Class has no required property." ∨
  e = TypeError "Required property of class is a callable method.".
Proof.
  induction attrs as [|a attrs IH]; simpl; [done|].
  destruct (getattr h cls a) as [v|]; [|intros [= <-]; by left].
  destruct (callable v); [intros [= <-]; by right | done].
Qed.

Lemma wp_set_opt_attr {B} c name v (k : unit → M B) s Q :
  (∀ s', wp (k tt) s' Q) → wp (bind (set_opt_attr c name v) k) s Q.
Proof.
  intros Hk. unfold set_opt_attr. destruct name as [n|]; [|apply wp_ret_bind, Hk].
  destruct (truthy_opt_str _); [apply wp_modify, Hk | apply wp_ret_bind, Hk].
Qed.

(** X7.  The second decorator never raises its "scalar base class" error: when
    [is_scalar] is false, the [_ufl_is_scalar_] that [get_base_attr] finds
    first is the [False] the decorator has just stored on the class itself. *)
Theorem scalar_base_class_check_never_fires t cls s :
  (uflcore__ufl_type_decorator_ t cls s).2
  ≠ Raise (TypeError "Non-scalar class is has a scalar base class.").
Proof.
  change (wp (uflcore__ufl_type_decorator_ t cls) s
            (λ _ o, o ≠ Raise (TypeError "Non-scalar class is has a scalar base class."))).
  destruct s as [h cl hn n lo ic dc rm rp].
  unfold uflcore__ufl_type_decorator_. wp_update. wp_read.
  assert (Htail : ∀ s',
    wp (let* s := gets id in
        do (if negb (is_abstract t)
            then lift (check_required_methods (heap s) cls (_ufl_required_methods_ s))
            else ret tt) then
        do (if negb (is_abstract t)
            then lift (check_required_properties (heap s) cls (_ufl_required_properties_ s))
            else ret tt) then
        do (match wraps_type t with
            | None => ret tt
            | Some (VClass w) =>
                set_attr Expr ("_ufl_as_" ++ __name__ (class_of (heap s) w) ++ "_")%string
                         (VCallable "_ufl_as_type_")
            | Some _ => raise (TypeError "Expecting a type for the wraps_type argument.")
            end) then
        do set_opt_attr Expr (unop t) (VCallable "_ufl_expr_unop_") then
        do set_opt_attr Expr (binop t) (VCallable "_ufl_expr_binop_") then
        do set_opt_attr Expr (rbinop t) (VCallable "_ufl_expr_rbinop_") then
        ret cls) s'
       (λ _ o, o ≠ Raise (TypeError "Non-scalar class is has a scalar base class."))).
  { intros s'. wp_read.
    assert (Hopt : ∀ s'',
      wp (do set_opt_attr Expr (unop t) (VCallable "_ufl_expr_unop_") then
          do set_opt_attr Expr (binop t) (VCallable "_ufl_expr_binop_") then
          do set_opt_attr Expr (rbinop t) (VCallable "_ufl_expr_rbinop_") then
          ret cls) s''
         (λ _ o, o ≠ Raise (TypeError "Non-scalar class is has a scalar base class."))).
    { intros s''. apply wp_set_opt_attr. intros s1. apply wp_set_opt_attr. intros s2.
      apply wp_set_opt_attr. intros s3. by apply wp_ret. }
    assert (Hwraps : ∀ s'',
      wp (do (match wraps_type t with
            | None => ret tt
            | Some (VClass w) =>
                set_attr Expr ("_ufl_as_" ++ __name__ (class_of (heap s') w) ++ "_")%string
                         (VCallable "_ufl_as_type_")
            | Some _ => raise (TypeError "Expecting a type for the wraps_type argument.")
            end) then
          do set_opt_attr Expr (unop t) (VCallable "_ufl_expr_unop_") then
          do set_opt_attr Expr (binop t) (VCallable "_ufl_expr_binop_") then
          do set_opt_attr Expr (rbinop t) (VCallable "_ufl_expr_rbinop_") then
          ret cls) s''
         (λ _ o, o ≠ Raise (TypeError "Non-scalar class is has a scalar base class."))).
    { intros s''. destruct (wraps_type t) as [[]|];
        first [by apply wp_raise | apply wp_modify, Hopt | apply wp_ret_bind, Hopt]. }
    assert (Hprops : ∀ s'',
      wp (do (if negb (is_abstract t)
            then lift (check_required_properties (heap s') cls (_ufl_required_properties_ s'))
            else ret tt) then
          do (match wraps_type t with
            | None => ret tt
            | Some (VClass w) =>
                set_attr Expr ("_ufl_as_" ++ __name__ (class_of (heap s') w) ++ "_")%string
                         (VCallable "_ufl_as_type_")
            | Some _ => raise (TypeError "Expecting a type for the wraps_type argument.")
            end) then
          do set_opt_attr Expr (unop t) (VCallable "_ufl_expr_unop_") then
          do set_opt_attr Expr (binop t) (VCallable "_ufl_expr_binop_") then
          do set_opt_attr Expr (rbinop t) (VCallable "_ufl_expr_rbinop_") then
          ret cls) s''
         (λ _ o, o ≠ Raise (TypeError "Non-scalar class is has a scalar base class."))).
    { intros s''. destruct (negb (is_abstract t)); [|apply wp_ret_bind, Hwraps].
      apply wp_lift. destruct (check_required_properties _ _ _) as [[]|e] eqn:He;
        [apply Hwraps|].
      by destruct (check_required_properties_errors _ _ _ _ He) as [-> | ->]. }
    destruct (negb (is_abstract t)); [|apply wp_ret_bind, Hprops].
    apply wp_lift. destruct (check_required_methods _ _ _) as [[]|e] eqn:He;
      [apply Hprops|].
    by destruct (check_required_methods_errors _ _ _ _ He) as [-> | ->]. }
  destruct (is_scalar t).
  - apply wp_bind_assoc. wp_update. apply wp_bind_assoc. wp_update. wp_update.
    apply Htail.
  - assert (Hown : get_base_attr (setattr h cls "_ufl_is_scalar_" (VBool false)) cls
                     "_ufl_is_scalar_" = VBool false).
    { unfold get_base_attr, mro. simpl. by rewrite getattr_setattr_eq. }
    rewrite Hown. simpl. apply wp_ret_bind, Htail.
Qed.

End SecondDecorator.

Section RegistryExtrasExamples.
Import UflType World.

Lemma terminal_unspecified_exactly_witness :
  (run default_traits Terminal start).2 = Raise (TypeError terminal_unspecified)
  ↔ is_terminal default_traits = None
    ∧ get_base_attr (heap start) Terminal "_ufl_is_terminal_" = VNone.
Proof.
  apply (@terminal_unspecified_exactly CommonModel.common default_traits Terminal start);
    by vm_compute.
Defined.

Lemma reachable_registry_invariant_witness :
  _ufl_num_typecodes_ Sloppy.half_registered
    = length (_ufl_all_classes_ Sloppy.half_registered) ∧
  (size (_ufl_all_handler_names_ Sloppy.half_registered)
   ≤ _ufl_num_typecodes_ Sloppy.half_registered)%nat ∧
  length (_ufl_obj_init_counts_ Sloppy.half_registered)
    = length (_ufl_obj_del_counts_ Sloppy.half_registered) ∧
  (length (_ufl_obj_init_counts_ Sloppy.half_registered)
   ≤ _ufl_num_typecodes_ Sloppy.half_registered)%nat.
Proof.
  apply (@reachable_registry_invariant CommonModel.common).
  apply (@reachable_ufl_type CommonModel.common), reachable_initial.
Defined.


Lemma class_without_slots_is_not_registered_witness :
  is_return (run abstract_terminal Sloppy.NoSlots Sloppy.start).2 = false ∧
  registry_untouched Sloppy.start (run abstract_terminal Sloppy.NoSlots Sloppy.start).1.
Proof.
  apply (@class_without_slots_is_not_registered CommonModel.common);
    [by vm_compute | left; by vm_compute].
Defined.

Lemma registered_num_ops_witness :
  (is_terminal abstract_terminal = Some true →
   getattr (heap (run abstract_terminal Terminal start).1) Terminal "_ufl_num_ops_"
   = Some (VInt 0)) ∧
  (is_abstract abstract_terminal = false →
   ∃ v, getattr (heap (run abstract_terminal Terminal start).1) Terminal "_ufl_num_ops_"
        = Some v ∧ v ≠ VNone) ∧
  (∀ n, num_ops abstract_terminal = Some n →
   getattr (heap (run abstract_terminal Terminal start).1) Terminal "_ufl_num_ops_"
   = Some (VInt n)) ∧
  (num_ops abstract_terminal = None → is_terminal abstract_terminal ≠ Some true →
   truthy_opt_str (unop abstract_terminal) = true →
   getattr (heap (run abstract_terminal Terminal start).1) Terminal "_ufl_num_ops_"
   = Some (VInt 1)).
Proof.
  apply (@registered_num_ops CommonModel.common abstract_terminal Terminal start).
  by vm_compute.
Defined.

End RegistryExtrasExamples.

Section RegistryFrame.
Import UflType.
Context `{Common}.

Ltac norm_state :=
  cbv beta delta [with_heap];
  cbn beta iota delta [heap _ufl_all_classes_ _ufl_all_handler_names_
    _ufl_num_typecodes_ _ufl_language_operators_ _ufl_obj_init_counts_
    _ufl_obj_del_counts_ _ufl_required_methods_ _ufl_required_properties_ id].
Ltac wp_update := apply wp_modify; norm_state.
Ltac wp_read := apply wp_gets; norm_state.

Lemma lookup_setattr_ne h c name v c' : c' ≠ c → setattr h c name v !! c' = h !! c'.
Proof. intros Hne. unfold setattr. by rewrite lookup_insert_ne. Qed.

(** X8.  The decorator writes to the class it is applied to and to the registry,
    and to nothing else: every other class object is as it was, so are the
    two tuples of required attribute names, and the table of language
    operators changes at most under the handler name of the class, and not at
    all for an abstract class. *)
Theorem ufl_type_writes_only_its_class t cls s :
  (∀ c, c ≠ cls → heap (ufl_type t cls s).1 !! c = heap s !! c) ∧
  _ufl_required_methods_ (ufl_type t cls s).1 = _ufl_required_methods_ s ∧
  _ufl_required_properties_ (ufl_type t cls s).1 = _ufl_required_properties_ s ∧
  (∀ k, k ≠ handler_name_of s cls →
        _ufl_language_operators_ (ufl_type t cls s).1 !! k
        = _ufl_language_operators_ s !! k) ∧
  (is_abstract t = true →
   _ufl_language_operators_ (ufl_type t cls s).1 = _ufl_language_operators_ s).
Proof.
  change (wp (_ufl_type_decorator_ t cls) s (λ s' _,
    (∀ c, c ≠ cls → heap s' !! c = heap s !! c) ∧
    _ufl_required_methods_ s' = _ufl_required_methods_ s ∧
    _ufl_required_properties_ s' = _ufl_required_properties_ s ∧
    (∀ k, k ≠ handler_name_of s cls →
          _ufl_language_operators_ s' !! k = _ufl_language_operators_ s !! k) ∧
    (is_abstract t = true → _ufl_language_operators_ s' = _ufl_language_operators_ s))).
  destruct s as [h cl hn n lo ic dc rm rp].
  assert (Hframe : ∀ h' cl' hn' n' lo' ic' dc',
    (∀ c, c ≠ cls → h' !! c = h !! c) →
    (∀ k, k ≠ handler_name_of (State h cl hn n lo ic dc rm rp) cls → lo' !! k = lo !! k) →
    (is_abstract t = true → lo' = lo) →
    (∀ c, c ≠ cls → heap (State h' cl' hn' n' lo' ic' dc' rm rp) !! c
                    = heap (State h cl hn n lo ic dc rm rp) !! c) ∧
    _ufl_required_methods_ (State h' cl' hn' n' lo' ic' dc' rm rp)
      = _ufl_required_methods_ (State h cl hn n lo ic dc rm rp) ∧
    _ufl_required_properties_ (State h' cl' hn' n' lo' ic' dc' rm rp)
      = _ufl_required_properties_ (State h cl hn n lo ic dc rm rp) ∧
    (∀ k, k ≠ handler_name_of (State h cl hn n lo ic dc rm rp) cls →
          _ufl_language_operators_ (State h' cl' hn' n' lo' ic' dc' rm rp) !! k
          = _ufl_language_operators_ (State h cl hn n lo ic dc rm rp) !! k) ∧
    (is_abstract t = true →
     _ufl_language_operators_ (State h' cl' hn' n' lo' ic' dc' rm rp)
     = _ufl_language_operators_ (State h cl hn n lo ic dc rm rp))).
  { intros. by split_and!. }
  unfold _ufl_type_decorator_. wp_update. wp_read. apply wp_lift.
  destruct (check_bases _ _);
    [|apply Hframe; [intros c Hc; by rewrite lookup_setattr_ne | done..]].
  apply wp_lift.
  destruct (check_slots _ _);
    [|apply Hframe; [intros c Hc; by rewrite lookup_setattr_ne | done..]].
  do 3 wp_update. cbv zeta.
  do 2 wp_update. wp_read. do 2 wp_update. wp_read.
  match goal with |- wp (bind (if ?c then _ else _) _) _ _ => destruct c end.
  { apply wp_raise. apply Hframe; [|done..].
    intros c Hc. by repeat (rewrite lookup_setattr_ne by done). }
  apply wp_ret_bind. wp_update. wp_read.
  match goal with |- wp (bind (set_attr _ _ ?v) _) _ _ => generalize v; intros ops end.
  wp_update. wp_read.
  unfold attr at 1. norm_state.
  repeat (rewrite (getattr_setattr_ne _ _ _ _ _ "_ufl_handler_name_") by done).
  rewrite getattr_setattr_eq, name_setattr. cbn [default].
  match goal with |- wp (bind (if negb _ && ?c then set_language_operator _ ?f else _) _) _ _ =>
    generalize c f; intros has_function fn end.
  match goal with |- wp _ (State ?h0 _ _ _ _ _ _ _ _) _ => set (h7 := h0) end.
  assert (Hh7 : ∀ c, c ≠ cls → h7 !! c = h !! c).
  { intros c Hc. subst h7. by repeat (rewrite lookup_setattr_ne by done). }
  clearbody h7.
  assert (Hrest : ∀ lo',
    (∀ k, k ≠ handler_name_of (State h cl hn n lo ic dc rm rp) cls → lo' !! k = lo !! k) →
    (is_abstract t = true → lo' = lo) →
    (∀ c, c ≠ cls → h7 !! c = h !! c) ∧
    rm = rm ∧ rp = rp ∧
    (∀ k, k ≠ handler_name_of (State h cl hn n lo ic dc rm rp) cls → lo' !! k = lo !! k) ∧
    (is_abstract t = true → lo' = lo)).
  { intros lo' Hk Ha. by split_and!. }
  assert (Hlo : ∀ b fn',
    (∀ k, k ≠ handler_name_of (State h cl hn n lo ic dc rm rp) cls →
      (if negb (is_abstract t) && b
       then <[camel2underscore (__name__ (class_of h cls)) := fn']> lo else lo) !! k
      = lo !! k) ∧
    (is_abstract t = true →
      (if negb (is_abstract t) && b
       then <[camel2underscore (__name__ (class_of h cls)) := fn']> lo else lo) = lo)).
  { intros b fn'. split.
    - intros k Hk. destruct (negb (is_abstract t) && b); [|done].
      rewrite lookup_insert_ne; [done|]. intros Heq. by apply Hk.
    - by intros ->. }
  destruct (Hlo has_function fn) as [Hk Ha].
  destruct (negb (is_abstract t) && has_function); [wp_update | apply wp_ret_bind].
  all: wp_update; wp_read.
  all: apply wp_assert; case_bool_decide; [|by apply Hrest].
  all: apply wp_assert; case_bool_decide; [|by apply Hrest].
  all: apply wp_assert; case_bool_decide; [|by apply Hrest].
  all: apply wp_assert; case_bool_decide; [|by apply Hrest].
  all: match goal with |- wp (bind (if ?c then _ else _) _) _ _ => destruct c end;
    [apply wp_raise; by apply Hrest | apply wp_ret_bind].
  all: match goal with |- wp (bind (if ?c then _ else _) _) _ _ => destruct c end;
    [apply wp_raise; by apply Hrest | apply wp_ret_bind].
  all: apply wp_ret; by apply Hrest.
Qed.

End RegistryFrame.

(** ** Index tuples *)

Section IndexTuples.
Import Indexing.

Lemma as_index_not_Ellipsis u i : as_index u = Return i → is_Ellipsis u = false.
Proof. by destruct u. Qed.

Lemma as_index_tuple_loop_converts items : ∀ converted pre post,
  Forall2 (λ u i, as_index u = Return i) items converted →
  as_index_tuple_loop items pre post false = Return (pre, post ++ converted).
Proof.
  induction items as [|u items IH]; intros converted pre post Hconv.
  - inversion Hconv; subst. simpl. by rewrite app_nil_r.
  - inversion Hconv as [|? i ? conv Hu Hrest]; subst. simpl.
    rewrite (as_index_not_Ellipsis u i Hu), Hu. simpl.
    rewrite (IH conv pre (post ++ [i]) Hrest). by rewrite <- app_assoc.
Qed.

Lemma as_index_tuple_loop_stops good : ∀ u rest e pre post,
  Forall (λ u, is_return (as_index u) = true) good →
  as_index u = Raise e →
  as_index_tuple_loop (good ++ u :: rest) pre post false
  = Raise (if is_Ellipsis u then UFLException "Found duplicate ellipsis." else e).
Proof.
  induction good as [|g good IH]; intros u rest e pre post Hgood Hu; simpl.
  - destruct (is_Ellipsis u); simpl; [done|]. by rewrite Hu.
  - inversion Hgood as [|? ? Hg Hrest]; subst.
    destruct (as_index g) as [i|] eqn:Hi; [|done].
    rewrite (as_index_not_Ellipsis g i Hi). simpl. by apply IH.
Qed.

(** X9.  [as_index_tuple] returns exactly when [as_index] converts every entry,
    and what it returns is the converted entries, in order, behind
    [rank - n] copies of [Axis] (none when the tuple has [rank] entries or
    more): the padding goes in front. *)
Theorem as_index_tuple_pads_in_front indices rank t :
  as_index_tuple indices rank = Return t ↔
  ∃ converted,
    Forall2 (λ u i, as_index u = Return i) (as_tuple indices) converted ∧
    t = axes (rank - Z.of_nat (length converted)) ++ converted.
Proof.
  unfold as_index_tuple. split.
  - destruct (as_index_tuple_loop _ _ _ _) as [[pre post]|e] eqn:Hloop; [|done].
    simpl. intros [= <-].
    destruct (as_index_tuple_loop_not_found _ _ _ _ _ Hloop) as (-> & conv & Hconv & ->).
    exists conv. split; [done|]. simpl. do 2 f_equal. lia.
  - intros (conv & Hconv & ->).
    rewrite (as_index_tuple_loop_converts _ conv [] [] Hconv). simpl.
    do 3 f_equal. lia.
Qed.

(** X10.  [as_index_tuple] fails at the first entry that [as_index] does not
    convert, with the error of [as_index]; at an [Ellipsis] the error is
    "Found duplicate ellipsis.", also when it is the only one. *)
Theorem as_index_tuple_fails_at_first_bad_entry indices rank good u rest e :
  as_tuple indices = good ++ u :: rest →
  Forall (λ u, is_return (as_index u) = true) good →
  as_index u = Raise e →
  as_index_tuple indices rank
  = Raise (if is_Ellipsis u then UFLException "Found duplicate ellipsis." else e).
Proof.
  intros Heq Hgood Hu. unfold as_index_tuple.
  by rewrite Heq, (as_index_tuple_loop_stops good u rest e [] [] Hgood Hu).
Qed.

Lemma as_index_tuple_fails_at_first_bad_entry_witness :
  as_index_tuple (Tuple [UInt 0; UEllipsis; UOther "x"]) 3
  = Raise (if is_Ellipsis UEllipsis then UFLException "Found duplicate ellipsis."
           else UFLException "Can convert this object to index").
Proof.
  apply (as_index_tuple_fails_at_first_bad_entry _ 3 [UInt 0] UEllipsis [UOther "x"]).
  - reflexivity.
  - by repeat constructor.
  - reflexivity.
Defined.

End IndexTuples.

Section ExtractIndices.
Import Indexing.

Implicit Types entries : list entry.

Lemma index_count_entries entries : ∀ (m : gmap Index nat) i,
  default 0%nat (fold_left count_index entries m !! i)
  = (default 0%nat (m !! i) + occurrences i (index_objects entries))%nat.
Proof.
  induction entries as [|x entries IH]; intros m i; simpl.
  - unfold occurrences. simpl. lia.
  - rewrite IH. destruct x as [[j| |]| |]; simpl; rewrite ?occurrences_cons.
    + destruct (decide (AnIndex j = AnIndex i)) as [[= ->]|Hne].
      * rewrite lookup_insert_eq. simpl. lia.
      * rewrite lookup_insert_ne by congruence. done.
    + by rewrite decide_False.
    + by rewrite decide_False.
    + done.
    + done.
Qed.

(** Every count the dictionary holds is positive. *)
Lemma index_count_positive entries : ∀ (m : gmap Index nat),
  (∀ i n, m !! i = Some n → (0 < n)%nat) →
  ∀ i n, fold_left count_index entries m !! i = Some n → (0 < n)%nat.
Proof.
  induction entries as [|x entries IH]; intros m Hm; simpl; [done|].
  apply IH. intros i n. destruct x as [[j| |]| |]; simpl; try apply Hm.
  destruct (decide (j = i)) as [->|Hne].
  - rewrite lookup_insert_eq. intros [= <-]. lia.
  - rewrite lookup_insert_ne by done. apply Hm.
Qed.

Lemma index_count_lookup entries i n :
  (0 < n)%nat →
  fold_left count_index entries ∅ !! i = Some n ↔ occurrences i (index_objects entries) = n.
Proof.
  intros Hn. pose proof (index_count_entries entries ∅ i) as Hc.
  rewrite lookup_empty in Hc. cbn [default from_option id] in Hc. split.
  - intros Hl. rewrite Hl in Hc. cbn [default from_option id] in Hc. lia.
  - intros Ho. rewrite Ho in Hc.
    destruct (fold_left count_index entries ∅ !! i) as [k|] eqn:Hk;
      cbn [default from_option id] in Hc; [f_equal; lia | lia].
Qed.

Lemma total_Permutation l1 l2 : l1 ≡ₚ l2 → total l1 = total l2.
Proof. intros Hp. unfold total. by rewrite Hp. Qed.

Lemma total_count_index (m : gmap Index nat) x :
  total (map_to_list (count_index m x))
  = (total (map_to_list m) + match x with Proper (AnIndex _) => 1 | _ => 0 end)%nat.
Proof.
  destruct x as [[j| |]| |]; simpl; try lia.
  destruct (m !! j) as [n|] eqn:Hj; simpl.
  - rewrite <- (insert_delete_eq m j (S n)).
    rewrite (total_Permutation _ _ (map_to_list_insert (delete j m) j (S n)
                                      (lookup_delete_eq m j))).
    rewrite <- (total_Permutation _ _ (map_to_list_delete m j n Hj)).
    unfold total. rewrite !fmap_cons. cbn [sum_list_with snd]. unfold id. lia.
  - rewrite (total_Permutation _ _ (map_to_list_insert m j 1%nat Hj)).
    unfold total. rewrite !fmap_cons. cbn [sum_list_with snd]. unfold id. lia.
Qed.

Lemma total_index_count entries : ∀ (m : gmap Index nat),
  total (map_to_list (fold_left count_index entries m))
  = (total (map_to_list m) + length (filter (λ e, is_Index e = true) entries))%nat.
Proof.
  induction entries as [|x entries IH]; intros m; simpl; [lia|].
  rewrite IH, total_count_index, filter_cons.
  destruct x as [[j| |]| |]; simpl; lia.
Qed.

Lemma filter_keys_by_count (m : gmap Index nat) c (l : list (Index * nat)) :
  (∀ p, p ∈ l → m !! p.1 = Some p.2) →
  filter (λ i, m !! i = Some c) (l.*1) = (filter (λ p, p.2 = c) l).*1.
Proof.
  induction l as [|p l IH]; intros Hl; [done|].
  rewrite fmap_cons, !filter_cons, IH by (intros q Hq; apply Hl; by constructor).
  rewrite (Hl p) by constructor.
  destruct (decide (Some p.2 = Some c)) as [[= Heq]|Hne].
  - by rewrite decide_True.
  - rewrite decide_False; [done | congruence].
Qed.

Lemma total_ones_and_twos (l : list (Index * nat)) :
  (∀ p, p ∈ l → (0 < p.2 ≤ 2)%nat) →
  total l = (length (filter (λ p, p.2 = 1%nat) l)
             + 2 * length (filter (λ p, p.2 = 2%nat) l))%nat.
Proof.
  induction l as [|p l IH]; intros Hl; [done|].
  specialize (IH ltac:(intros q Hq; apply Hl; by constructor)).
  pose proof (Hl p ltac:(constructor)) as Hp.
  unfold total in *. rewrite fmap_cons, !filter_cons. cbn [sum_list_with].
  unfold id at 1. rewrite IH.
  destruct (decide (p.2 = 1%nat)) as [H1|H1], (decide (p.2 = 2%nat)) as [H2|H2];
    simpl; lia.
Qed.

Lemma lookup_enumerate {A} (l : list A) : ∀ j k x,
  (k, x) ∈ zip (seq j (length l)) l ↔ (j ≤ k)%nat ∧ l !! (k - j)%nat = Some x.
Proof.
  induction l as [|a l IH]; intros j k x; simpl.
  - split; [by intros ?%elem_of_nil | by intros [_ ?]].
  - rewrite elem_of_cons, IH. split.
    + intros [[= -> ->] | [Hle Hl]].
      * split; [lia|]. by rewrite Nat.sub_diag.
      * split; [lia|]. by replace (k - j)%nat with (S (k - S j)) by lia.
    + intros [Hle Hl]. destruct (decide (k = j)) as [->|Hne].
      * left. rewrite Nat.sub_diag in Hl. simpl in Hl. congruence.
      * right. split; [lia|]. by replace (k - j)%nat with (S (k - S j)) in Hl by lia.
Qed.

Lemma length_fixed entries : ∀ j,
  length (omap (λ p : nat * entry,
                  match p.2 with Proper (AFixedIndex f) => Some (p.1, f) | _ => None end)
               (zip (seq j (length entries)) entries))
  = length (filter (λ e, is_FixedIndex e = true) entries).
Proof.
  induction entries as [|x entries IH]; intros j; simpl; [done|].
  rewrite filter_cons. destruct x as [[i|f|]| |]; simpl; by rewrite IH.
Qed.

(** Every entry is a fixed index, an index, the [Axis] object, another
    [AxisType] instance, or something else. *)
Lemma entries_partition entries :
  (length (filter (λ e, is_FixedIndex e = true) entries)
   + length (filter (λ e, is_Index e = true) entries)
   + length (filter (λ e, e = Proper Axis) entries)
   + length (filter (λ e, e = OtherAxisInstance) entries)
   + length (filter (λ e, e = Improper) entries))%nat
  = length entries.
Proof.
  induction entries as [|x entries IH]; [done|]. rewrite !filter_cons.
  destruct x as [[i|f|]| |]; simpl; lia.
Qed.

End ExtractIndices.

Section ExtractIndicesTheorems.
Import Indexing.

Implicit Types entries : list entry.

Lemma improper_entry entries : forallb is_proper entries = true ↔ Improper ∉ entries.
Proof.
  rewrite forallb_true. split.
  - intros Hall Hin. by specialize (Hall _ Hin).
  - intros Hno e He. destruct e; try done.
Qed.

Lemma counts_at_most_two entries :
  forallb (λ p : Index * nat, (p.2 <=? 2)%nat)
          (map_to_list (fold_left count_index entries ∅)) = true
  ↔ ∀ i, (occurrences i (index_objects entries) ≤ 2)%nat.
Proof.
  rewrite forallb_true. split.
  - intros Hall i. pose proof (index_count_entries entries ∅ i) as Hc.
    rewrite lookup_empty in Hc. cbn [default from_option id] in Hc.
    destruct (fold_left count_index entries ∅ !! i) as [n|] eqn:Hn;
      cbn [default from_option id] in Hc; [|lia].
    apply elem_of_map_to_list in Hn. specialize (Hall _ Hn). simpl in Hall.
    apply Nat.leb_le in Hall. lia.
  - intros Hall [i n] Hin. apply elem_of_map_to_list in Hin. simpl.
    apply Nat.leb_le.
    pose proof (index_count_entries entries ∅ i) as Hc.
    rewrite Hin, lookup_empty in Hc. cbn [default from_option id] in Hc.
    specialize (Hall i). lia.
Qed.

Lemma length_filter_zero {A} (P : A → Prop) `{∀ x, Decision (P x)} (l : list A) :
  length (filter P l) = 0%nat ↔ ∀ x, x ∈ l → ¬ P x.
Proof.
  induction l as [|a l IH]; [split; [by intros _ ? ?%elem_of_nil | done]|].
  rewrite filter_cons. destruct (decide (P a)) as [Ha|Ha]; simpl.
  - split; [done|]. intros Hall. destruct (Hall a); [constructor | done].
  - rewrite IH. split.
    + intros Hall x [-> | Hx]%elem_of_cons; auto.
    + intros Hall x Hx. apply Hall. by constructor.
Qed.

(** The four lengths that [extract_indices] adds up fall short of the
    length of the tuple by the number of [AxisType] instances other than
    [Axis]. *)
Lemma lengths_add_up entries :
  Improper ∉ entries →
  (∀ i, (occurrences i (index_objects entries) ≤ 2)%nat) →
  let index_count := fold_left count_index entries ∅ in
  let unique_indices := (map_to_list index_count).*1 in
  (length (omap (λ p : nat * entry,
                   match p.2 with Proper (AFixedIndex f) => Some (p.1, f) | _ => None end)
                (enumerate entries))
   + length (filter (λ i, index_count !! i = Some 1%nat) unique_indices)
   + 2 * length (filter (λ i, index_count !! i = Some 2%nat) unique_indices)
   + length (filter (λ e, e = Proper Axis) entries)
   + length (filter (λ e, e = OtherAxisInstance) entries))%nat
  = length entries.
Proof.
  intros Hproper Htwo index_count unique_indices.
  unfold enumerate. rewrite length_fixed.
  subst unique_indices.
  rewrite !filter_keys_by_count, !length_fmap
    by (intros [i n] Hin; by apply elem_of_map_to_list in Hin).
  pose proof (total_index_count entries ∅) as Htotal.
  rewrite map_to_list_empty in Htotal. unfold total at 2 in Htotal. simpl in Htotal.
  rewrite total_ones_and_twos in Htotal.
  - pose proof (entries_partition entries) as Hpart.
    assert (Hnone : length (filter (λ e, e = Improper) entries) = 0%nat).
    { apply length_filter_zero. by intros x Hx ->. }
    fold index_count in Htotal. lia.
  - intros [i n] Hin. apply elem_of_map_to_list in Hin. simpl. split.
    + eapply (index_count_positive entries ∅);
        [intros ? ? Hx; by rewrite lookup_empty in Hx | exact Hin].
    + apply (proj2 (counts_at_most_two entries)) in Htwo.
      rewrite forallb_true in Htwo.
      apply Nat.leb_le, (Htwo (i, n)). by apply elem_of_map_to_list.
Qed.

Lemma extract_indices_unfold entries :
  extract_indices (ATuple entries) =
  let index_count := fold_left count_index entries ∅ in
  let unique_indices := (map_to_list index_count).*1 in
  let fixed_indices :=
    omap (λ p : nat * entry,
            match p.2 with Proper (AFixedIndex f) => Some (p.1, f) | _ => None end)
         (enumerate entries) in
  let free_indices := filter (λ i, index_count !! i = Some 1%nat) unique_indices in
  let repeated_indices := filter (λ i, index_count !! i = Some 2%nat) unique_indices in
  let num_unassigned_indices := length (filter (λ e, e = Proper Axis) entries) in
  if negb (forallb is_proper entries)
  then Raise (UFLException "Expecting proper UFL objects.")
  else if negb (forallb (λ p : Index * nat, (p.2 <=? 2)%nat) (map_to_list index_count))
  then Raise (UFLException too_many)
  else if negb (bool_decide (length fixed_indices + length free_indices
                             + 2 * length repeated_indices + num_unassigned_indices
                             = length entries)%nat)
  then Raise (UFLException "Logic breach in extract_indices.")
  else Return (fixed_indices, free_indices, repeated_indices, num_unassigned_indices).
Proof.
  unfold extract_indices. cbv zeta.
  destruct (forallb is_proper entries); simpl; [|done].
  destruct (forallb _ (map_to_list _)); simpl; [|done].
  by destruct (bool_decide _).
Qed.

(** X11.  How [extract_indices] ends on a tuple: with "Expecting proper UFL
    objects." exactly when some entry is no index object; otherwise with "Too
    many index repetitions" exactly when some [Index] occurs more than twice;
    otherwise with "Logic breach in extract_indices." exactly when some entry
    is an [AxisType] instance other than [Axis] (it is counted nowhere); and
    it returns in the remaining case. *)
Theorem extract_indices_outcome entries :
  (extract_indices (ATuple entries) = Raise (UFLException "Expecting proper UFL objects.")
   ↔ Improper ∈ entries) ∧
  (extract_indices (ATuple entries) = Raise (UFLException too_many)
   ↔ (Improper ∉ entries) ∧ ∃ i, (2 < occurrences i (index_objects entries))%nat) ∧
  (extract_indices (ATuple entries) = Raise (UFLException "Logic breach in extract_indices.")
   ↔ (Improper ∉ entries) ∧ (∀ i, (occurrences i (index_objects entries) ≤ 2)%nat) ∧
     OtherAxisInstance ∈ entries) ∧
  (is_return (extract_indices (ATuple entries)) = true
   ↔ (Improper ∉ entries) ∧ (∀ i, (occurrences i (index_objects entries) ≤ 2)%nat) ∧
     OtherAxisInstance ∉ entries).
Proof.
  rewrite extract_indices_unfold. cbv zeta.
  pose proof (improper_entry entries) as Hproper.
  pose proof (counts_at_most_two entries) as Htwo.
  pose proof (lengths_add_up entries) as Hsum. cbv zeta in Hsum.
  destruct (forallb is_proper entries); simpl.
  2: { assert (Hin : Improper ∈ entries).
       { destruct (decide (Improper ∈ entries)) as [|Hno]; [done|].
         by apply Hproper in Hno. }
       split_and!; split; try done; intros [Hno _]; done. }
  assert (Hno : Improper ∉ entries) by (by apply Hproper).
  destruct (forallb _ (map_to_list _)); simpl.
  2: { assert (Hmany : ∃ i, (2 < occurrences i (index_objects entries))%nat).
       { destruct (decide (Forall (λ i, (occurrences i (index_objects entries) ≤ 2)%nat)
                             (map_to_list (fold_left count_index entries ∅)).*1))
           as [Hall|Hex].
         - assert (Hle : ∀ i, (occurrences i (index_objects entries) ≤ 2)%nat).
           { intros i. destruct (decide (i ∈ (map_to_list (fold_left count_index entries ∅)).*1))
               as [Hi|Hi].
             - rewrite Forall_forall in Hall. by apply Hall.
             - pose proof (index_count_entries entries ∅ i) as Hc.
               rewrite lookup_empty in Hc. cbn [default from_option id] in Hc.
               destruct (fold_left count_index entries ∅ !! i) as [n|] eqn:Hn;
                 cbn [default from_option id] in Hc; [|lia].
               exfalso. apply Hi. apply list_elem_of_fmap. exists (i, n).
               split; [done|]. by apply elem_of_map_to_list. }
           by apply Htwo in Hle.
         - apply not_Forall_Exists in Hex; [|apply _].
           apply Exists_exists in Hex as (i & _ & Hi). exists i. simpl in Hi. lia. }
       split_and!; split; try done.
       - intros (_ & Hle & _). destruct Hmany as [i Hi]. specialize (Hle i). lia.
       - intros (_ & Hle & _). destruct Hmany as [i Hi]. specialize (Hle i). lia. }
  assert (Hle : ∀ i, (occurrences i (index_objects entries) ≤ 2)%nat) by (by apply Htwo).
  specialize (Hsum Hno Hle).
  case_bool_decide as Hb; simpl.
  - assert (Hother : OtherAxisInstance ∉ entries).
    { assert (Hz : length (filter (λ e, e = OtherAxisInstance) entries) = 0%nat) by lia.
      intros Hin. by apply (proj1 (length_filter_zero _ _) Hz _ Hin). }
    split_and!; split; try done.
    + intros [_ [i Hi]]. specialize (Hle i). lia.
    + by intros (_ & _ & ?).
  - assert (Hother : OtherAxisInstance ∈ entries).
    { destruct (decide (OtherAxisInstance ∈ entries)) as [|Hnot]; [done|]. exfalso.
      assert (Hz : length (filter (λ e, e = OtherAxisInstance) entries) = 0%nat).
      { apply length_filter_zero. by intros x Hx ->. }
      apply Hb. lia. }
    split_and!; split; try done.
    + intros [_ [i Hi]]. specialize (Hle i). lia.
    + by intros (_ & _ & ?).
Qed.

(** X12.  What [extract_indices] returns: the positions and values of the
    [FixedIndex] entries, the [Index] objects that occur once, those that
    occur twice, neither with repetitions, and the number of [Axis] entries;
    the four numbers account for every entry of the tuple. *)
Theorem extract_indices_result entries fixed free repeated n :
  extract_indices (ATuple entries) = Return (fixed, free, repeated, n) →
  (∀ k f, (k, f) ∈ fixed ↔ entries !! k = Some (Proper (AFixedIndex f))) ∧
  (∀ i, i ∈ free ↔ occurrences i (index_objects entries) = 1%nat) ∧
  (∀ i, i ∈ repeated ↔ occurrences i (index_objects entries) = 2%nat) ∧
  NoDup free ∧ NoDup repeated ∧
  n = length (filter (λ e, e = Proper Axis) entries) ∧
  (length fixed + length free + 2 * length repeated + n)%nat = length entries.
Proof.
  rewrite extract_indices_unfold. cbv zeta.
  destruct (forallb is_proper entries); simpl; [|done].
  destruct (forallb _ (map_to_list _)); simpl; [|done].
  case_bool_decide as Hb; simpl; [|done].
  intros [= <- <- <- <-].
  assert (Hkeys : ∀ i c, (0 < c)%nat →
    i ∈ filter (λ i, fold_left count_index entries ∅ !! i = Some c)
               (map_to_list (fold_left count_index entries ∅)).*1
    ↔ occurrences i (index_objects entries) = c).
  { intros i c Hc. rewrite list_elem_of_filter, <- (index_count_lookup entries i c Hc).
    split; [by intros [? _]|]. intros Hi. split; [done|].
    apply list_elem_of_fmap. exists (i, c). split; [done|]. by apply elem_of_map_to_list. }
  split_and!.
  - intros k f. rewrite list_elem_of_omap. unfold enumerate. split.
    + intros ([k' e] & Hin & He). apply lookup_enumerate in Hin as [_ Hl].
      simpl in He. destruct e as [[| |]| |]; try done. injection He as -> ->.
      by rewrite Nat.sub_0_r in Hl.
    + intros Hl. exists (k, Proper (AFixedIndex f)). split; [|done].
      apply lookup_enumerate. split; [lia|]. by rewrite Nat.sub_0_r.
  - intros i. apply Hkeys. lia.
  - intros i. apply Hkeys. lia.
  - apply NoDup_filter, NoDup_fst_map_to_list.
  - apply NoDup_filter, NoDup_fst_map_to_list.
  - done.
  - done.
Qed.

End ExtractIndicesTheorems.

Section ExtractIndicesExamples.
Import Indexing Tensors.

Lemma extract_indices_result_witness :
  (∀ k f, (k, f) ∈ [(1%nat, MkFixedIndex 2)] ↔
          map Proper [AnIndex i0; AFixedIndex (MkFixedIndex 2); Axis; AnIndex i0] !! k
          = Some (Proper (AFixedIndex f))) ∧
  (∀ i, i ∈ [] ↔
        occurrences i (index_objects
          (map Proper [AnIndex i0; AFixedIndex (MkFixedIndex 2); Axis; AnIndex i0])) = 1%nat) ∧
  (∀ i, i ∈ [i0] ↔
        occurrences i (index_objects
          (map Proper [AnIndex i0; AFixedIndex (MkFixedIndex 2); Axis; AnIndex i0])) = 2%nat) ∧
  NoDup ([] : list Index) ∧ NoDup [i0] ∧
  1%nat = length (filter (λ e, e = Proper Axis)
            (map Proper [AnIndex i0; AFixedIndex (MkFixedIndex 2); Axis; AnIndex i0])) ∧
  (length [(1%nat, MkFixedIndex 2)] + length ([] : list Index) + 2 * length [i0] + 1)%nat
  = length (map Proper [AnIndex i0; AFixedIndex (MkFixedIndex 2); Axis; AnIndex i0]).
Proof.
  apply (extract_indices_result
           (map Proper [AnIndex i0; AFixedIndex (MkFixedIndex 2); Axis; AnIndex i0])).
  by vm_compute.
Defined.

End ExtractIndicesExamples.

Section IndexCounter.
Import Indexing.

Implicit Types requests : list (nat * option string * option Z).

Lemma Index_init_bound id name count g :
  g ≤ (Index_init id name count g).2 ∧
  _count (Index_init id name count g).1 < (Index_init id name count g).2.
Proof.
  unfold Index_init. destruct count as [c|]; simpl; [|lia].
  destruct (c >=? g) eqn:Hc; lia.
Qed.

Lemma Index_init_all_cons id name count requests g :
  Index_init_all ((id, name, count) :: requests) g
  = ((Index_init id name count g).1
       :: (Index_init_all requests (Index_init id name count g).2).1,
     (Index_init_all requests (Index_init id name count g).2).2).
Proof.
  simpl. destruct (Index_init id name count g) as [i g1]. simpl.
  by destruct (Index_init_all requests g1).
Qed.

Lemma Index_init_all_bound requests : ∀ g,
  g ≤ (Index_init_all requests g).2 ∧
  Forall (λ i, _count i < (Index_init_all requests g).2) (Index_init_all requests g).1.
Proof.
  induction requests as [|[[id name] count] requests IH]; intros g.
  - simpl. split; [lia | constructor].
  - rewrite Index_init_all_cons. simpl.
    destruct (Index_init_bound id name count g) as [Hg Hi].
    destruct (IH (Index_init id name count g).2) as [Hg' Hall].
    split; [lia|]. constructor; [lia | done].
Qed.

Lemma Index_init_all_app r1 r2 : ∀ g,
  Index_init_all (r1 ++ r2) g
  = ((Index_init_all r1 g).1 ++ (Index_init_all r2 (Index_init_all r1 g).2).1,
     (Index_init_all r2 (Index_init_all r1 g).2).2).
Proof.
  induction r1 as [|[[id name] count] r1 IH]; intros g.
  - simpl. by destruct (Index_init_all r2 g).
  - rewrite <- app_comm_cons, !Index_init_all_cons, IH. done.
Qed.

(** X13.  The counter [Index._globalcount] never decreases and ends above the
    count of every index made; an index made without an explicit count takes
    the counter's value at that moment, which is above the count of every
    index made before it.  (An explicit count is taken as given, also when
    an earlier index has it.) *)
Theorem automatic_count_is_fresh requests g :
  g ≤ (Index_init_all requests g).2 ∧
  Forall (λ i, _count i < (Index_init_all requests g).2) (Index_init_all requests g).1 ∧
  length (Index_init_all requests g).1 = length requests ∧
  ∀ r1 id name r2, requests = r1 ++ (id, name, None) :: r2 →
    ∃ m1 i m2,
      (Index_init_all requests g).1 = m1 ++ i :: m2 ∧
      length m1 = length r1 ∧
      i = MkIndex id name (Index_init_all r1 g).2 ∧
      g ≤ _count i ∧
      Forall (λ j, _count j < _count i) m1.
Proof.
  split_and!.
  - apply Index_init_all_bound.
  - apply Index_init_all_bound.
  - revert g. induction requests as [|[[id name] count] requests IH]; intros g; [done|].
    rewrite Index_init_all_cons. simpl. by rewrite IH.
  - intros r1 id name r2 ->. rewrite Index_init_all_app, Index_init_all_cons. simpl.
    exists (Index_init_all r1 g).1, (MkIndex id name (Index_init_all r1 g).2),
           (Index_init_all r2 ((Index_init_all r1 g).2 + 1)).1.
    destruct (Index_init_all_bound r1 g) as [Hg Hall].
    split_and!; [done | | done | done | done].
    clear. revert g. induction r1 as [|[[id name] count] r1 IH]; intros g; [done|].
    rewrite Index_init_all_cons. simpl. by rewrite IH.
Qed.

(** Nothing keeps explicit counts apart: two indices made with the same
    explicit count are different objects with the same count. *)
Example explicit_counts_may_collide :
  Index_init_all [(0%nat, None, Some 5); (1%nat, None, Some 5); (2%nat, None, None)] 0
  = ([MkIndex 0 None 5; MkIndex 1 None 5; MkIndex 2 None 6], 7).
Proof. reflexivity. Qed.

End IndexCounter.

(** ** Tensors *)

Section ListLiterals.
Import Indexing Tensors.
Context `{UFLObject E}.

Local Ltac easy_case := first [done | by split | by split; intros ? | by split; intros (? & ? & ?)].
Local Ltac ex_false := first [by intros (? & ?%elem_of_nil & ?) | by intros (? & ? & ?%elem_of_nil & ?)].
Local Ltac split4 := split; [|split; [|split]].

Lemma not_scalar_entries (entries : list E) :
  forallb (λ e, bool_decide (rank e = 0)) entries = false
  ↔ ∃ e, e ∈ entries ∧ rank e ≠ 0.
Proof.
  rewrite forallb_false. split; intros (e & He & Hr); exists e; (split; [done|]).
  - by apply bool_decide_eq_false in Hr.
  - by apply bool_decide_eq_false.
Qed.

Lemma all_scalar_entries (entries : list E) :
  forallb (λ e, bool_decide (rank e = 0)) entries = true
  ↔ Forall (λ e, rank e = 0) entries.
Proof.
  rewrite forallb_true, Forall_forall. split; intros Hall e He.
  - specialize (Hall e He). by apply bool_decide_eq_true in Hall.
  - apply bool_decide_eq_true. by apply Hall.
Qed.

Lemma agrees_with_first (first : E) (entries : list E) :
  first ∈ entries →
  forallb (same_free_indices (list_to_set (free_indices first))) entries = true
  ↔ ¬ inconsistent_free_indices entries.
Proof.
  intros Hfirst. rewrite <- (differs_from_first first entries Hfirst).
  by destruct (forallb _ entries).
Qed.

(** The free indices a list literal stores are those of each of its
    entries. *)
Lemma stored_free_indices (first : E) (entries : list E) :
  forallb (same_free_indices (list_to_set (free_indices first))) entries = true →
  ∀ e i, e ∈ entries →
    i ∈ elements (list_to_set (free_indices first) : gset Index) ↔ i ∈ free_indices e.
Proof.
  rewrite forallb_true. intros Hall e i He.
  rewrite elem_of_elements, (proj1 (same_free_indices_spec _ e) (Hall e He)).
  apply elem_of_list_to_set.
Qed.

(** X14.  [ListVector(expressions)] on a list: the empty list ends in an
    [IndexError] (no check rejects it before [expressions[0]] is read); an
    entry of rank other than 0 is rejected; the constructor returns exactly
    for a non-empty list of scalar expressions that have the same free
    indices, and then stores the list and, without repetition, the free
    indices shared by the entries. *)
Theorem ListVector_init_outcome (expressions : list E) :
  (ListVector_init (IsList expressions) = Raise IndexError ↔ expressions = []) ∧
  (ListVector_init (IsList expressions)
     = Raise (UFLException "Expecting scalar valued expressions.")
   ↔ ∃ e, e ∈ expressions ∧ rank e ≠ 0) ∧
  (is_return (ListVector_init (IsList expressions)) = true
   ↔ expressions ≠ [] ∧ Forall (λ e, rank e = 0) expressions ∧
     ¬ inconsistent_free_indices expressions) ∧
  (∀ v, ListVector_init (IsList expressions) = Return v →
     lv_expressions E v = expressions ∧ NoDup (lv_free_indices E v) ∧
     ∀ e i, e ∈ expressions → i ∈ lv_free_indices E v ↔ i ∈ free_indices e).
Proof.
  unfold ListVector_init, ufl_assert.
  pose proof (not_scalar_entries expressions) as Hnot.
  pose proof (all_scalar_entries expressions) as Hall.
  destruct (forallb (λ e, bool_decide (rank e = 0)) expressions); simpl.
  2: { assert (Hex : ∃ e, e ∈ expressions ∧ rank e ≠ 0) by (by apply Hnot).
       split4; [split; [done|] | easy_case | split; [done|] | easy_case].
       - intros ->. destruct Hex as (e & ?%elem_of_nil & _). done.
       - intros (_ & Hs & _). by apply Hall in Hs. }
  assert (Hscalar : Forall (λ e, rank e = 0) expressions) by (by apply Hall).
  assert (Hnone : ¬ ∃ e, e ∈ expressions ∧ rank e ≠ 0).
  { intros Hex. by apply Hnot in Hex. }
  destruct expressions as [|first rest]; cbv beta iota.
  { split4; [easy_case | split; [done|] | split; [done | by intros [? _]] | easy_case].
    intros (e & ?%elem_of_nil & _). done. }
  pose proof (agrees_with_first first (first :: rest) ltac:(constructor)) as Hagree.
  pose proof (stored_free_indices first (first :: rest)) as Hstored.
  destruct (forallb _ (first :: rest)); simpl.
  - split4; [easy_case | easy_case | split; [|done] |].
    + intros _. split_and!; [easy_case | easy_case | by apply Hagree].
    + intros v [= <-]. simpl. split_and!; [easy_case | apply NoDup_elements |].
      intros e i He. by apply Hstored.
  - split4; [easy_case | split; [done|] | split; [done|] | easy_case].
    + intros Hex. by destruct Hnone.
    + intros (_ & _ & Hc). by apply Hagree in Hc.
Qed.

(** X15.  [ListMatrix(expressions)] on a list of lists: without rows, or with
    empty rows only, it ends in an [IndexError]; it returns exactly for
    equally long, non-empty rows of scalar expressions that have the same
    free indices, and then stores the rows and, without repetition, the free
    indices shared by the entries. *)
Theorem ListMatrix_init_outcome (rows : list (list E)) :
  (ListMatrix_init (IsList (map IsList rows)) = Raise IndexError
   ↔ Forall (λ row, row = []) rows) ∧
  (ListMatrix_init (IsList (map IsList rows)) = Raise (UFLException "Inconsistent row size.")
   ↔ ∃ r1 r2, r1 ∈ rows ∧ r2 ∈ rows ∧ length r1 ≠ length r2) ∧
  (is_return (ListMatrix_init (IsList (map IsList rows))) = true
   ↔ concat rows ≠ [] ∧
     (∀ r1 r2, r1 ∈ rows → r2 ∈ rows → length r1 = length r2) ∧
     Forall (λ e, rank e = 0) (concat rows) ∧
     ¬ inconsistent_free_indices (concat rows)) ∧
  (∀ m, ListMatrix_init (IsList (map IsList rows)) = Return m →
     lm_expressions E m = rows ∧ NoDup (lm_free_indices E m) ∧
     ∀ row e i, row ∈ rows → e ∈ row → i ∈ lm_free_indices E m ↔ i ∈ free_indices e).
Proof.
  unfold ListMatrix_init, ufl_assert.
  assert (Hlists : forallb is_list (map IsList rows) = true)
    by (apply forallb_true; intros x (r & -> & _)%list_elem_of_fmap; done).
  assert (Hitems : map items_of (map IsList rows) = rows).
  { rewrite map_map. simpl. apply map_id. }
  rewrite Hlists, Hitems. simpl.
  destruct rows as [|row0 rows'] eqn:Hrows.
  { split4; [easy_case | split; [done|] | split; [done | by intros [? _]] | easy_case].
    intros (r1 & _ & ?%elem_of_nil & _). done. }
  rewrite <- Hrows. assert (Hrow0 : row0 ∈ rows) by (rewrite Hrows; constructor).
  assert (Hsize : forallb (λ row, bool_decide (length row = length row0)) rows = true
                  ↔ ∀ r1 r2, r1 ∈ rows → r2 ∈ rows → length r1 = length r2).
  { rewrite forallb_true. split.
    - intros Hall r1 r2 H1 H2.
      apply Hall, bool_decide_eq_true in H1. apply Hall, bool_decide_eq_true in H2.
      congruence.
    - intros Hall r Hr. apply bool_decide_eq_true. by apply Hall. }
  assert (Hempty : Forall (λ row, row = []) rows →
                   ∀ r1 r2, r1 ∈ rows → r2 ∈ rows → length r1 = length r2).
  { rewrite Forall_forall. intros Hall r1 r2 H1 H2.
    by rewrite (Hall r1 H1), (Hall r2 H2). }
  destruct (forallb (λ row, bool_decide (length row = length row0)) rows) eqn:Hb; simpl.
  2: { assert (Hdiff : ¬ ∀ r1 r2, r1 ∈ rows → r2 ∈ rows → length r1 = length r2).
       { intros Hall. apply Hsize in Hall. done. }
       split4; [split; [done|] | split; [intros _|done] | split; [done|] | easy_case].
       - intros Hall. destruct Hdiff. by apply Hempty.
       - apply forallb_false in Hb as (r & Hr & Hlen).
         apply bool_decide_eq_false in Hlen. by exists r, row0.
       - intros (_ & Hall & _). done. }
  assert (Hrect : ∀ r1 r2, r1 ∈ rows → r2 ∈ rows → length r1 = length r2)
    by (by apply Hsize).
  assert (Hnodiff : ¬ ∃ r1 r2, r1 ∈ rows ∧ r2 ∈ rows ∧ length r1 ≠ length r2).
  { intros (r1 & r2 & H1 & H2 & Hne). apply Hne. by apply Hrect. }
  pose proof (not_scalar_entries (concat rows)) as Hnot.
  pose proof (all_scalar_entries (concat rows)) as Hall.
  destruct (forallb (λ e, bool_decide (rank e = 0)) (concat rows)); simpl.
  2: { assert (Hex : ∃ e, e ∈ concat rows ∧ rank e ≠ 0) by (by apply Hnot).
       split4; [split; [done|] | split; [done|] | split; [done|] | easy_case].
       - intros Hallempty. destruct Hex as (e & He & _).
         rewrite concat_of_empty_rows in He.
         + by apply elem_of_nil in He.
         + rewrite Forall_forall in Hallempty |- *. intros r Hr.
           by rewrite (Hallempty r Hr).
       - intros Hd. by destruct Hnodiff.
       - intros (_ & _ & Hs & _). by apply Hall in Hs. }
  assert (Hscalar : Forall (λ e, rank e = 0) (concat rows)) by (by apply Hall).
  destruct row0 as [|first row0'].
  { assert (Hallempty : Forall (λ row : list E, row = []) rows).
    { apply Forall_forall. intros r Hr. apply nil_length_inv.
      by rewrite (Hrect r [] Hr Hrow0). }
    split4; [easy_case | split; [done|] | split; [done|] | easy_case].
    - intros Hd. by destruct Hnodiff.
    - intros (Hne & _). destruct Hne. apply concat_of_empty_rows.
      rewrite Forall_forall in Hallempty |- *. intros r Hr.
      by rewrite (Hallempty r Hr). }
  assert (Hfirst : first ∈ concat rows).
  { rewrite Hrows. simpl. constructor. }
  assert (Hnotempty : ¬ Forall (λ row : list E, row = []) rows).
  { rewrite Forall_forall. intros Hall'. by specialize (Hall' _ Hrow0). }
  pose proof (agrees_with_first first (concat rows) Hfirst) as Hagree.
  pose proof (stored_free_indices first (concat rows)) as Hstored.
  destruct (forallb _ (concat rows)); simpl.
  - split4; [easy_case | split; [done|] | split; [|done] |].
    + intros Hd. by destruct Hnodiff.
    + intros _. split_and!; [| easy_case | easy_case |by apply Hagree].
      intros Hc. rewrite Hc in Hfirst. by apply elem_of_nil in Hfirst.
    + intros m [= <-]. simpl. split_and!; [easy_case | apply NoDup_elements |].
      intros row e i Hrow He. apply Hstored; [done|].
      apply list_elem_of_In, in_concat. exists row. split; by apply list_elem_of_In.
  - split4; [easy_case | split; [done|] | split; [done|] | easy_case].
    + intros Hd. by destruct Hnodiff.
    + intros (_ & _ & _ & Hc). by apply Hagree in Hc.
Qed.

End ListLiterals.

Section TensorFacts2.
Import Indexing Tensors.
Context `{UFLObject E}.

Lemma indices_of_Index (indices : list Index) : indices_of (map UIndex indices) = indices.
Proof. induction indices as [|i l IH]; [done|]. unfold indices_of in *. simpl. by f_equal. Qed.

Lemma all_Index_entries (items : list user_item) :
  forallb (λ i, match i with UIndex _ => true | _ => false end) items = true
  ↔ ∃ indices, items = map UIndex indices.
Proof.
  induction items as [|u items IH]; simpl.
  - split; [|done]. intros _. by exists [].
  - destruct u as [i| | | | | |]; simpl;
      try (split; [done | intros ([|? ?] & Heq); discriminate Heq]).
    rewrite IH. split.
    + intros [l ->]. by exists (i :: l).
    + intros ([|j l] & Heq); [done|]. injection Heq as _ ->. by exists l.
Qed.

Lemma elem_of_indices_of (items : list user_item) i :
  i ∈ indices_of items ↔ UIndex i ∈ items.
Proof.
  unfold indices_of. rewrite list_elem_of_omap. split.
  - intros (u & Hu & Hi). destruct u; try done. by injection Hi as ->.
  - intros Hi. by exists (UIndex i).
Qed.

Lemma bound_indices_are_free (e : E) (items : list user_item) :
  size ((list_to_set (indices_of items) : gset Index) ∖ list_to_set (free_indices e)) = 0%nat
  ↔ ∀ i, i ∈ indices_of items → i ∈ free_indices e.
Proof.
  rewrite size_empty_iff. split.
  - intros Hd i Hi. destruct (decide (i ∈ free_indices e)) as [|Hn]; [done|].
    exfalso. apply (not_elem_of_empty (C:=gset Index) i). rewrite <- Hd.
    apply elem_of_difference. by rewrite !elem_of_list_to_set.
  - intros Hall i. split; [|by intros ?%not_elem_of_empty].
    rewrite elem_of_difference, !elem_of_list_to_set. intros [Hi Hn].
    destruct Hn. by apply Hall.
Qed.

(** X16.  [Tensor(expressions, indices)] returns exactly when the expression is
    scalar valued, every entry of [indices] is an [Index], and each of them
    is a free index of the expression; when only the last condition fails it
    raises "Index mismatch.".  The tensor it returns has as many axes as
    [indices] has entries (a repeated index counts each time), and its free
    indices are, without repetition, those of the expression that are not
    among [indices]. *)
Theorem Tensor_init_outcome (e : E) (items : list user_item) :
  (is_return (Tensor_init (Expression e) items) = true
   ↔ rank e = 0 ∧ ∃ indices, items = map UIndex indices ∧
                             ∀ i, i ∈ indices → i ∈ free_indices e) ∧
  (Tensor_init (Expression e) items = Raise (UFLException index_mismatch)
   ↔ rank e = 0 ∧ ∃ indices, items = map UIndex indices ∧
                             ∃ i, i ∈ indices ∧ i ∉ free_indices e) ∧
  (∀ t, Tensor_init (Expression e) items = Return t →
     t_expressions t = e ∧ t_indices t = items ∧
     Tensor_rank t = length items ∧
     NoDup (t_free_indices t) ∧
     ∀ i, i ∈ t_free_indices t ↔ i ∈ free_indices e ∧ UIndex i ∉ items).
Proof.
  unfold Tensor_init, ufl_assert.
  case_bool_decide as Hrank; simpl.
  2: { split; [|split]; [split; [done | by intros [? _]] | split; [done | by intros [? _]] | done]. }
  pose proof (all_Index_entries items) as Hitems.
  destruct (forallb _ items); simpl.
  2: { assert (Hne : ¬ ∃ indices, items = map UIndex indices).
       { intros Heq. by apply Hitems in Heq. }
       split; [|split]; [split; [done|] | split; [done|] | done].
       - intros (_ & l & Hl & _). destruct Hne. by exists l.
       - intros (_ & l & Hl & _). destruct Hne. by exists l. }
  destruct (proj1 Hitems eq_refl) as [indices ->]. clear Hitems.
  pose proof (bound_indices_are_free e (map UIndex indices)) as Hbound.
  rewrite indices_of_Index in Hbound |- *.
  assert (Hinj : ∀ l, map UIndex indices = map UIndex l → l = indices).
  { intros l Hl. apply (f_equal indices_of) in Hl. by rewrite !indices_of_Index in Hl. }
  case_bool_decide as Hsize; simpl.
  - assert (Hall : ∀ i, i ∈ indices → i ∈ free_indices e) by (by apply Hbound).
    split; [|split].
    + split; [|done]. intros _. split; [done|]. by exists indices.
    + split; [done|]. intros (_ & l & Hl & i & Hi & Hn). apply Hinj in Hl as ->.
      destruct Hn. by apply Hall.
    + intros t [= <-]. simpl. split_and!; [done | done | done | apply NoDup_elements |].
      intros i. rewrite elem_of_elements, elem_of_difference, !elem_of_list_to_set.
      by rewrite <- (elem_of_indices_of (map UIndex indices)), indices_of_Index.
  - assert (Hex : ∃ i, i ∈ indices ∧ i ∉ free_indices e).
    { destruct (decide (Forall (λ i, i ∈ free_indices e) indices)) as [Hall|Hn].
      - destruct Hsize. apply Hbound. by apply Forall_forall.
      - apply not_Forall_Exists in Hn; [|apply _].
        apply Exists_exists in Hn as (i & Hi & Hn). by exists i. }
    split; [|split].
    + split; [done|]. intros (_ & l & Hl & Hall). apply Hinj in Hl as ->.
      destruct Hex as (i & Hi & Hn). destruct Hn. by apply Hall.
    + split; [|done]. intros _. split; [done|]. by exists indices.
    + done.
Qed.

Lemma Tensor_init_fields (e : E) (items : list user_item) t :
  Tensor_init (Expression e) items = Return t →
  t_expressions t = e ∧ t_indices t = items ∧ Tensor_rank t = length items.
Proof.
  unfold Tensor_init, ufl_assert.
  destruct (bool_decide (rank e = 0)); simpl; [|done].
  destruct (forallb _ items); simpl; [|done].
  destruct (bool_decide _); simpl; [|done].
  by intros [= <-].
Qed.

(** X17.  Whatever [Vector] returns has rank 1: a [ListVector] when no index is
    given, and else a [Tensor] over the one index. *)
Theorem Vector_rank_is_one (expressions : given E E) index v :
  Vector expressions index = Return v →
  value_rank v = 1%nat ∧
  match index with
  | None => ∃ items lv, expressions = GivenList items ∧ v = AListVector lv
  | Some i => ∃ e t, expressions = GivenExpression e ∧ v = ATensor t ∧
                     t_indices t = [i]
  end.
Proof.
  unfold Vector. destruct index as [i|].
  - destruct expressions as [items|e|]; cbn [as_operand]; [done| |done].
    destruct (Tensor_init (Expression e) [i]) as [t|] eqn:Ht; cbn [obind]; [|done].
    intros [= <-]. destruct (Tensor_init_fields e [i] t Ht) as (_ & Hi & Hr).
    cbn [value_rank]. split; [by rewrite Hr|]. by exists e, t.
  - destruct expressions as [items|e|]; cbn [as_list]; [|done..].
    destruct (ListVector_init (IsList items)) as [lv|]; cbn [obind]; [|done].
    intros [= <-]. split; [done|]. by exists items, lv.
Qed.

(** X18.  What [Matrix] returns has rank 2 when no indices are given; with
    indices, its rank is the number of indices, whatever that number is. *)
Theorem Matrix_rank_follows_indices (expressions : given E (arg E)) indices v :
  Matrix expressions indices = Return v →
  value_rank v = match indices with None => 2%nat | Some items => length items end.
Proof.
  unfold Matrix. destruct indices as [items|].
  - destruct expressions as [rows|e|]; cbn [as_operand]; [done| |done].
    destruct (Tensor_init (Expression e) items) as [t|] eqn:Ht; cbn [obind]; [|done].
    intros [= <-]. by destruct (Tensor_init_fields e items t Ht) as (_ & _ & Hr).
  - destruct expressions as [rows|e|]; cbn [as_list]; [|done..].
    destruct (ListMatrix_init (IsList rows)) as [m|]; cbn [obind]; [|done].
    by intros [= <-].
Qed.

End TensorFacts2.

Section TensorExamples.
Import Indexing Tensors.

Lemma Vector_rank_is_one_witness :
  value_rank (ATensor (MkTensor ((0, [i0; i1]) : observed) [UIndex i0] [i1])) = 1%nat ∧
  ∃ e t, GivenExpression (A:=observed) ((0, [i0; i1]) : observed) = GivenExpression e ∧
         ATensor (MkTensor ((0, [i0; i1]) : observed) [UIndex i0] [i1]) = ATensor t ∧
         t_indices t = [UIndex i0].
Proof.
  apply (@Vector_rank_is_one observed observed_object
           (GivenExpression (0, [i0; i1])) (Some (UIndex i0))).
  by vm_compute.
Defined.

Lemma Matrix_rank_follows_indices_witness :
  value_rank (ATensor (MkTensor ((0, [i0; i1]) : observed) [UIndex i0] [i1]))
  = length [UIndex i0].
Proof.
  apply (@Matrix_rank_follows_indices observed observed_object
           (GivenExpression (0, [i0; i1])) (Some [UIndex i0])).
  by vm_compute.
Defined.

End TensorExamples.

(** ** Form data *)

Section FormDataFacts.
Import ComputeFormData.
Context {Element Domain Expr Argument Coefficient Class ReplaceMap : Type}.
Context `{Countable Element} `{Countable Coefficient}.
Context `{!FiniteElementBase Element Domain}.
Context `{!@Collaborators Element Domain Expr Argument Coefficient Class ReplaceMap _ _ _ _}.
Context `{!SetOrder Coefficient}.

Implicit Types form : @Form Domain Expr Argument Coefficient.
Implicit Types data : list (@IntegralData Expr Coefficient _ _).

(** What [compute_form_data] has computed and checked when it returns. *)
Lemma compute_form_data_returns form fd :
  compute_form_data form = Return fd →
  ∃ gdim emap,
    elements (list_to_set (map geometric_dimension (domains form)) : gset Z) = [gdim] ∧
    _compute_element_mapping form = Return emap ∧
    let reduced := reduce_coefficients (grouped_integrals form) in
    let data := map (set_enabled_coefficients reduced) (grouped_integrals form) in
    let renumbered := (build_coefficient_replace_map reduced emap).1 in
    let all_elements := map arg_element (arguments form) ++ map coef_element renumbered in
    fd = MkFormData form (length (arguments form)) gdim emap data reduced (length reduced)
           (omap (λ p, if bool_decide (p.2 ∈ reduced) then Some p.1 else None)
                 (Indexing.enumerate (coefficients form)))
           (build_coefficient_replace_map reduced emap).2
           (map arg_element (arguments form)) (map coef_element renumbered) all_elements
           (unique_tuple all_elements) (extract_sub_elements all_elements)
           (unique_tuple (extract_sub_elements all_elements))
           (_compute_num_sub_domains data)
           (reconstruct_form_from_integral_data data) ∧
    _check_elements (unique_tuple all_elements)
                    (unique_tuple (extract_sub_elements all_elements)) = Return tt ∧
    _check_facet_geometry data = Return tt ∧
    _check_form_arity (reconstruct_form_from_integral_data data) = Return tt.
Proof.
  unfold compute_form_data, grouped_integrals.
  destruct (elements _) as [|gdim [|]] eqn:Hg; [done| |done].
  destruct (_compute_element_mapping form) as [emap|] eqn:Hm; [|done]. simpl.
  destruct (build_coefficient_replace_map _ _) as [renumbered frm] eqn:Hb.
  destruct (_check_elements _ _) as [[]|] eqn:Hc1; [|done]. simpl.
  destruct (_check_facet_geometry _) as [[]|] eqn:Hc2; [|done]. simpl.
  destruct (_check_form_arity _) as [[]|] eqn:Hc3; [|done]. simpl.
  intros [= <-]. exists gdim, emap. cbv zeta. rewrite Hb. simpl. by split_and!.
Qed.

Lemma _compute_element_mapping_raises form e :
  _compute_element_mapping form = Raise e → e = UFLException missing_domain.
Proof.
  intros He. destruct (_compute_element_mapping_outcome form) as [_ [[m Hm] | Hr]];
    congruence.
Qed.

Lemma elements_singleton_inv (X : gset Z) g : elements X = [g] → X = {[g]}.
Proof.
  intros He. apply set_eq. intros x.
  rewrite <- elem_of_elements, He, list_elem_of_singleton, elem_of_singleton. done.
Qed.

(** X19.  [compute_form_data] rejects a form without domains, and a form whose
    domains differ in geometric dimension, with "Expecting all integrals in a
    form to share geometric dimension"; it raises this error in no other
    case, and the dimension it stores is that of every domain of the form. *)
Theorem geometric_dimension_is_common form :
  (compute_form_data form
     = Raise (UFLException "Expecting all integrals in a form to share geometric dimension.")
   ↔ domains form = [] ∨
     ∃ d1 d2, d1 ∈ domains form ∧ d2 ∈ domains form ∧
              geometric_dimension d1 ≠ geometric_dimension d2) ∧
  (∀ fd, compute_form_data form = Return fd →
     domains form ≠ [] ∧
     ∀ d, d ∈ domains form → geometric_dimension d = fd_geometric_dimension fd).
Proof.
  assert (Hmem : ∀ x, x ∈ elements (list_to_set (map geometric_dimension (domains form))
                                     : gset Z)
                      ↔ ∃ d, d ∈ domains form ∧ geometric_dimension d = x).
  { intros x. rewrite elem_of_elements, elem_of_list_to_set, list_elem_of_fmap.
    split; intros (d & ? & ?); by exists d. }
  split.
  - unfold compute_form_data.
    destruct (elements _) as [|g [|g' rest]] eqn:Hg.
    + split; [|done]. intros _. left.
      destruct (domains form) as [|d ds] eqn:Hd; [done|]. exfalso.
      apply (elem_of_nil (geometric_dimension d)). apply Hmem. exists d.
      split; [constructor | done].
    + split.
      * destruct (_compute_element_mapping form) as [emap|e] eqn:Hm; simpl.
        2: { apply _compute_element_mapping_raises in Hm as ->. done. }
        destruct (build_coefficient_replace_map _ _) as [renumbered frm].
        unfold _check_elements, _check_facet_geometry, _check_form_arity, ufl_assert.
        repeat (match goal with |- context [if ?c then _ else _] => destruct c end;
                simpl; try done).
      * intros [Hd | (d1 & d2 & Hd1 & Hd2 & Hne)].
        -- exfalso. apply (elem_of_nil g). 
           assert (Hin : g ∈ [g]) by constructor. apply Hmem in Hin as (d & Hd' & _).
           rewrite Hd in Hd'. by apply elem_of_nil in Hd'.
        -- exfalso. apply Hne.
           assert (Ha : geometric_dimension d1 ∈ [g]) by (apply Hmem; by exists d1).
           assert (Hb : geometric_dimension d2 ∈ [g]) by (apply Hmem; by exists d2).
           apply list_elem_of_singleton in Ha, Hb. congruence.
    + split; [|done]. intros _. right.
      assert (Hne : g ≠ g').
      { pose proof (NoDup_elements (list_to_set (map geometric_dimension (domains form))
                                    : gset Z)) as Hnd.
        rewrite Hg in Hnd. apply NoDup_cons in Hnd as [Hnot _].
        intros ->. apply Hnot. constructor. }
      assert (Ha : g ∈ g :: g' :: rest) by constructor.
      assert (Hb : g' ∈ g :: g' :: rest) by (constructor; constructor).
      apply Hmem in Ha as (d1 & Hd1 & <-). apply Hmem in Hb as (d2 & Hd2 & <-).
      by exists d1, d2.
  - intros fd Hfd.
    destruct (compute_form_data_returns form fd Hfd) as (gdim & emap & Hg & _ & -> & _).
    simpl. split.
    + intros Hd. rewrite Hd in Hg. simpl in Hg. by rewrite elements_empty in Hg.
    + intros d Hd. assert (Hin : geometric_dimension d ∈ [gdim]).
      { rewrite <- Hg. apply Hmem. by exists d. }
      by apply list_elem_of_singleton in Hin.
Qed.

(** X20.  The form data that [compute_form_data] returns has passed its checks:
    every element it lists as unique element or unique sub-element has a
    domain and a family, an integrand mentions a facet quantity only in an
    integral whose type contains "facet", and the terms of the reconstructed
    form have one arity.  The element lists are built from the elements of
    the form's arguments and of the renumbered coefficients. *)
Theorem returned_form_data_passes_checks form fd :
  compute_form_data form = Return fd →
  original_form fd = form ∧
  rank fd = length (arguments form) ∧
  argument_elements fd = map arg_element (arguments form) ∧
  fd_elements fd = argument_elements fd ++ coefficient_elements fd ∧
  unique_elements fd = unique_tuple (fd_elements fd) ∧
  sub_elements fd = extract_sub_elements (fd_elements fd) ∧
  unique_sub_elements fd = unique_tuple (sub_elements fd) ∧
  (∀ e, e ∈ unique_elements fd ++ unique_sub_elements fd →
        is_Some (domain e) ∧ is_Some (family e)) ∧
  (∀ d itg c, d ∈ integral_data fd → itg ∈ itg_integrals d →
              c ∈ extract_classes (integrand itg) →
              is_GeometricFacetQuantity c = true →
              contains_facet (integral_type d) = true) ∧
  length (compute_form_arities (preprocessed_form fd)) = 1%nat.
Proof.
  intros Hfd.
  destruct (compute_form_data_returns form fd Hfd)
    as (gdim & emap & _ & _ & -> & Hel & Hfacet & Harity).
  simpl. split_and!; try done.
  - intros e He. unfold _check_elements in Hel.
    destruct (forallb (λ e, bool_decide (is_Some (domain e))) _) eqn:Hd; [|done].
    destruct (forallb (λ e, bool_decide (is_Some (family e))) _) eqn:Hf; [|done].
    rewrite forallb_true in Hd, Hf. split.
    + by apply (bool_decide_unpack _), Is_true_true, Hd.
    + by apply (bool_decide_unpack _), Is_true_true, Hf.
  - intros d itg c Hd Hitg Hc Hq. unfold _check_facet_geometry in Hfacet.
    destruct (forallb _ _) eqn:Hall in Hfacet; [|done].
    rewrite forallb_true in Hall. specialize (Hall d Hd). simpl in Hall.
    rewrite forallb_true in Hall. specialize (Hall itg Hitg). simpl in Hall.
    apply orb_true_iff in Hall as [Hyes | Hno]; [done|].
    rewrite forallb_true in Hno. specialize (Hno c Hc). simpl in Hno.
    by rewrite Hq in Hno.
  - unfold _check_form_arity, ufl_assert in Harity.
    case_bool_decide; [done | discriminate].
Qed.

End FormDataFacts.

Section MoreDegreeFacts.
Import ComputeFormData.
Context {Element Domain : Type} `{!FiniteElementBase Element Domain}.

(** X21.  The degree selected for a list of elements put together from two lists
    is the larger of the degrees selected for the two: the order of the
    elements does not matter, and further elements can only raise the
    degree. *)
Theorem _auto_select_degree_app (l1 l2 : list Element) :
  _auto_select_degree (l1 ++ l2)
  = Z.max (_auto_select_degree l1) (_auto_select_degree l2).
Proof.
  destruct (_auto_select_degree_spec l1) as (Ha1 & Hb1 & Hc1 & _).
  destruct (_auto_select_degree_spec l2) as (Ha2 & Hb2 & Hc2 & _).
  destruct (_auto_select_degree_spec (l1 ++ l2)) as (Ha & Hb & Hc & _).
  assert (H1 : _auto_select_degree l1 ≤ _auto_select_degree (l1 ++ l2)).
  { destruct Hc1 as [-> | (e & He & Hd)]; [done|].
    apply (Hb e); [|done]. apply elem_of_app. by left. }
  assert (H2 : _auto_select_degree l2 ≤ _auto_select_degree (l1 ++ l2)).
  { destruct Hc2 as [-> | (e & He & Hd)]; [done|].
    apply (Hb e); [|done]. apply elem_of_app. by right. }
  assert (H3 : _auto_select_degree (l1 ++ l2)
               ≤ Z.max (_auto_select_degree l1) (_auto_select_degree l2)).
  { destruct Hc as [-> | (e & [He | He]%elem_of_app & Hd)]; [lia | |].
    - specialize (Hb1 e _ He Hd). lia.
    - specialize (Hb2 e _ He Hd). lia. }
  lia.
Qed.

End MoreDegreeFacts.

Section MoreMappingFacts.
Import ComputeFormData.
Context {Element Domain Expr Argument Coefficient Class ReplaceMap : Type}.
Context `{Countable Element} `{Countable Coefficient}.
Context `{!FiniteElementBase Element Domain}.
Context `{!@Collaborators Element Domain Expr Argument Coefficient Class ReplaceMap _ _ _ _}.

Implicit Types form : @Form Domain Expr Argument Coefficient.

(** X22.  The element mapping has an entry for exactly the elements of the form
    (sub-elements included); an element that declares both its domain and its
    degree is mapped to itself, and an element that lacks only the domain to
    its reconstruction on the one domain of the form, with its own degree. *)
Theorem element_mapping_completes_elements form m :
  _compute_element_mapping form = Return m →
  (∀ e, is_Some (m !! e) ↔ e ∈ form_elements form) ∧
  (∀ e dom d, e ∈ form_elements form → domain e = Some dom → degree e = Some d →
              m !! e = Some e) ∧
  (∀ e d, e ∈ form_elements form → domain e = None → degree e = Some d →
          ∃ dom, domains form = [dom] ∧ m !! e = Some (reconstruct e dom d)).
Proof.
  intros Hm. unfold _compute_element_mapping in Hm.
  pose proof (element_mapping_loop_spec form (_auto_select_degree (form_elements form))
                (form_elements form) ∅) as Hloop.
  rewrite Hm in Hloop. split_and!.
  - intros e. destruct (Hloop e) as [Hin Hout]. split.
    + intros Hsome. destruct (decide (e ∈ form_elements form)) as [|Hno]; [done|].
      rewrite (Hout Hno), lookup_empty in Hsome. by destruct Hsome.
    + intros He. destruct (Hin He) as (new & _ & ->). by eexists.
  - intros e dom d He Hdom Hdeg. destruct (Hloop e) as [Hin _].
    destruct (Hin He) as (new & Hnew & ->). f_equal.
    unfold map_element in Hnew. rewrite Hdom, Hdeg in Hnew. simpl in Hnew. congruence.
  - intros e d He Hdom Hdeg. destruct (Hloop e) as [Hin _].
    destruct (Hin He) as (new & Hnew & ->).
    unfold map_element in Hnew. rewrite Hdom, Hdeg in Hnew.
    destruct (domains form) as [|dom [|dom' doms]]; simpl in Hnew; [done| |done].
    exists dom. split; [done|]. congruence.
Qed.

End MoreMappingFacts.

Section MoreSubdomainFacts.
Import ComputeFormData.
Context {Expr Coefficient : Type} `{Countable Coefficient}.

Implicit Types data : list (@IntegralData Expr Coefficient _ _).

Lemma running_max_unique (ids ids' : list (string + Z)) :
  (∀ x, x ∈ ids ↔ x ∈ ids') →
  fold_left
    (λ o si, Some (match o with
                   | None => match si with inl _ => 0 | inr n => n + 1 end
                   | Some p => Z.max p (match si with inl _ => 0 | inr n => n + 1 end)
                   end)) ids None
  = fold_left
      (λ o si, Some (match o with
                     | None => match si with inl _ => 0 | inr n => n + 1 end
                     | Some p => Z.max p (match si with inl _ => 0 | inr n => n + 1 end)
                     end)) ids' None.
Proof.
  intros Hsame.
  pose proof (running_max_spec ids None) as H1.
  pose proof (running_max_spec ids' None) as H2.
  destruct (fold_left _ ids None) as [M|], (fold_left _ ids' None) as [M'|].
  - destruct H1 as (Hin & _ & Hs & Hn), H2 as (Hin' & _ & Hs' & Hn').
    f_equal. apply Z.le_antisymm.
    + destruct Hin as [[=] | [(s & Hi & ->) | (n & Hi & ->)]].
      * apply Hs'. exists s. by apply Hsame.
      * apply Hn'. by apply Hsame.
    + destruct Hin' as [[=] | [(s & Hi & ->) | (n & Hi & ->)]].
      * apply Hs. exists s. by apply Hsame.
      * apply Hn. by apply Hsame.
  - destruct H1 as (Hin & _), H2 as [_ ->]. exfalso.
    destruct Hin as [[=] | [(s & Hi & _) | (n & Hi & _)]];
      apply Hsame in Hi; by apply elem_of_nil in Hi.
  - destruct H2 as (Hin & _), H1 as [_ ->]. exfalso.
    destruct Hin as [[=] | [(s & Hi & _) | (n & Hi & _)]];
      apply Hsame in Hi; by apply elem_of_nil in Hi.
  - done.
Qed.

(** X23.  The dictionary of subdomain counts does not depend on the order of the
    integral groups, and has an entry for exactly the integral types that
    some group has. *)
Theorem num_sub_domains_order_independent data :
  (∀ data', data' ≡ₚ data →
     _compute_num_sub_domains data' = _compute_num_sub_domains data) ∧
  (∀ it, is_Some (_compute_num_sub_domains data !! it)
         ↔ ∃ d, d ∈ data ∧ integral_type d = it).
Proof.
  split.
  - intros data' Hp. apply map_eq. intros it. unfold _compute_num_sub_domains.
    rewrite !num_sub_domains_fold, lookup_empty. apply running_max_unique.
    intros x. unfold subdomain_ids. by rewrite Hp.
  - intros it. unfold _compute_num_sub_domains.
    rewrite num_sub_domains_fold, lookup_empty.
    pose proof (running_max_spec (subdomain_ids it data) None) as Hmax.
    assert (Hids : ∀ x, x ∈ subdomain_ids it data
                        ↔ ∃ d, d ∈ data ∧ integral_type d = it ∧ subdomain_id d = x).
    { intros x. unfold subdomain_ids. rewrite list_elem_of_fmap. split.
      - intros (d & -> & [Hit Hd]%list_elem_of_filter). by exists d.
      - intros (d & Hd & Hit & <-). exists d. split; [done|].
        by apply list_elem_of_filter. }
    destruct (fold_left _ (subdomain_ids it data) None) as [M|].
    + split; [|by eexists]. intros _. destruct Hmax as (Hin & _).
      destruct Hin as [[=] | [(s & Hi & _) | (n & Hi & _)]];
        apply Hids in Hi as (d & Hd & Hit & _); by exists d.
    + destruct Hmax as [_ Hnil]. split; [by intros [? ?]|].
      intros (d & Hd & Hit). exfalso. apply (elem_of_nil (subdomain_id d)).
      rewrite <- Hnil. apply Hids. by exists d.
Qed.

End MoreSubdomainFacts.

Section CoefficientFacts.
Import ComputeFormData.
Context {Element Domain Expr Argument Coefficient Class ReplaceMap : Type}.
Context `{Countable Element} `{Countable Coefficient}.
Context `{!FiniteElementBase Element Domain}.
Context `{!@Collaborators Element Domain Expr Argument Coefficient Class ReplaceMap _ _ _ _}.
Context `{!SetOrder Coefficient}.

Implicit Types form : @Form Domain Expr Argument Coefficient.
Implicit Types data : list (@IntegralData Expr Coefficient _ _).

Lemma positions_increasing {A} (P : A → Prop) `{∀ x, Decision (P x)} (l : list A) : ∀ j,
  StronglySorted lt
    (omap (λ p : nat * A, if bool_decide (P p.2) then Some p.1 else None)
          (zip (seq j (length l)) l)) ∧
  Forall (λ k, (j ≤ k)%nat)
    (omap (λ p : nat * A, if bool_decide (P p.2) then Some p.1 else None)
          (zip (seq j (length l)) l)).
Proof.
  induction l as [|a l IH]; intros j; simpl; [split; constructor|].
  destruct (IH (S j)) as [Hs Hb].
  assert (Hb' : Forall (λ k, (j ≤ k)%nat)
    (omap (λ p : nat * A, if bool_decide (P p.2) then Some p.1 else None)
          (zip (seq (S j) (length l)) l))).
  { eapply Forall_impl; [exact Hb|]. simpl. intros; lia. }
  destruct (bool_decide (P a)); simpl; [|done].
  split.
  - constructor; [done|]. eapply Forall_impl; [exact Hb|]. simpl. intros; lia.
  - constructor; [lia | done].
Qed.

(** X24.  The coefficients [compute_form_data] keeps, related to the form's own:
    [num_coefficients] is their number; [original_coefficient_positions]
    lists, in ascending order, exactly the positions in [form.coefficients()]
    that hold a kept coefficient; and the [enabled_coefficients] of every
    integral group has one entry per kept coefficient, true exactly when an
    integrand of the group mentions it: every kept coefficient is enabled in
    some group. *)
Theorem kept_coefficients_and_masks form fd :
  compute_form_data form = Return fd →
  num_coefficients fd = length (reduced_coefficients fd) ∧
  StronglySorted lt (original_coefficient_positions fd) ∧
  (∀ k, k ∈ original_coefficient_positions fd
        ↔ ∃ c, coefficients form !! k = Some c ∧ c ∈ reduced_coefficients fd) ∧
  (∀ d, d ∈ integral_data fd →
     length (enabled_coefficients d) = num_coefficients fd ∧
     ∀ k c, reduced_coefficients fd !! k = Some c →
       ∃ b, enabled_coefficients d !! k = Some b ∧
            (b = true ↔ ∃ itg, itg ∈ itg_integrals d ∧
                               c ∈ extract_coefficients (integrand itg))) ∧
  (∀ k c, reduced_coefficients fd !! k = Some c →
     ∃ d, d ∈ integral_data fd ∧ enabled_coefficients d !! k = Some true).
Proof.
  intros Hfd.
  destruct (compute_form_data_returns form fd Hfd) as (gdim & emap & _ & _ & -> & _).
  cbn [num_coefficients reduced_coefficients original_coefficient_positions integral_data].
  set (reduced := reduce_coefficients (grouped_integrals form)).
  assert (Hgroup : ∀ d0 k c, reduced !! k = Some c →
    ∃ b, enabled_coefficients (set_enabled_coefficients reduced (set_integral_coefficients d0))
           !! k = Some b ∧
         (b = true ↔ ∃ itg, itg ∈ itg_integrals d0 ∧
                            c ∈ extract_coefficients (integrand itg))).
  { intros d0 k c Hk. simpl. rewrite list_lookup_fmap, Hk. simpl. eexists. split; [done|].
    rewrite bool_decide_eq_true. apply elem_of_group_coefficients. }
  split_and!.
  - done.
  - unfold Indexing.enumerate.
    exact (proj1 (positions_increasing (λ c, c ∈ reduced) (coefficients form) 0%nat)).
  - intros k. rewrite list_elem_of_omap. unfold Indexing.enumerate. split.
    + intros ([k' c] & Hin & Hc). apply lookup_enumerate in Hin as [_ Hl].
      simpl in Hc. case_bool_decide as Hr; [|done]. injection Hc as ->.
      rewrite Nat.sub_0_r in Hl. by exists c.
    + intros (c & Hl & Hr). exists (k, c). split.
      * apply lookup_enumerate. split; [lia|]. by rewrite Nat.sub_0_r.
      * simpl. by rewrite bool_decide_true.
  - intros d Hd. apply list_elem_of_fmap in Hd as (d1 & -> & Hd1).
    unfold grouped_integrals in Hd1. apply list_elem_of_fmap in Hd1 as (d0 & -> & Hd0).
    split; [simpl; by rewrite length_map|].
    intros k c Hk. destruct (Hgroup d0 k c Hk) as (b & Hb & Hiff). by exists b.
  - intros k c Hk.
    assert (Hc : c ∈ reduced) by (by eapply list_elem_of_lookup_2).
    unfold reduced, grouped_integrals in Hc.
    apply elem_of_reduce_coefficients in Hc as (d0 & itg & Hd0 & Hitg & Hc).
    exists (set_enabled_coefficients reduced (set_integral_coefficients d0)). split.
    + apply list_elem_of_fmap_2. unfold grouped_integrals. by apply list_elem_of_fmap_2.
    + destruct (Hgroup d0 k c Hk) as (b & -> & Hb). f_equal. apply Hb. by exists itg.
Qed.

End CoefficientFacts.

Section FormDataExamples.
Import ComputeFormData FormWorld.

Lemma element_mapping_completes_elements_witness :
  (∀ e, is_Some ((<[(None, None) := (Some 0%nat, Some 3)]>
                  (<[(Some 0%nat, Some 3) := (Some 0%nat, Some 3)]> ∅)
                  : gmap Element Element) !! e)
        ↔ e ∈ form_elements incomplete_form) ∧
  (∀ e dom d, e ∈ form_elements incomplete_form → domain e = Some dom →
              degree e = Some d →
              (<[(None, None) := (Some 0%nat, Some 3)]>
               (<[(Some 0%nat, Some 3) := (Some 0%nat, Some 3)]> ∅)
               : gmap Element Element) !! e = Some e) ∧
  (∀ e d, e ∈ form_elements incomplete_form → domain e = None → degree e = Some d →
          ∃ dom, domains incomplete_form = [dom] ∧
                 (<[(None, None) := (Some 0%nat, Some 3)]>
                  (<[(Some 0%nat, Some 3) := (Some 0%nat, Some 3)]> ∅)
                  : gmap Element Element) !! e = Some (reconstruct e dom d)).
Proof.
  apply (element_mapping_completes_elements incomplete_form).
  by vm_compute.
Defined.

Lemma the_form_returns :
  ∃ fd, @compute_form_data _ _ _ _ _ _ _ _ _ _ _ _ _ ascending the_form = Return fd.
Proof. eexists. vm_compute. reflexivity. Qed.

Lemma returned_form_data_passes_checks_witness :
  ∃ fd, @compute_form_data _ _ _ _ _ _ _ _ _ _ _ _ _ ascending the_form = Return fd ∧
    original_form fd = the_form ∧
    rank fd = length (arguments the_form) ∧
    argument_elements fd = map arg_element (arguments the_form) ∧
    fd_elements fd = argument_elements fd ++ coefficient_elements fd ∧
    unique_elements fd = unique_tuple (fd_elements fd) ∧
    sub_elements fd = extract_sub_elements (fd_elements fd) ∧
    unique_sub_elements fd = unique_tuple (sub_elements fd) ∧
    (∀ e, e ∈ unique_elements fd ++ unique_sub_elements fd →
          is_Some (domain e) ∧ is_Some (family e)) ∧
    (∀ d itg c, d ∈ integral_data fd → itg ∈ itg_integrals d →
                c ∈ extract_classes (integrand itg) →
                is_GeometricFacetQuantity c = true →
                contains_facet (integral_type d) = true) ∧
    length (compute_form_arities (preprocessed_form fd)) = 1%nat.
Proof.
  destruct the_form_returns as [fd Hfd]. exists fd. split; [exact Hfd|].
  by apply (returned_form_data_passes_checks (SetOrder0 := ascending) the_form fd).
Defined.

Lemma kept_coefficients_and_masks_witness :
  ∃ fd, @compute_form_data _ _ _ _ _ _ _ _ _ _ _ _ _ ascending the_form = Return fd ∧
    num_coefficients fd = length (reduced_coefficients fd) ∧
    StronglySorted lt (original_coefficient_positions fd) ∧
    (∀ k, k ∈ original_coefficient_positions fd
          ↔ ∃ c, coefficients the_form !! k = Some c ∧ c ∈ reduced_coefficients fd) ∧
    (∀ d, d ∈ integral_data fd →
       length (enabled_coefficients d) = num_coefficients fd ∧
       ∀ k c, reduced_coefficients fd !! k = Some c →
         ∃ b, enabled_coefficients d !! k = Some b ∧
              (b = true ↔ ∃ itg, itg ∈ itg_integrals d ∧
                                 c ∈ extract_coefficients (integrand itg))) ∧
    (∀ k c, reduced_coefficients fd !! k = Some c →
       ∃ d, d ∈ integral_data fd ∧ enabled_coefficients d !! k = Some true).
Proof.
  destruct the_form_returns as [fd Hfd]. exists fd. split; [exact Hfd|].
  by apply (kept_coefficients_and_masks (SetOrder0 := ascending) the_form fd).
Defined.

End FormDataExamples.
